(** * LasaurGrbl stepper driver (stepper.c): a shallow embedding

    The file follows the layout of [stepper.c]: the static variables of
    the driver, the foreground entry points ([stepper_init],
    [stepper_wake_up], [stepper_go_idle], the stop request interface), the
    step interrupt [ISR(TIMER1_COMPA_vect)] with the Bresenham tracer and
    the trapezoid speed adjustment, [acceleration_tick],
    [config_step_timer], [adjust_speed] and the homing cycle.

    Integer model.  The firmware is built with avr-gcc (the file includes
    <avr/interrupt.h> and <util/delay.h>): [int] and [unsigned int] are 16
    bits wide, [long] and [uint32_t] 32 bits, I/O registers 8 bits (OCR1A
    16 bits).  Every C integer is a [Z] and each store writes the
    wrap-around out ([u8], [u16], [u32], [s32]).

    Interrupt nesting ([sei()]) and the timing of the two timers are not
    part of the model: one call of [ISR] is one complete run of the
    handler.  The position getters and [stepper_set_position] convert
    between steps and millimetres in [double] and are left out. *)

From Stdlib Require Import ZArith List Bool Lia.
Import ListNotations.
Local Open Scope Z_scope.

(** ** Machine integers *)

Definition u8 (z : Z) : Z := z mod 2 ^ 8.
Definition u16 (z : Z) : Z := z mod 2 ^ 16.
Definition u32 (z : Z) : Z := z mod 2 ^ 32.
(** Two's complement 32-bit value ([int32_t]). *)
Definition s32 (z : Z) : Z := (z + 2 ^ 31) mod 2 ^ 32 - 2 ^ 31.

(** ** Results of code that can go wrong *)

Inductive fault : Type :=
| NullBlock        (* [current_block->...] read while [current_block == NULL] *)
| DivisionByZero.  (* integer division by 0 *)

Inductive result (A : Type) : Type :=
| Ok (a : A)
| Fault (f : fault).
Arguments Ok {A} a.
Arguments Fault {A} f.

Definition bind {A B : Type} (r : result A) (k : A -> result B) : result B :=
  match r with
  | Ok a => k a
  | Fault f => Fault f
  end.

Notation "x <- e ;; k" := (bind e (fun x => k))
  (at level 61, e at next level, right associativity).

(** ** Bit positions of <avr/io.h> (ATmega328P) used by the driver *)

Module AVR.
Definition WGM10 : Z := 0.
Definition WGM11 : Z := 1.
Definition WGM12 : Z := 3.
Definition WGM13 : Z := 4.
Definition COM1A0 : Z := 6.
Definition COM1B0 : Z := 4.
Definition CS10 : Z := 0.
Definition CS21 : Z := 1.
Definition OCIE1A : Z := 1.
Definition TOIE2 : Z := 0.
End AVR.

(** ** Build configuration

    [config.h], [stepper.h] and [sense_control.h] are not among the sources;
    the constants the driver takes from them are the fields of [config]. *)

Record config : Type := {
  F_CPU : Z;
  ACCELERATION_TICKS_PER_SECOND : Z;
  MINIMUM_STEPS_PER_MINUTE : Z;
  CONFIG_PULSE_MICROSECONDS : Z;
  X_STEP_BIT : Z;
  Y_STEP_BIT : Z;
  Z_STEP_BIT : Z;
  X_DIRECTION_BIT : Z;
  Y_DIRECTION_BIT : Z;
  Z_DIRECTION_BIT : Z;
  STEPPING_MASK : Z;
  DIRECTION_MASK : Z;
  INVERT_MASK : Z;
  X1_LIMIT_BIT : Z;
  Y1_LIMIT_BIT : Z;
  LIMIT_MASK : Z;
  STATUS_OK : Z;
  STATUS_STOP_LIMIT_HIT : Z;
  STATUS_STOP_CHILLER_OFF : Z;
  STATUS_STOP_POWER_OFF : Z
}.

(** ** Motion blocks (planner.h)

    [block_t] is declared in [planner.h], which is not among the sources.
    The fields are the ones [stepper.c] reads; the kinds are the four cases
    of the [switch] in the step interrupt. *)

Inductive block_type : Type :=
| TYPE_LINE
| TYPE_AIRGAS_DISABLE
| TYPE_AIR_ENABLE
| TYPE_GAS_ENABLE.

Record block : Type := {
  type : block_type;
  steps_x : Z;
  steps_y : Z;
  steps_z : Z;
  direction_bits : Z;
  step_event_count : Z;
  nominal_rate : Z;
  initial_rate : Z;
  final_rate : Z;
  rate_delta : Z;
  accelerate_until : Z;
  decelerate_after : Z;
  nominal_laser_intensity : Z
}.

(** ** Driver state *)

(** [int32_t v[3]], indexed by [X_AXIS], [Y_AXIS], [Z_AXIS]. *)
Record vec3 : Type := {
  X_AXIS : Z;
  Y_AXIS : Z;
  Z_AXIS : Z
}.

(** The I/O registers the driver writes. *)
Record registers : Type := {
  STEPPING_DDR : Z;
  STEPPING_PORT : Z;
  TCCR1A : Z;
  TCCR1B : Z;
  TCCR2A : Z;
  TCCR2B : Z;
  TIMSK1 : Z;
  TIMSK2 : Z;
  TCNT2 : Z;
  OCR1A : Z
}.

(** What the step outputs have been asked to do, newest first. *)
Inductive output_event : Type :=
| StepPulse (port : Z)
    (* step interrupt: [STEPPING_PORT] written, Timer2 armed for the reset *)
| HomingPulse (bits high_us low_us : Z).
    (* homing: [bits] raised for [high_us], lowered for [low_us] *)

(** The collaborators of the driver: the planner's block buffer (oldest
    block first), the pending position updates of planner and G-code
    interpreter, the laser, air and gas outputs of [sense_control], and the
    record of emitted pulses. *)
Record collaborators : Type := {
  block_buffer : list block;
  planner_position_update : bool;
  gcode_position_update : bool;
  laser_intensity : Z;
  air : bool;
  gas : bool;
  emitted : list output_event
}.

(** The static variables of [stepper.c], the registers and the
    collaborators.  [current_block] points into the planner's buffer; the
    driver only reads through it, so the model keeps the block it points
    to. *)
Record state : Type := {
  stepper_position : vec3;
  current_block : option block;
  out_bits : Z;
  counter_x : Z;
  counter_y : Z;
  counter_z : Z;
  step_events_completed : Z;
  busy : bool;
  cycles_per_step_event : Z;
  acceleration_tick_counter : Z;
  adjusted_rate : Z;
  processing_flag : bool;
  stop_requested : bool;
  stop_status : Z;
  regs : registers;
  ext : collaborators
}.

(** Field updates. *)

Definition set_STEPPING_DDR (v : Z) (r : registers) : registers :=
  Build_registers v (STEPPING_PORT r) (TCCR1A r) (TCCR1B r) (TCCR2A r)
    (TCCR2B r) (TIMSK1 r) (TIMSK2 r) (TCNT2 r) (OCR1A r).
Definition set_STEPPING_PORT (v : Z) (r : registers) : registers :=
  Build_registers (STEPPING_DDR r) v (TCCR1A r) (TCCR1B r) (TCCR2A r)
    (TCCR2B r) (TIMSK1 r) (TIMSK2 r) (TCNT2 r) (OCR1A r).
Definition set_TCCR1A (v : Z) (r : registers) : registers :=
  Build_registers (STEPPING_DDR r) (STEPPING_PORT r) v (TCCR1B r) (TCCR2A r)
    (TCCR2B r) (TIMSK1 r) (TIMSK2 r) (TCNT2 r) (OCR1A r).
Definition set_TCCR1B (v : Z) (r : registers) : registers :=
  Build_registers (STEPPING_DDR r) (STEPPING_PORT r) (TCCR1A r) v (TCCR2A r)
    (TCCR2B r) (TIMSK1 r) (TIMSK2 r) (TCNT2 r) (OCR1A r).
Definition set_TCCR2A (v : Z) (r : registers) : registers :=
  Build_registers (STEPPING_DDR r) (STEPPING_PORT r) (TCCR1A r) (TCCR1B r) v
    (TCCR2B r) (TIMSK1 r) (TIMSK2 r) (TCNT2 r) (OCR1A r).
Definition set_TCCR2B (v : Z) (r : registers) : registers :=
  Build_registers (STEPPING_DDR r) (STEPPING_PORT r) (TCCR1A r) (TCCR1B r)
    (TCCR2A r) v (TIMSK1 r) (TIMSK2 r) (TCNT2 r) (OCR1A r).
Definition set_TIMSK1 (v : Z) (r : registers) : registers :=
  Build_registers (STEPPING_DDR r) (STEPPING_PORT r) (TCCR1A r) (TCCR1B r)
    (TCCR2A r) (TCCR2B r) v (TIMSK2 r) (TCNT2 r) (OCR1A r).
Definition set_TIMSK2 (v : Z) (r : registers) : registers :=
  Build_registers (STEPPING_DDR r) (STEPPING_PORT r) (TCCR1A r) (TCCR1B r)
    (TCCR2A r) (TCCR2B r) (TIMSK1 r) v (TCNT2 r) (OCR1A r).
Definition set_TCNT2 (v : Z) (r : registers) : registers :=
  Build_registers (STEPPING_DDR r) (STEPPING_PORT r) (TCCR1A r) (TCCR1B r)
    (TCCR2A r) (TCCR2B r) (TIMSK1 r) (TIMSK2 r) v (OCR1A r).
Definition set_OCR1A (v : Z) (r : registers) : registers :=
  Build_registers (STEPPING_DDR r) (STEPPING_PORT r) (TCCR1A r) (TCCR1B r)
    (TCCR2A r) (TCCR2B r) (TIMSK1 r) (TIMSK2 r) (TCNT2 r) v.

Definition set_block_buffer (v : list block) (r : collaborators) : collaborators :=
  Build_collaborators v (planner_position_update r) (gcode_position_update r)
    (laser_intensity r) (air r) (gas r) (emitted r).
Definition set_planner_position_update (v : bool) (r : collaborators) : collaborators :=
  Build_collaborators (block_buffer r) v (gcode_position_update r)
    (laser_intensity r) (air r) (gas r) (emitted r).
Definition set_gcode_position_update (v : bool) (r : collaborators) : collaborators :=
  Build_collaborators (block_buffer r) (planner_position_update r) v
    (laser_intensity r) (air r) (gas r) (emitted r).
Definition set_laser_intensity (v : Z) (r : collaborators) : collaborators :=
  Build_collaborators (block_buffer r) (planner_position_update r)
    (gcode_position_update r) v (air r) (gas r) (emitted r).
Definition set_air (v : bool) (r : collaborators) : collaborators :=
  Build_collaborators (block_buffer r) (planner_position_update r)
    (gcode_position_update r) (laser_intensity r) v (gas r) (emitted r).
Definition set_gas (v : bool) (r : collaborators) : collaborators :=
  Build_collaborators (block_buffer r) (planner_position_update r)
    (gcode_position_update r) (laser_intensity r) (air r) v (emitted r).
Definition set_emitted (v : list output_event) (r : collaborators) : collaborators :=
  Build_collaborators (block_buffer r) (planner_position_update r)
    (gcode_position_update r) (laser_intensity r) (air r) (gas r) v.

Definition set_stepper_position (v : vec3) (r : state) : state :=
  Build_state v (current_block r) (out_bits r) (counter_x r) (counter_y r)
    (counter_z r) (step_events_completed r) (busy r) (cycles_per_step_event r)
    (acceleration_tick_counter r) (adjusted_rate r) (processing_flag r)
    (stop_requested r) (stop_status r) (regs r) (ext r).
Definition set_current_block (v : option block) (r : state) : state :=
  Build_state (stepper_position r) v (out_bits r) (counter_x r) (counter_y r)
    (counter_z r) (step_events_completed r) (busy r) (cycles_per_step_event r)
    (acceleration_tick_counter r) (adjusted_rate r) (processing_flag r)
    (stop_requested r) (stop_status r) (regs r) (ext r).
Definition set_out_bits (v : Z) (r : state) : state :=
  Build_state (stepper_position r) (current_block r) v (counter_x r)
    (counter_y r) (counter_z r) (step_events_completed r) (busy r)
    (cycles_per_step_event r) (acceleration_tick_counter r) (adjusted_rate r)
    (processing_flag r) (stop_requested r) (stop_status r) (regs r) (ext r).
Definition set_counter_x (v : Z) (r : state) : state :=
  Build_state (stepper_position r) (current_block r) (out_bits r) v
    (counter_y r) (counter_z r) (step_events_completed r) (busy r)
    (cycles_per_step_event r) (acceleration_tick_counter r) (adjusted_rate r)
    (processing_flag r) (stop_requested r) (stop_status r) (regs r) (ext r).
Definition set_counter_y (v : Z) (r : state) : state :=
  Build_state (stepper_position r) (current_block r) (out_bits r)
    (counter_x r) v (counter_z r) (step_events_completed r) (busy r)
    (cycles_per_step_event r) (acceleration_tick_counter r) (adjusted_rate r)
    (processing_flag r) (stop_requested r) (stop_status r) (regs r) (ext r).
Definition set_counter_z (v : Z) (r : state) : state :=
  Build_state (stepper_position r) (current_block r) (out_bits r)
    (counter_x r) (counter_y r) v (step_events_completed r) (busy r)
    (cycles_per_step_event r) (acceleration_tick_counter r) (adjusted_rate r)
    (processing_flag r) (stop_requested r) (stop_status r) (regs r) (ext r).
Definition set_step_events_completed (v : Z) (r : state) : state :=
  Build_state (stepper_position r) (current_block r) (out_bits r)
    (counter_x r) (counter_y r) (counter_z r) v (busy r)
    (cycles_per_step_event r) (acceleration_tick_counter r) (adjusted_rate r)
    (processing_flag r) (stop_requested r) (stop_status r) (regs r) (ext r).
Definition set_busy (v : bool) (r : state) : state :=
  Build_state (stepper_position r) (current_block r) (out_bits r)
    (counter_x r) (counter_y r) (counter_z r) (step_events_completed r) v
    (cycles_per_step_event r) (acceleration_tick_counter r) (adjusted_rate r)
    (processing_flag r) (stop_requested r) (stop_status r) (regs r) (ext r).
Definition set_cycles_per_step_event (v : Z) (r : state) : state :=
  Build_state (stepper_position r) (current_block r) (out_bits r)
    (counter_x r) (counter_y r) (counter_z r) (step_events_completed r)
    (busy r) v (acceleration_tick_counter r) (adjusted_rate r)
    (processing_flag r) (stop_requested r) (stop_status r) (regs r) (ext r).
Definition set_acceleration_tick_counter (v : Z) (r : state) : state :=
  Build_state (stepper_position r) (current_block r) (out_bits r)
    (counter_x r) (counter_y r) (counter_z r) (step_events_completed r)
    (busy r) (cycles_per_step_event r) v (adjusted_rate r) (processing_flag r)
    (stop_requested r) (stop_status r) (regs r) (ext r).
Definition set_adjusted_rate (v : Z) (r : state) : state :=
  Build_state (stepper_position r) (current_block r) (out_bits r)
    (counter_x r) (counter_y r) (counter_z r) (step_events_completed r)
    (busy r) (cycles_per_step_event r) (acceleration_tick_counter r) v
    (processing_flag r) (stop_requested r) (stop_status r) (regs r) (ext r).
Definition set_processing_flag (v : bool) (r : state) : state :=
  Build_state (stepper_position r) (current_block r) (out_bits r)
    (counter_x r) (counter_y r) (counter_z r) (step_events_completed r)
    (busy r) (cycles_per_step_event r) (acceleration_tick_counter r)
    (adjusted_rate r) v (stop_requested r) (stop_status r) (regs r) (ext r).
Definition set_stop_requested (v : bool) (r : state) : state :=
  Build_state (stepper_position r) (current_block r) (out_bits r)
    (counter_x r) (counter_y r) (counter_z r) (step_events_completed r)
    (busy r) (cycles_per_step_event r) (acceleration_tick_counter r)
    (adjusted_rate r) (processing_flag r) v (stop_status r) (regs r) (ext r).
Definition set_stop_status (v : Z) (r : state) : state :=
  Build_state (stepper_position r) (current_block r) (out_bits r)
    (counter_x r) (counter_y r) (counter_z r) (step_events_completed r)
    (busy r) (cycles_per_step_event r) (acceleration_tick_counter r)
    (adjusted_rate r) (processing_flag r) (stop_requested r) v (regs r)
    (ext r).
Definition set_regs (v : registers) (r : state) : state :=
  Build_state (stepper_position r) (current_block r) (out_bits r)
    (counter_x r) (counter_y r) (counter_z r) (step_events_completed r)
    (busy r) (cycles_per_step_event r) (acceleration_tick_counter r)
    (adjusted_rate r) (processing_flag r) (stop_requested r) (stop_status r) v
    (ext r).
Definition set_ext (v : collaborators) (r : state) : state :=
  Build_state (stepper_position r) (current_block r) (out_bits r)
    (counter_x r) (counter_y r) (counter_z r) (step_events_completed r)
    (busy r) (cycles_per_step_event r) (acceleration_tick_counter r)
    (adjusted_rate r) (processing_flag r) (stop_requested r) (stop_status r)
    (regs r) v.


Definition upd_regs (f : registers -> registers) (st : state) : state :=
  set_regs (f (regs st)) st.

Definition upd_ext (f : collaborators -> collaborators) (st : state) : state :=
  set_ext (f (ext st)) st.

(** ** Collaborators *)

(** Modelled from the spec: [planner.c] is not among the sources.  The
    motion queue offers fetch-current-block (the oldest unconsumed block or
    none), discard-current-block (removes it), reset-all (drops all queued
    blocks) and a request to resynchronise its position. *)
Definition planner_get_current_block (st : state) : option block :=
  hd_error (block_buffer (ext st)).

Definition planner_discard_current_block (st : state) : state :=
  upd_ext (fun e => set_block_buffer (tl (block_buffer e)) e) st.

Definition planner_reset_block_buffer (st : state) : state :=
  upd_ext (set_block_buffer []) st.

Definition planner_request_position_update (st : state) : state :=
  upd_ext (set_planner_position_update true) st.

(** Modelled from the spec: [gcode.c] is not among the sources; the
    position tracker takes a request to resynchronise after an abort. *)
Definition gcode_request_position_update (st : state) : state :=
  upd_ext (set_gcode_position_update true) st.

(** Modelled from the spec: [sense_control.c] is not among the sources; it
    takes commands to set the actuator intensity ([uint8_t]) and to switch
    the two auxiliary outputs. *)
Definition control_laser_intensity (intensity : Z) (st : state) : state :=
  upd_ext (set_laser_intensity (u8 intensity)) st.

Definition control_air (enable : bool) (st : state) : state :=
  upd_ext (set_air enable) st.

Definition control_gas (enable : bool) (st : state) : state :=
  upd_ext (set_gas enable) st.

(** Modelled from the spec: the [clear_vector] macro is not among the
    sources.  The spec has the state created with zeroed position, which
    [stepper_init] does with [clear_vector(stepper_position)]: it zeroes the
    whole array. *)
Definition clear_vector (v : vec3) : vec3 :=
  {| X_AXIS := 0; Y_AXIS := 0; Z_AXIS := 0 |}.

(** The sensor inputs of one sample ([sense_control.h]). *)
Record sense : Type := {
  SENSE_LIMITS : bool;
  SENSE_CHILLER_OFF : bool;
  SENSE_POWER_OFF : bool;
  SENSE_DOOR_OPEN : bool
}.

(** Modelled from the spec: the [SENSE_ANY] macro is not among the sources;
    it is the composite "any fault/pause condition active" signal of the
    four causes. *)
Definition SENSE_ANY (s : sense) : bool :=
  SENSE_LIMITS s || SENSE_CHILLER_OFF s || SENSE_POWER_OFF s
  || SENSE_DOOR_OPEN s.

Definition all_clear : sense :=
  {| SENSE_LIMITS := false; SENSE_CHILLER_OFF := false;
     SENSE_POWER_OFF := false; SENSE_DOOR_OPEN := false |}.

(** ** The rate quantizer, without the registers *)

Record timer_setting : Type := {
  ceiling : Z;        (* uint16_t, goes to OCR1A *)
  prescaler : Z;      (* uint16_t, 0..4 *)
  actual_cycles : Z   (* uint32_t, returned *)
}.

(** The branches of [config_step_timer].  [ceiling * 8L] is computed in
    [long]; [0xffff * 1024] has no suffix: [0xffff] is an [unsigned int],
    the product is taken in 16 bits. *)
Definition step_timer_setting (cycles : Z) : timer_setting :=
  if cycles <=? 0xffff then
    let c := u16 cycles in
    {| ceiling := c; prescaler := 0; actual_cycles := u32 c |}
  else if cycles <=? 0x7ffff then
    let c := u16 (Z.shiftr cycles 3) in
    {| ceiling := c; prescaler := 1; actual_cycles := u32 (s32 (c * 8)) |}
  else if cycles <=? 0x3fffff then
    let c := u16 (Z.shiftr cycles 6) in
    {| ceiling := c; prescaler := 2; actual_cycles := u32 (s32 (c * 64)) |}
  else if cycles <=? 0xffffff then
    let c := u16 (Z.shiftr cycles 8) in
    {| ceiling := c; prescaler := 3; actual_cycles := u32 (s32 (c * 256)) |}
  else if cycles <=? 0x3ffffff then
    let c := u16 (Z.shiftr cycles 10) in
    {| ceiling := c; prescaler := 4; actual_cycles := u32 (s32 (c * 1024)) |}
  else
    {| ceiling := u16 0xffff; prescaler := 4;
       actual_cycles := u32 (u16 (0xffff * 1024)) |}.

(** Clock division selected by the code [prescaler] (written to the clock
    select bits as [prescaler+1]): 1, 8, 64, 256, 1024. *)
Definition prescaler_divisor (p : Z) : Z :=
  nth (Z.to_nat p) [1; 8; 64; 256; 1024] 0.

Section Driver.

Variable cfg : config.

Definition CYCLES_PER_MICROSECOND : Z := F_CPU cfg / 1000000.
Definition CYCLES_PER_ACCELERATION_TICK : Z :=
  F_CPU cfg / ACCELERATION_TICKS_PER_SECOND cfg.

(** ** Foreground interface *)

Definition stepper_go_idle (st : state) : state :=
  let st := set_processing_flag false st in
  let st := set_current_block None st in
  let st := upd_regs (fun r =>
    set_TIMSK1 (u8 (Z.land (TIMSK1 r) (Z.lnot (Z.shiftl 1 AVR.OCIE1A)))) r) st in
  control_laser_intensity 0 st.

Definition stepper_wake_up (st : state) : state :=
  if negb (processing_flag st) then
    let st := set_processing_flag true st in
    let st := set_out_bits (u8 (INVERT_MASK cfg)) st in
    upd_regs (fun r =>
      set_TIMSK1 (u8 (Z.lor (TIMSK1 r) (Z.shiftl 1 AVR.OCIE1A))) r) st
  else st.

Definition stepper_request_stop (status : Z) (st : state) : state :=
  let st := set_stop_status (u8 status) st in
  set_stop_requested true st.

Definition stepper_stop_requested (st : state) : bool := stop_requested st.

Definition stepper_stop_status (st : state) : Z := stop_status st.

Definition stepper_resume (st : state) : state :=
  set_stop_requested false st.

(** [while (processing_flag) sleep_mode();] only returns once the flag is
    clear, and only the step interrupt clears it: taken alone the call
    returns ([Some]) exactly when the driver is already idle. *)
Definition stepper_synchronize (st : state) : option state :=
  if processing_flag st then None else Some st.

(** ** The stepper reset interrupt, [ISR(TIMER2_OVF_vect)] *)

Definition TIMER2_OVF_vect (st : state) : state :=
  upd_regs (fun r =>
    let r := set_STEPPING_PORT
      (u8 (Z.lor (Z.land (STEPPING_PORT r) (Z.lnot (STEPPING_MASK cfg)))
                 (Z.land (INVERT_MASK cfg) (STEPPING_MASK cfg)))) r in
    set_TCCR2B 0 r) st.

(** ** [acceleration_tick] *)

Definition acceleration_tick (st : state) : bool * state :=
  let st := set_acceleration_tick_counter
    (u32 (acceleration_tick_counter st + cycles_per_step_event st)) st in
  if CYCLES_PER_ACCELERATION_TICK <? acceleration_tick_counter st then
    (true, set_acceleration_tick_counter
       (u32 (acceleration_tick_counter st - CYCLES_PER_ACCELERATION_TICK)) st)
  else (false, st).

(** ** [config_step_timer] *)

Definition config_step_timer (cycles : Z) (st : state) : Z * state :=
  let t := step_timer_setting cycles in
  let st := upd_regs (fun r =>
    let r := set_TCCR1B
      (u8 (Z.lor (Z.land (TCCR1B r) (Z.lnot (Z.shiftl 0x07 AVR.CS10)))
                 (Z.shiftl (prescaler t + 1) AVR.CS10))) r in
    set_OCR1A (ceiling t) r) st in
  (actual_cycles t, st).

(** ** [adjust_speed] *)

Definition adjust_speed (steps_per_minute : Z) (st : state) : result state :=
  let steps_per_minute :=
    if steps_per_minute <? MINIMUM_STEPS_PER_MINUTE cfg
    then MINIMUM_STEPS_PER_MINUTE cfg else steps_per_minute in
  if steps_per_minute =? 0 then Fault DivisionByZero else
  let (actual, st) :=
    config_step_timer
      (u32 (CYCLES_PER_MICROSECOND * 1000000 * 60) / steps_per_minute) st in
  let st := set_cycles_per_step_event actual st in
  (* run at constant intensity for now *)
  match current_block st with
  | None => Fault NullBlock
  | Some b => Ok (control_laser_intensity (nominal_laser_intensity b) st)
  end.

(** ** [stepper_init] *)

Definition stepper_init (st : state) : result state :=
  (* Configure directions of interface pins *)
  let st := upd_regs (fun r =>
    let r := set_STEPPING_DDR
      (u8 (Z.lor (STEPPING_DDR r)
                 (Z.lor (STEPPING_MASK cfg) (DIRECTION_MASK cfg)))) r in
    let r := set_STEPPING_PORT
      (u8 (Z.lor (Z.land (STEPPING_PORT r)
                    (Z.lnot (Z.lor (STEPPING_MASK cfg) (DIRECTION_MASK cfg))))
                 (INVERT_MASK cfg))) r in
    (* waveform generation = 0100 = CTC *)
    let r := set_TCCR1B
      (u8 (Z.land (TCCR1B r) (Z.lnot (Z.shiftl 1 AVR.WGM13)))) r in
    let r := set_TCCR1B (u8 (Z.lor (TCCR1B r) (Z.shiftl 1 AVR.WGM12))) r in
    let r := set_TCCR1A
      (u8 (Z.land (TCCR1A r) (Z.lnot (Z.shiftl 1 AVR.WGM11)))) r in
    let r := set_TCCR1A
      (u8 (Z.land (TCCR1A r) (Z.lnot (Z.shiftl 1 AVR.WGM10)))) r in
    (* output mode = 00 (disconnected) *)
    let r := set_TCCR1A
      (u8 (Z.land (TCCR1A r) (Z.lnot (Z.shiftl 3 AVR.COM1A0)))) r in
    let r := set_TCCR1A
      (u8 (Z.land (TCCR1A r) (Z.lnot (Z.shiftl 3 AVR.COM1B0)))) r in
    (* Configure Timer 2 *)
    let r := set_TCCR2A 0 r in
    let r := set_TCCR2B 0 r in
    set_TIMSK2 (u8 (Z.lor (TIMSK2 r) (Z.shiftl 1 AVR.TOIE2))) r) st in
  st <- adjust_speed (MINIMUM_STEPS_PER_MINUTE cfg) st ;;
  let st := set_stepper_position (clear_vector (stepper_position st)) st in
  let st := set_acceleration_tick_counter 0 st in
  let st := set_current_block None st in
  let st := set_stop_requested false st in
  let st := set_stop_status (u8 (STATUS_OK cfg)) st in
  let st := set_busy false st in
  (* start in the idle state *)
  Ok (stepper_go_idle st).

(** ** The stepper interrupt, [ISR(TIMER1_COMPA_vect)] *)

(** "pulse steppers": the bits computed by the previous run go out, and
    Timer2 is primed for the reset pulse. *)
Definition pulse_steppers (st : state) : state :=
  let st := upd_regs (fun r =>
    let r := set_STEPPING_PORT
      (u8 (Z.lor (Z.land (STEPPING_PORT r) (Z.lnot (DIRECTION_MASK cfg)))
                 (Z.land (out_bits st) (DIRECTION_MASK cfg)))) r in
    let r := set_STEPPING_PORT
      (u8 (Z.lor (Z.land (STEPPING_PORT r) (Z.lnot (STEPPING_MASK cfg)))
                 (out_bits st))) r in
    let r := set_TCNT2
      (u8 (- Z.shiftr
             (u32 ((CONFIG_PULSE_MICROSECONDS cfg - 2) * CYCLES_PER_MICROSECOND))
             3)) r in
    set_TCCR2B (u8 (Z.shiftl 1 AVR.CS21)) r) st in
  upd_ext (fun e =>
    set_emitted (StepPulse (STEPPING_PORT (regs st)) :: emitted e) e) st.

(** "starting on new line block". *)
Definition start_line_block (b : block) (st : state) : result state :=
  let st := set_adjusted_rate (u32 (initial_rate b)) st in
  let st := set_acceleration_tick_counter
    (u32 (CYCLES_PER_ACCELERATION_TICK / 2)) st in
  st <- adjust_speed (adjusted_rate st) st ;;
  let st := set_counter_x (s32 (- Z.shiftr (step_event_count b) 1)) st in
  let st := set_counter_y (counter_x st) st in
  let st := set_counter_z (counter_x st) st in
  Ok (set_step_events_completed 0 st).

(** The X axis of the tracer: [counter_x += steps_x] and, when the
    counter is positive, the step bit, the counter and the position. *)
Definition trace_x (b : block) (st : state) : state :=
  let st := set_counter_x (s32 (counter_x st + steps_x b)) st in
  if 0 <? counter_x st then
    let st := set_out_bits
      (u8 (Z.lor (out_bits st) (Z.shiftl 1 (X_STEP_BIT cfg)))) st in
    let st := set_counter_x (s32 (counter_x st - step_event_count b)) st in
    (* also keep track of absolute position *)
    let p := stepper_position st in
    if Z.testbit (out_bits st) (X_DIRECTION_BIT cfg)
    then set_stepper_position
           {| X_AXIS := s32 (X_AXIS p - 1); Y_AXIS := Y_AXIS p; Z_AXIS := Z_AXIS p |} st
    else set_stepper_position
           {| X_AXIS := s32 (X_AXIS p + 1); Y_AXIS := Y_AXIS p; Z_AXIS := Z_AXIS p |} st
  else st.

(** The Y axis of the tracer: [counter_y += steps_y] and, when the
    counter is positive, the step bit, the counter and the position. *)
Definition trace_y (b : block) (st : state) : state :=
  let st := set_counter_y (s32 (counter_y st + steps_y b)) st in
  if 0 <? counter_y st then
    let st := set_out_bits
      (u8 (Z.lor (out_bits st) (Z.shiftl 1 (Y_STEP_BIT cfg)))) st in
    let st := set_counter_y (s32 (counter_y st - step_event_count b)) st in
    (* also keep track of absolute position *)
    let p := stepper_position st in
    if Z.testbit (out_bits st) (Y_DIRECTION_BIT cfg)
    then set_stepper_position
           {| X_AXIS := X_AXIS p; Y_AXIS := s32 (Y_AXIS p - 1); Z_AXIS := Z_AXIS p |} st
    else set_stepper_position
           {| X_AXIS := X_AXIS p; Y_AXIS := s32 (Y_AXIS p + 1); Z_AXIS := Z_AXIS p |} st
  else st.

(** The Z axis of the tracer: [counter_z += steps_z] and, when the
    counter is positive, the step bit, the counter and the position. *)
Definition trace_z (b : block) (st : state) : state :=
  let st := set_counter_z (s32 (counter_z st + steps_z b)) st in
  if 0 <? counter_z st then
    let st := set_out_bits
      (u8 (Z.lor (out_bits st) (Z.shiftl 1 (Z_STEP_BIT cfg)))) st in
    let st := set_counter_z (s32 (counter_z st - step_event_count b)) st in
    (* also keep track of absolute position *)
    let p := stepper_position st in
    if Z.testbit (out_bits st) (Z_DIRECTION_BIT cfg)
    then set_stepper_position
           {| X_AXIS := X_AXIS p; Y_AXIS := Y_AXIS p; Z_AXIS := s32 (Z_AXIS p - 1) |} st
    else set_stepper_position
           {| X_AXIS := X_AXIS p; Y_AXIS := Y_AXIS p; Z_AXIS := s32 (Z_AXIS p + 1) |} st
  else st.

(** "Execute step displacement profile by bresenham line algorithm", up to
    and including "apply stepper invert mask". *)
Definition trace_line (b : block) (st : state) : state :=
  let st := set_out_bits (u8 (direction_bits b)) st in
  let st := trace_x b st in
  let st := trace_y b st in
  let st := trace_z b st in
  (* increment step count *)
  let st :=
    set_step_events_completed (u32 (step_events_completed st + 1)) st in
  (* apply stepper invert mask *)
  set_out_bits (u8 (Z.lxor (out_bits st) (INVERT_MASK cfg))) st.

(** "SPEED ADJUSTMENT". *)
Definition speed_adjustment (b : block) (st : state) : result state :=
  if step_events_completed st <? step_event_count b then
    if step_events_completed st <? accelerate_until b then
      (* accelerating *)
      let (tick, st) := acceleration_tick st in
      if tick then
        let st := set_adjusted_rate (u32 (adjusted_rate st + rate_delta b)) st in
        let st :=
          if nominal_rate b <? adjusted_rate st
          then set_adjusted_rate (nominal_rate b) st else st in
        adjust_speed (adjusted_rate st) st
      else Ok st
    else if step_events_completed st =? decelerate_after b then
      (* deceleration start: reset counter, midpoint rule *)
      Ok (set_acceleration_tick_counter
            (u32 (CYCLES_PER_ACCELERATION_TICK / 2)) st)
    else if decelerate_after b <=? step_events_completed st then
      (* decelerating *)
      let (tick, st) := acceleration_tick st in
      if tick then
        let st := set_adjusted_rate (u32 (adjusted_rate st - rate_delta b)) st in
        let st :=
          if adjusted_rate st <? final_rate b
          then set_adjusted_rate (final_rate b) st else st in
        adjust_speed (adjusted_rate st) st
      else Ok st
    else
      (* cruising *)
      if negb (adjusted_rate st =? nominal_rate b) then
        let st := set_adjusted_rate (nominal_rate b) st in
        adjust_speed (adjusted_rate st) st
      else Ok st
  else
    (* block finished *)
    let st := set_current_block None st in
    Ok (planner_discard_current_block st).

(** "process current block, populate out_bits (or handle other commands)". *)
Definition process_block (b : block) (st : state) : result state :=
  match type b with
  | TYPE_LINE => speed_adjustment b (trace_line b st)
  | TYPE_AIRGAS_DISABLE =>
      let st := control_air false st in
      let st := control_gas false st in
      let st := set_current_block None st in
      Ok (planner_discard_current_block st)
  | TYPE_AIR_ENABLE =>
      let st := control_air true st in
      let st := set_current_block None st in
      Ok (planner_discard_current_block st)
  | TYPE_GAS_ENABLE =>
      let st := control_gas true st in
      let st := set_current_block None st in
      Ok (planner_discard_current_block st)
  end.

(** The "stop/pause program" branch taken when [SENSE_ANY]. *)
Definition sense_stop (s : sense) (st : state) : state :=
  if SENSE_LIMITS s then
    stepper_request_stop (STATUS_STOP_LIMIT_HIT cfg) st
  else if SENSE_CHILLER_OFF s then
    stepper_request_stop (STATUS_STOP_CHILLER_OFF cfg) st
  else if SENSE_POWER_OFF s then
    stepper_request_stop (STATUS_STOP_POWER_OFF cfg) st
  else
    (* door open: no stop request, simply suspend processing *)
    st.

Definition ISR (s : sense) (st : state) : result state :=
  if busy st then Ok st else
  let st := set_busy true st in
  if stop_requested st then
    (* go idle and absorb any blocks *)
    let st := stepper_go_idle st in
    let st := planner_reset_block_buffer st in
    let st := planner_request_position_update st in
    let st := gcode_request_position_update st in
    Ok (set_busy false st)
  else if SENSE_ANY s then
    Ok (set_busy false (sense_stop s st))
  else
    let st := pulse_steppers st in
    match current_block st with
    | Some b =>
        st <- process_block b st ;;
        Ok (set_busy false st)
    | None =>
        (* no current block: attempt to pop one from the buffer *)
        match planner_get_current_block st with
        | None =>
            let st := set_current_block None st in
            let st := stepper_go_idle st in
            Ok (set_busy false st)
        | Some b =>
            let st := set_current_block (Some b) st in
            st <- (match type b with
                   | TYPE_LINE => start_line_block b st
                   | _ => Ok st
                   end) ;;
            st <- process_block b st ;;
            Ok (set_busy false st)
        end
    end.

(** The interrupt taken once per sensor sample of [ss], in order; the
    result lists the state left by each run. *)
Fixpoint ISR_trace (ss : list sense) (st : state) : result (list state) :=
  match ss with
  | [] => Ok []
  | s :: ss' =>
      st' <- ISR s st ;;
      tr <- ISR_trace ss' st' ;;
      Ok (st' :: tr)
  end.

(** ** The homing cycle *)

(** The local variables of [homing_cycle] that change in its loop. *)
Record homing_frame : Type := {
  x_axis : bool;
  y_axis : bool;
  z_axis : bool;
  h_out_bits : Z;            (* the local [out_bits] *)
  x_overshoot_count : Z;
  y_overshoot_count : Z
}.

(** The value of the local [limit_bits] for the reading [pin] of
    [LIMIT_PIN]. *)
Definition read_limit_bits (reverse_direction : bool) (pin : Z) : Z :=
  let limit_bits := u8 pin in
  if reverse_direction
  then (* Invert limit_bits if this is a reverse homing_cycle *)
       u8 (Z.lxor limit_bits (LIMIT_MASK cfg))
  else limit_bits.

(** The two [if (axis && !(limit_bits & (1<<LIMIT_BIT)))] statements of the
    loop body. *)
Definition check_limits (limit_bits : Z) (f : homing_frame) : homing_frame :=
  let f :=
    if x_axis f && (Z.land limit_bits (Z.shiftl 1 (X1_LIMIT_BIT cfg)) =? 0) then
      if x_overshoot_count f =? 0 then
        {| x_axis := false; y_axis := y_axis f; z_axis := z_axis f;
           h_out_bits := u8 (Z.lxor (h_out_bits f) (Z.shiftl 1 (X_STEP_BIT cfg)));
           x_overshoot_count := x_overshoot_count f;
           y_overshoot_count := y_overshoot_count f |}
      else
        {| x_axis := x_axis f; y_axis := y_axis f; z_axis := z_axis f;
           h_out_bits := h_out_bits f;
           x_overshoot_count := u8 (x_overshoot_count f - 1);
           y_overshoot_count := y_overshoot_count f |}
    else f in
  if y_axis f && (Z.land limit_bits (Z.shiftl 1 (Y1_LIMIT_BIT cfg)) =? 0) then
    if y_overshoot_count f =? 0 then
      {| x_axis := x_axis f; y_axis := false; z_axis := z_axis f;
         h_out_bits := u8 (Z.lxor (h_out_bits f) (Z.shiftl 1 (Y_STEP_BIT cfg)));
         x_overshoot_count := x_overshoot_count f;
         y_overshoot_count := y_overshoot_count f |}
    else
      {| x_axis := x_axis f; y_axis := y_axis f; z_axis := z_axis f;
         h_out_bits := h_out_bits f;
         x_overshoot_count := x_overshoot_count f;
         y_overshoot_count := u8 (y_overshoot_count f - 1) |}
  else f.

(** "step all axes still in out_bits". *)
Definition homing_pulse (step_delay : Z) (f : homing_frame) (st : state)
    : state :=
  let bits := Z.land (h_out_bits f) (STEPPING_MASK cfg) in
  let st := upd_regs (fun r =>
    let r := set_STEPPING_PORT (u8 (Z.lor (STEPPING_PORT r) bits)) r in
    set_STEPPING_PORT (u8 (Z.lxor (STEPPING_PORT r) bits)) r) st in
  upd_ext (fun e =>
    set_emitted
      (HomingPulse bits (CONFIG_PULSE_MICROSECONDS cfg) step_delay
         :: emitted e) e) st.

(** One turn of the [for(;;)] loop with [LIMIT_PIN] reading [pin]: [None]
    is the [break]. *)
Definition homing_iteration (reverse_direction : bool) (step_delay : Z)
    (pin : Z) (f : homing_frame) (st : state) : option (homing_frame * state) :=
  let limit_bits := read_limit_bits reverse_direction pin in
  let f := check_limits limit_bits f in
  if x_axis f || y_axis f || z_axis f
  then Some (f, homing_pulse step_delay f st)
  else None.

(** The loop over the successive readings [pins] of [LIMIT_PIN].  The
    boolean tells whether the [break] was reached within these readings;
    the readings not consumed are returned. *)
Fixpoint homing_loop (reverse_direction : bool) (step_delay : Z)
    (pins : list Z) (f : homing_frame) (st : state)
    : bool * homing_frame * state * list Z :=
  match pins with
  | [] => (false, f, st, [])
  | pin :: pins' =>
      match homing_iteration reverse_direction step_delay pin f st with
      | None => (true, f, st, pins')
      | Some (f', st') => homing_loop reverse_direction step_delay pins' f' st'
      end
  end.

(** The frame on entry to the loop. *)
Definition homing_entry (x y z reverse_direction : bool) : homing_frame :=
  let out := u8 (DIRECTION_MASK cfg) in
  let out := if x then u8 (Z.lor out (Z.shiftl 1 (X_STEP_BIT cfg))) else out in
  let out := if y then u8 (Z.lor out (Z.shiftl 1 (Y_STEP_BIT cfg))) else out in
  let out := if z then u8 (Z.lor out (Z.shiftl 1 (Z_STEP_BIT cfg))) else out in
  (* Invert direction bits if this is a reverse homing_cycle *)
  let out :=
    if reverse_direction then u8 (Z.lxor out (DIRECTION_MASK cfg)) else out in
  (* Apply the global invert mask *)
  let out := u8 (Z.lxor out (INVERT_MASK cfg)) in
  {| x_axis := x; y_axis := y; z_axis := z; h_out_bits := out;
     x_overshoot_count := 6; y_overshoot_count := 6 |}.

(** [homing_cycle]: the boolean tells whether the call returned within the
    readings [pins]; the position is cleared on return only. *)
Definition homing_cycle (x y z reverse_direction : bool)
    (microseconds_per_pulse : Z) (pins : list Z) (st : state)
    : bool * state * list Z :=
  let step_delay :=
    u32 (microseconds_per_pulse - CONFIG_PULSE_MICROSECONDS cfg) in
  let f := homing_entry x y z reverse_direction in
  (* Set direction pins *)
  let st := upd_regs (fun r =>
    set_STEPPING_PORT
      (u8 (Z.lor (Z.land (STEPPING_PORT r) (Z.lnot (DIRECTION_MASK cfg)))
                 (Z.land (h_out_bits f) (DIRECTION_MASK cfg)))) r) st in
  let '(done, _, st, rest) :=
    homing_loop reverse_direction step_delay pins f st in
  if done
  then (true, set_stepper_position (clear_vector (stepper_position st)) st, rest)
  else (false, st, rest).

Definition approach_limit_switch (x y z : bool) (pins : list Z) (st : state)
    : bool * state * list Z :=
  homing_cycle x y z false 1000 pins st.

Definition leave_limit_switch (x y z : bool) (pins : list Z) (st : state)
    : bool * state * list Z :=
  homing_cycle x y z true 10000 pins st.

(** [stepper_homing_cycle]: [None] when the call does not return, either
    because [stepper_synchronize] waits or because a phase does not end
    within the readings [pins]. *)
Definition stepper_homing_cycle (pins : list Z) (st : state) : option state :=
  match stepper_synchronize st with
  | None => None
  | Some st =>
      (* home the x and y axis *)
      let '(done, st, pins) := approach_limit_switch true true false pins st in
      if done then
        let '(done, st, _) := leave_limit_switch true true false pins st in
        if done then Some st else None
      else None
  end.

End Driver.

(** * Properties *)

(** ** Machine integers *)

Lemma u8_small (z : Z) : 0 <= z < 2 ^ 8 -> u8 z = z.
Proof. intros H. unfold u8. now apply Z.mod_small. Qed.

Lemma u16_small (z : Z) : 0 <= z < 2 ^ 16 -> u16 z = z.
Proof. intros H. unfold u16. now apply Z.mod_small. Qed.

Lemma u32_small (z : Z) : 0 <= z < 2 ^ 32 -> u32 z = z.
Proof. intros H. unfold u32. now apply Z.mod_small. Qed.


Lemma s32_small (z : Z) : - 2 ^ 31 <= z < 2 ^ 31 -> s32 z = z.
Proof.
  intros H. unfold s32.
  rewrite Z.mod_small by lia. lia.
Qed.

Lemma u8_testbit (z i : Z) :
  0 <= i < 8 -> Z.testbit (u8 z) i = Z.testbit z i.
Proof.
  intros H. unfold u8. now rewrite Z.mod_pow2_bits_low by lia.
Qed.

Lemma shiftl_1_testbit (i j : Z) :
  0 <= i -> 0 <= j -> Z.testbit (Z.shiftl 1 i) j = (i =? j).
Proof.
  intros Hi Hj. rewrite Z.shiftl_1_l.
  destruct (Z.eqb_spec i j) as [->|Hne].
  - now apply Z.pow2_bits_true.
  - apply Z.pow2_bits_false. congruence.
Qed.

(** ** Reading fields through updates *)

(** Reduces the field updates, and nothing of the arithmetic. *)
Ltac fields :=
  cbn beta iota zeta delta [
    STEPPING_DDR STEPPING_PORT TCCR1A TCCR1B TCCR2A TCCR2B TIMSK1
    TIMSK2 TCNT2 OCR1A block_buffer planner_position_update
    gcode_position_update laser_intensity air gas emitted
    stepper_position current_block out_bits counter_x counter_y
    counter_z step_events_completed busy cycles_per_step_event
    acceleration_tick_counter adjusted_rate processing_flag
    stop_requested stop_status regs ext set_STEPPING_DDR
    set_STEPPING_PORT set_TCCR1A set_TCCR1B set_TCCR2A set_TCCR2B
    set_TIMSK1 set_TIMSK2 set_TCNT2 set_OCR1A set_block_buffer
    set_planner_position_update set_gcode_position_update
    set_laser_intensity set_air set_gas set_emitted
    set_stepper_position set_current_block set_out_bits set_counter_x
    set_counter_y set_counter_z set_step_events_completed set_busy
    set_cycles_per_step_event set_acceleration_tick_counter
    set_adjusted_rate set_processing_flag set_stop_requested
    set_stop_status set_regs set_ext upd_regs upd_ext negb ].

Ltac fields_in H :=
  cbn beta iota zeta delta [
    STEPPING_DDR STEPPING_PORT TCCR1A TCCR1B TCCR2A TCCR2B TIMSK1
    TIMSK2 TCNT2 OCR1A block_buffer planner_position_update
    gcode_position_update laser_intensity air gas emitted
    stepper_position current_block out_bits counter_x counter_y
    counter_z step_events_completed busy cycles_per_step_event
    acceleration_tick_counter adjusted_rate processing_flag
    stop_requested stop_status regs ext set_STEPPING_DDR
    set_STEPPING_PORT set_TCCR1A set_TCCR1B set_TCCR2A set_TCCR2B
    set_TIMSK1 set_TIMSK2 set_TCNT2 set_OCR1A set_block_buffer
    set_planner_position_update set_gcode_position_update
    set_laser_intensity set_air set_gas set_emitted
    set_stepper_position set_current_block set_out_bits set_counter_x
    set_counter_y set_counter_z set_step_events_completed set_busy
    set_cycles_per_step_event set_acceleration_tick_counter
    set_adjusted_rate set_processing_flag set_stop_requested
    set_stop_status set_regs set_ext upd_regs upd_ext negb ] in H.

(** The same through the small operations of the driver. *)
Ltac driver_ops :=
  unfold planner_get_current_block, planner_discard_current_block,
    planner_reset_block_buffer, planner_request_position_update,
    gcode_request_position_update, control_laser_intensity, control_air,
    control_gas, stepper_go_idle, stepper_wake_up, stepper_request_stop,
    stepper_resume;
  fields.

Ltac splits := repeat match goal with |- _ /\ _ => split end.

(** ** The rate quantizer *)

(** A concrete build used by the closed examples: a 16 MHz part (the
    source's own "16000000/1000000 = 16"), 100 acceleration ticks per
    second, step bits 0..2, direction bits 3..5. *)
Definition sample_config : config :=
  {| F_CPU := 16000000;
     ACCELERATION_TICKS_PER_SECOND := 100;
     MINIMUM_STEPS_PER_MINUTE := 1200;
     CONFIG_PULSE_MICROSECONDS := 5;
     X_STEP_BIT := 0; Y_STEP_BIT := 1; Z_STEP_BIT := 2;
     X_DIRECTION_BIT := 3; Y_DIRECTION_BIT := 4; Z_DIRECTION_BIT := 5;
     STEPPING_MASK := 7; DIRECTION_MASK := 56; INVERT_MASK := 0;
     X1_LIMIT_BIT := 0; Y1_LIMIT_BIT := 2; LIMIT_MASK := 15;
     STATUS_OK := 0;
     STATUS_STOP_LIMIT_HIT := 1;
     STATUS_STOP_CHILLER_OFF := 2;
     STATUS_STOP_POWER_OFF := 3 |}.

Lemma config_step_timer_actual (cycles : Z) (st : state) :
  fst (config_step_timer cycles st) = actual_cycles (step_timer_setting cycles).
Proof. reflexivity. Qed.

Lemma config_step_timer_OCR1A (cycles : Z) (st : state) :
  OCR1A (regs (snd (config_step_timer cycles st)))
  = ceiling (step_timer_setting cycles).
Proof. reflexivity. Qed.

Ltac tier_cases cycles :=
  unfold step_timer_setting;
  repeat match goal with
  | |- context [cycles <=? ?c] => destruct (Z.leb_spec cycles c)
  end; try lia; cbn [ceiling prescaler actual_cycles].

Lemma tier_value (cycles k : Z) :
  0 <= cycles -> 0 <= k <= 10 -> cycles < 2 ^ (16 + k) ->
  u32 (s32 (u16 (Z.shiftr cycles k) * 2 ^ k)) = cycles / 2 ^ k * 2 ^ k.
Proof.
  intros H0 Hk Hc.
  rewrite Z.shiftr_div_pow2 by lia.
  assert (Hp : 0 < 2 ^ k) by (apply Z.pow_pos_nonneg; lia).
  assert (Hq : 0 <= cycles / 2 ^ k < 2 ^ 16).
  { split; [apply Z.div_pos; lia|].
    apply Z.div_lt_upper_bound; [lia|].
    rewrite <- Z.pow_add_r by lia. now rewrite Z.add_comm. }
  assert (Hm : cycles / 2 ^ k * 2 ^ k <= cycles)
    by (rewrite Z.mul_comm; apply Z.mul_div_le; lia).
  assert (Hb : cycles < 2 ^ 26).
  { eapply Z.lt_le_trans; [exact Hc|]. apply Z.pow_le_mono_r; lia. }
  rewrite u16_small by exact Hq.
  assert (0 <= cycles / 2 ^ k * 2 ^ k) by nia.
  rewrite s32_small by lia.
  apply u32_small. lia.
Qed.

(** Below the clamp, the quantizer returns the request rounded down to a
    multiple of the divisor of the tier it selects. *)
Lemma step_timer_setting_tiers (cycles : Z) :
  0 <= cycles <= 0x3ffffff ->
  let t := step_timer_setting cycles in
  let d := prescaler_divisor (prescaler t) in
  In d [1; 8; 64; 256; 1024] /\
  ceiling t = cycles / d /\
  actual_cycles t = cycles / d * d /\
  cycles - d < actual_cycles t <= cycles.
Proof.
  intros H.
  assert (R : forall k, 0 <= k <= 10 -> cycles < 2 ^ (16 + k) ->
     u16 (Z.shiftr cycles k) = cycles / 2 ^ k /\
     u32 (s32 (u16 (Z.shiftr cycles k) * 2 ^ k)) = cycles / 2 ^ k * 2 ^ k /\
     cycles - 2 ^ k < cycles / 2 ^ k * 2 ^ k <= cycles).
  { intros k Hk Hc.
    assert (Hp : 0 < 2 ^ k) by (apply Z.pow_pos_nonneg; lia).
    split; [|split].
    - rewrite Z.shiftr_div_pow2 by lia. apply u16_small.
      split; [apply Z.div_pos; lia|].
      apply Z.div_lt_upper_bound; [lia|].
      rewrite <- Z.pow_add_r by lia. now rewrite Z.add_comm.
    - apply tier_value; lia.
    - pose proof (Z.mul_div_le cycles (2 ^ k) Hp).
      pose proof (Z.mul_succ_div_gt cycles (2 ^ k) Hp). lia. }
  tier_cases cycles; cbv zeta.
  - change (prescaler_divisor 0) with 1.
    rewrite Z.div_1_r, Z.mul_1_r, u16_small, u32_small by lia.
    repeat split; try lia. simpl; auto.
  - destruct (R 3) as (R1 & R2 & R3); [lia|simpl; lia|].
    change (prescaler_divisor 1) with 8. change (2 ^ 3) with 8 in *.
    repeat split; try lia; simpl; auto.
  - destruct (R 6) as (R1 & R2 & R3); [lia|simpl; lia|].
    change (prescaler_divisor 2) with 64. change (2 ^ 6) with 64 in *.
    repeat split; try lia; simpl; auto.
  - destruct (R 8) as (R1 & R2 & R3); [lia|simpl; lia|].
    change (prescaler_divisor 3) with 256. change (2 ^ 8) with 256 in *.
    repeat split; try lia; simpl; auto 6.
  - destruct (R 10) as (R1 & R2 & R3); [lia|simpl; lia|].
    change (prescaler_divisor 4) with 1024. change (2 ^ 10) with 1024 in *.
    repeat split; try lia; simpl; auto 6.
Qed.

(** Whatever the request, the returned count is a multiple of the divisor
    of the selected tier, not above the request, and not above the longest
    period of Timer1.  (The slowest-speed branch is covered as well: what it
    returns is 63 * 1024.) *)
Lemma step_timer_setting_rounds_down (cycles : Z) :
  0 <= cycles < 2 ^ 32 ->
  let t := step_timer_setting cycles in
  let d := prescaler_divisor (prescaler t) in
  In d [1; 8; 64; 256; 1024] /\
  actual_cycles t mod d = 0 /\
  actual_cycles t <= cycles /\
  actual_cycles t <= 0xffff * 1024.
Proof.
  intros H. cbv zeta.
  destruct (Z.leb_spec cycles 0x3ffffff) as [Hle|Hgt].
  - destruct (step_timer_setting_tiers cycles) as (Hd & Hc & Ha & Hr); [lia|].
    cbv zeta in Hd, Hc, Ha, Hr.
    assert (Hpos :
      0 < prescaler_divisor (prescaler (step_timer_setting cycles)) <= 1024)
      by (cbn [In] in Hd; lia).
    assert (Hq : 0 <= cycles /
                  prescaler_divisor (prescaler (step_timer_setting cycles))
                 <= 0xffff).
    { rewrite <- Hc. unfold step_timer_setting.
      repeat match goal with
      | |- context [if ?c then _ else _] => destruct c
      end; cbn [ceiling]; unfold u16;
      match goal with
      | |- 0 <= ?a mod ?m <= _ =>
          pose proof (Z.mod_pos_bound a m eq_refl); lia
      end. }
    split; [exact Hd|]. split; [|split; [lia|]].
    + rewrite Ha. apply Z.mod_mul. lia.
    + rewrite Ha. nia.
  - unfold step_timer_setting.
    repeat match goal with
    | |- context [cycles <=? ?c] =>
        destruct (Z.leb_spec cycles c); [lia|]
    end.
    cbn [ceiling prescaler actual_cycles].
    change (prescaler_divisor 4) with 1024.
    change (u32 (u16 (65535 * 1024))) with 64512.
    split; [simpl; auto 6|]. split; [reflexivity|lia].
Qed.

(** A request of 70000 cycles takes the second tier (divisor 8). *)
Example step_timer_setting_70000 :
  let t := step_timer_setting 70000 in
  prescaler t = 1 /\ prescaler_divisor (prescaler t) = 8 /\
  actual_cycles t mod 8 = 0 /\
  69992 < actual_cycles t <= 70000.
Proof. vm_compute. repeat split; congruence. Qed.

(** The slowest-speed branch returns the same value for every request
    above 0x3ffffff. *)
Lemma step_timer_setting_slowest (cycles : Z) :
  0x3ffffff < cycles ->
  step_timer_setting cycles
  = {| ceiling := 0xffff; prescaler := 4; actual_cycles := 64512 |}.
Proof.
  intros H. unfold step_timer_setting.
  repeat match goal with
  | |- context [cycles <=? ?c] => destruct (Z.leb_spec cycles c); [lia|]
  end.
  reflexivity.
Qed.

(** Taken in [long], as the tiers above it do, the product of the
    slowest-speed branch would be the period it programs. *)
Remark slowest_speed_in_long :
  u32 (s32 (u16 0xffff * 1024)) = 0xffff * 1024 /\
  u32 (u16 (0xffff * 1024)) = 0xfc00.
Proof. split; reflexivity. Qed.

(** C3.  Slowest speed: for the request 0x4000000, the first above the
    last tier, [config_step_timer] programs the ceiling 0xffff with the
    divisor 1024, a period of 0xffff * 1024 = 67107840 cycles, but returns
    64512 = (0xffff * 1024) mod 2^16 as the actual cycle count: the product
    [0xffff * 1024] is taken in 16-bit [unsigned int], where the tiers
    above it multiply in [long] ([ceiling * 1024L]). *)
Theorem config_step_timer_slowest_speed_wraps (st : state) :
  let r := config_step_timer 0x4000000 st in
  fst r = 64512 /\
  OCR1A (regs (snd r)) = 0xffff /\
  prescaler_divisor (prescaler (step_timer_setting 0x4000000)) = 1024 /\
  fst r <> 0xffff * 1024.
Proof.
  cbv zeta. rewrite config_step_timer_actual, config_step_timer_OCR1A.
  rewrite step_timer_setting_slowest by lia.
  cbn [ceiling prescaler actual_cycles].
  repeat split; try reflexivity. lia.
Qed.

(** ** Power-on state *)

(** The state before [stepper_init]: C zero-initialises the statics, the
    planner's buffer is empty, the registers hold their reset value 0. *)
Definition power_on_state : state :=
  {| stepper_position := {| X_AXIS := 0; Y_AXIS := 0; Z_AXIS := 0 |};
     current_block := None;
     out_bits := 0;
     counter_x := 0; counter_y := 0; counter_z := 0;
     step_events_completed := 0;
     busy := false;
     cycles_per_step_event := 0;
     acceleration_tick_counter := 0;
     adjusted_rate := 0;
     processing_flag := false;
     stop_requested := false;
     stop_status := 0;
     regs := {| STEPPING_DDR := 0; STEPPING_PORT := 0; TCCR1A := 0;
                TCCR1B := 0; TCCR2A := 0; TCCR2B := 0; TIMSK1 := 0;
                TIMSK2 := 0; TCNT2 := 0; OCR1A := 0 |};
     ext := {| block_buffer := []; planner_position_update := false;
               gcode_position_update := false; laser_intensity := 0;
               air := false; gas := false; emitted := [] |} |}.

(** ** [adjust_speed] and the current block *)

Section AdjustSpeed.

Variable cfg : config.
Hypothesis min_rate_pos : 0 < MINIMUM_STEPS_PER_MINUTE cfg.

Lemma adjust_speed_no_block (rate : Z) (st : state) :
  current_block st = None -> adjust_speed cfg rate st = Fault NullBlock.
Proof.
  intros Hnull. unfold adjust_speed.
  destruct (rate <? MINIMUM_STEPS_PER_MINUTE cfg) eqn:Hlt.
  - destruct (Z.eqb_spec (MINIMUM_STEPS_PER_MINUTE cfg) 0); [lia|].
    cbn. now rewrite Hnull.
  - apply Z.ltb_ge in Hlt.
    destruct (Z.eqb_spec rate 0); [lia|].
    cbn. now rewrite Hnull.
Qed.

(** With a current block, [adjust_speed] stores the quantized period and
    the block's laser intensity, and touches nothing of the motion state. *)
Lemma adjust_speed_with_block (rate : Z) (st : state) (b : block) :
  current_block st = Some b ->
  exists st',
    adjust_speed cfg rate st = Ok st' /\
    laser_intensity (ext st') = u8 (nominal_laser_intensity b) /\
    current_block st' = Some b /\
    stepper_position st' = stepper_position st /\
    out_bits st' = out_bits st /\
    counter_x st' = counter_x st /\
    counter_y st' = counter_y st /\
    counter_z st' = counter_z st /\
    step_events_completed st' = step_events_completed st /\
    acceleration_tick_counter st' = acceleration_tick_counter st /\
    adjusted_rate st' = adjusted_rate st /\
    busy st' = busy st /\
    processing_flag st' = processing_flag st /\
    stop_requested st' = stop_requested st /\
    stop_status st' = stop_status st /\
    block_buffer (ext st') = block_buffer (ext st) /\
    emitted (ext st') = emitted (ext st).
Proof.
  intros Hb. unfold adjust_speed.
  destruct (rate <? MINIMUM_STEPS_PER_MINUTE cfg) eqn:Hlt.
  - destruct (Z.eqb_spec (MINIMUM_STEPS_PER_MINUTE cfg) 0); [lia|].
    cbn. rewrite Hb. eexists; split; [reflexivity|].
    cbn. repeat split; auto.
  - apply Z.ltb_ge in Hlt.
    destruct (Z.eqb_spec rate 0); [lia|].
    cbn. rewrite Hb. eexists; split; [reflexivity|].
    cbn. repeat split; auto.
Qed.

End AdjustSpeed.

(** C10.  [adjust_speed] reads [current_block->nominal_laser_intensity] on
    every call: it succeeds exactly when there is a current block.
    [stepper_init] calls it before any block has been fetched, so
    initialisation reads through the null block reference. *)
Theorem stepper_init_reads_null_block (cfg : config) :
  0 < MINIMUM_STEPS_PER_MINUTE cfg ->
  (forall rate st,
     current_block st = None -> adjust_speed cfg rate st = Fault NullBlock) /\
  (forall rate st b,
     current_block st = Some b -> exists st', adjust_speed cfg rate st = Ok st') /\
  (forall st, current_block st = None -> stepper_init cfg st = Fault NullBlock) /\
  stepper_init cfg power_on_state = Fault NullBlock.
Proof.
  intros Hmin.
  assert (Hinit : forall st, current_block st = None ->
                  stepper_init cfg st = Fault NullBlock).
  { intros st Hnull. unfold stepper_init.
    rewrite adjust_speed_no_block; [reflexivity|exact Hmin|exact Hnull]. }
  repeat split.
  - intros rate st. now apply adjust_speed_no_block.
  - intros rate st b Hb.
    destruct (adjust_speed_with_block cfg Hmin rate st b Hb) as (st' & H & _).
    now exists st'.
  - exact Hinit.
  - now apply Hinit.
Qed.

Lemma stepper_init_reads_null_block_witness :
  0 < MINIMUM_STEPS_PER_MINUTE sample_config /\
  stepper_init sample_config power_on_state = Fault NullBlock.
Proof.
  split; [reflexivity|].
  apply (stepper_init_reads_null_block sample_config). reflexivity.
Defined.

(** ** Stop requests *)

Lemma clear_bit_testbit (r i : Z) :
  0 <= i < 8 ->
  Z.testbit (u8 (Z.land r (Z.lnot (Z.shiftl 1 i)))) i = false.
Proof.
  intros Hi. rewrite u8_testbit by lia.
  rewrite Z.land_spec, Z.lnot_spec, shiftl_1_testbit by lia.
  rewrite Z.eqb_refl. apply andb_false_r.
Qed.

(** What [stepper_go_idle] leaves behind. *)
Lemma stepper_go_idle_spec (st : state) :
  let st' := stepper_go_idle st in
  processing_flag st' = false /\
  current_block st' = None /\
  Z.testbit (TIMSK1 (regs st')) AVR.OCIE1A = false /\
  laser_intensity (ext st') = 0.
Proof.
  driver_ops. repeat split. apply clear_bit_testbit. unfold AVR.OCIE1A. lia.
Qed.

(** With nothing queued and no block in progress, a run of the interrupt
    with the sensors clear goes idle. *)
Lemma ISR_nothing_queued (cfg : config) (st : state) :
  busy st = false ->
  stop_requested st = false ->
  current_block st = None ->
  block_buffer (ext st) = [] ->
  exists st',
    ISR cfg all_clear st = Ok st' /\
    processing_flag st' = false /\
    current_block st' = None /\
    stepper_position st' = stepper_position st /\
    block_buffer (ext st') = [] /\
    busy st' = false.
Proof.
  intros Hbusy Hstop Hcur Hbuf.
  unfold ISR. rewrite Hbusy.
  cbn [stop_requested set_busy]. rewrite Hstop.
  change (SENSE_ANY all_clear) with false. cbv iota.
  unfold pulse_steppers. driver_ops.
  rewrite Hcur, Hbuf. cbn [hd_error].
  eexists. split; [reflexivity|].
  driver_ops. splits; try reflexivity. exact Hbuf.
Qed.

(** C4.  A run of the step interrupt that finds [stop_requested] set goes
    idle at once: [processing_flag] false, no current block, Timer1
    interrupt disabled, laser off, planner queue empty, position updates
    requested; it emits no pulse, leaves position and tracer untouched, and
    does so whatever the sensors read and whatever block was in progress.
    [stepper_resume] afterwards changes [stop_requested] and nothing else:
    the queue stays empty and the driver idle, and when the driver is woken
    again it finds no block and goes back to idle without moving. *)
Theorem stop_request_goes_idle (cfg : config) (s : sense) (st : state) :
  busy st = false ->
  stop_requested st = true ->
  exists st',
    ISR cfg s st = Ok st' /\
    (forall s', ISR cfg s' st = Ok st') /\
    processing_flag st' = false /\
    current_block st' = None /\
    block_buffer (ext st') = [] /\
    Z.testbit (TIMSK1 (regs st')) AVR.OCIE1A = false /\
    laser_intensity (ext st') = 0 /\
    planner_position_update (ext st') = true /\
    gcode_position_update (ext st') = true /\
    emitted (ext st') = emitted (ext st) /\
    STEPPING_PORT (regs st') = STEPPING_PORT (regs st) /\
    stepper_position st' = stepper_position st /\
    step_events_completed st' = step_events_completed st /\
    busy st' = false /\
    stop_requested st' = true /\
    (* resume *)
    stepper_resume st' = set_stop_requested false st' /\
    stop_requested (stepper_resume st') = false /\
    processing_flag (stepper_resume st') = false /\
    current_block (stepper_resume st') = None /\
    block_buffer (ext (stepper_resume st')) = [] /\
    Z.testbit (TIMSK1 (regs (stepper_resume st'))) AVR.OCIE1A = false /\
    (* waking the driver up again finds nothing to do *)
    exists st'',
      ISR cfg all_clear (stepper_wake_up cfg (stepper_resume st')) = Ok st'' /\
      processing_flag st'' = false /\
      current_block st'' = None /\
      stepper_position st'' = stepper_position st.
Proof.
  intros Hbusy Hstop.
  unfold ISR at 1 2. rewrite Hbusy.
  cbn [stop_requested set_busy]. rewrite Hstop.
  eexists. split; [reflexivity|].
  split; [reflexivity|].
  match goal with
  | |- context [ISR cfg all_clear ?w] =>
      destruct (ISR_nothing_queued cfg w) as (st'' & HI & Hp & Hc & Hpos & _);
      [driver_ops; reflexivity ..|]
  end.
  splits; [..|exists st''; splits; [exact HI|exact Hp|exact Hc|]].
  all: try rewrite Hpos; driver_ops; try reflexivity; try assumption.
  all: apply clear_bit_testbit; unfold AVR.OCIE1A; lia.
Qed.

Definition stopped_example : state :=
  set_stop_requested true
    (set_processing_flag true
       (upd_ext (set_block_buffer
          [ {| type := TYPE_AIR_ENABLE; steps_x := 0; steps_y := 0;
               steps_z := 0; direction_bits := 0; step_event_count := 0;
               nominal_rate := 0; initial_rate := 0; final_rate := 0;
               rate_delta := 0; accelerate_until := 0; decelerate_after := 0;
               nominal_laser_intensity := 0 |} ])
          power_on_state)).

Lemma stop_request_goes_idle_witness :
  exists st',
    ISR sample_config all_clear stopped_example = Ok st' /\
    block_buffer (ext st') = [].
Proof.
  destruct (stop_request_goes_idle sample_config all_clear stopped_example
              eq_refl eq_refl) as (st' & H & _ & _ & _ & Hq & _).
  exists st'. split; assumption.
Defined.

(** ** Safety sensors *)

Lemma set_busy_restore (st : state) :
  busy st = false -> set_busy false (set_busy true st) = st.
Proof. destruct st; cbn; intros ->; reflexivity. Qed.

(** C5.  A run of the step interrupt with any sensor active emits no pulse
    and advances nothing: outputs, position, tracer counters, step count and
    rate are as before.  When the run gets as far as the sensor check (not
    re-entered, no stop pending), a limit hit, else a chiller loss, else a
    power loss, requests a stop with that cause and changes nothing else;
    with only the door open the whole state is unchanged, so the next run
    with the sensors clear proceeds exactly as this one would have. *)
Theorem sense_active_suspends (cfg : config) (s : sense) (st : state) :
  SENSE_ANY s = true ->
  exists st',
    ISR cfg s st = Ok st' /\
    emitted (ext st') = emitted (ext st) /\
    STEPPING_PORT (regs st') = STEPPING_PORT (regs st) /\
    TCCR2B (regs st') = TCCR2B (regs st) /\
    stepper_position st' = stepper_position st /\
    out_bits st' = out_bits st /\
    counter_x st' = counter_x st /\
    counter_y st' = counter_y st /\
    counter_z st' = counter_z st /\
    step_events_completed st' = step_events_completed st /\
    adjusted_rate st' = adjusted_rate st /\
    acceleration_tick_counter st' = acceleration_tick_counter st /\
    (busy st = false -> stop_requested st = false ->
       current_block st' = current_block st /\
       block_buffer (ext st') = block_buffer (ext st) /\
       processing_flag st' = processing_flag st /\
       (SENSE_LIMITS s = true ->
          st' = stepper_request_stop (STATUS_STOP_LIMIT_HIT cfg) st /\
          stop_requested st' = true /\
          stop_status st' = u8 (STATUS_STOP_LIMIT_HIT cfg)) /\
       (SENSE_LIMITS s = false -> SENSE_CHILLER_OFF s = true ->
          st' = stepper_request_stop (STATUS_STOP_CHILLER_OFF cfg) st /\
          stop_requested st' = true /\
          stop_status st' = u8 (STATUS_STOP_CHILLER_OFF cfg)) /\
       (SENSE_LIMITS s = false -> SENSE_CHILLER_OFF s = false ->
        SENSE_POWER_OFF s = true ->
          st' = stepper_request_stop (STATUS_STOP_POWER_OFF cfg) st /\
          stop_requested st' = true /\
          stop_status st' = u8 (STATUS_STOP_POWER_OFF cfg)) /\
       (SENSE_LIMITS s = false -> SENSE_CHILLER_OFF s = false ->
        SENSE_POWER_OFF s = false ->
          st' = st /\
          stop_requested st' = false /\
          forall s', ISR cfg s' st' = ISR cfg s' st)).
Proof.
  intros Hany. unfold ISR at 1.
  destruct (busy st) eqn:Hbusy.
  { exists st. split; [reflexivity|]. splits; try reflexivity.
    discriminate. }
  cbn [stop_requested set_busy].
  destruct (stop_requested st) eqn:Hstop.
  { eexists. split; [reflexivity|]. driver_ops. splits; try reflexivity.
    discriminate. }
  rewrite Hany.
  eexists. split; [reflexivity|].
  assert (Hsame : forall c, set_busy false
            (stepper_request_stop c (set_busy true st))
            = stepper_request_stop c st).
  { intros c. destruct st; cbn in *; subst; reflexivity. }
  unfold sense_stop.
  destruct (SENSE_LIMITS s); [|destruct (SENSE_CHILLER_OFF s);
                                [|destruct (SENSE_POWER_OFF s)]].
  1-3: rewrite Hsame; driver_ops; splits; try reflexivity; intros _ _;
       splits; try reflexivity; intros; try discriminate;
       splits; reflexivity.
  rewrite set_busy_restore by exact Hbusy.
  splits; try reflexivity. intros _ _.
  splits; try reflexivity; intros; try discriminate.
  splits; try reflexivity. exact Hstop.
Qed.

Lemma sense_active_suspends_witness :
  exists st',
    ISR sample_config
      {| SENSE_LIMITS := true; SENSE_CHILLER_OFF := false;
         SENSE_POWER_OFF := false; SENSE_DOOR_OPEN := false |}
      power_on_state = Ok st' /\
    stop_requested st' = true.
Proof.
  destruct (sense_active_suspends sample_config
              {| SENSE_LIMITS := true; SENSE_CHILLER_OFF := false;
                 SENSE_POWER_OFF := false; SENSE_DOOR_OPEN := false |}
              power_on_state eq_refl)
    as (st' & H & _ & _ & _ & _ & _ & _ & _ & _ & _ & _ & _ & Hrest).
  destruct (Hrest eq_refl eq_refl) as (_ & _ & _ & Hlim & _).
  destruct (Hlim eq_refl) as (_ & Hreq & _).
  exists st'. split; assumption.
Defined.

(** ** The homing cycle *)

Definition homing_bits (e : output_event) : Z :=
  match e with
  | HomingPulse bits _ _ => bits
  | StepPulse _ => 0
  end.

(** Time from one homing pulse to the next: the two delays of the loop
    body, in microseconds. *)
Definition pulse_period (e : output_event) : Z :=
  match e with
  | HomingPulse _ high_us low_us => high_us + low_us
  | StepPulse _ => 0
  end.

(** The events emitted between two states, newest first. *)
Definition new_events (before after : state) : list output_event :=
  firstn (length (emitted (ext after)) - length (emitted (ext before)))
         (emitted (ext after)).

Lemma new_events_app (before after : state) (new : list output_event) :
  emitted (ext after) = new ++ emitted (ext before) ->
  new_events before after = new.
Proof.
  intros H. unfold new_events. rewrite H, length_app.
  replace (length new + length (emitted (ext before))
           - length (emitted (ext before)))%nat with (length new + 0)%nat by lia.
  rewrite firstn_app_2. cbn. apply app_nil_r.
Qed.

(** Readings of [LIMIT_PIN] for a complete homing of X and Y on
    [sample_config]: two free readings, then the switches closed (bits low)
    until the approach ends, still closed for two readings of the leave
    phase, then open. *)
Definition example_pins : list Z :=
  [15; 15; 0; 0; 0; 0; 0; 0; 0;
   0; 0; 15; 15; 15; 15; 15; 15; 15].

Section Homing.

Variable cfg : config.

(** The frames of the turns of the loop that pulse, in order. *)
Fixpoint loop_frames (reverse_direction : bool) (pins : list Z)
    (f : homing_frame) : list homing_frame :=
  match pins with
  | [] => []
  | pin :: pins' =>
      let f' := check_limits cfg (read_limit_bits cfg reverse_direction pin) f in
      if x_axis f' || y_axis f' || z_axis f'
      then f' :: loop_frames reverse_direction pins' f'
      else []
  end.

Definition frame_pulse (step_delay : Z) (f : homing_frame) : output_event :=
  HomingPulse (Z.land (h_out_bits f) (STEPPING_MASK cfg))
    (CONFIG_PULSE_MICROSECONDS cfg) step_delay.

Lemma homing_pulse_fields (d : Z) (f : homing_frame) (st : state) :
  emitted (ext (homing_pulse cfg d f st)) = frame_pulse d f :: emitted (ext st)
  /\ stepper_position (homing_pulse cfg d f st) = stepper_position st.
Proof. split; reflexivity. Qed.

(** The loop emits one pulse per frame and leaves the position alone. *)
Lemma homing_loop_emitted (reverse_direction : bool) (d : Z) (pins : list Z) :
  forall f st done f' st' rest,
    homing_loop cfg reverse_direction d pins f st = (done, f', st', rest) ->
    emitted (ext st')
    = rev (map (frame_pulse d) (loop_frames reverse_direction pins f))
      ++ emitted (ext st)
    /\ stepper_position st' = stepper_position st.
Proof.
  induction pins as [|pin pins IH]; intros f st done f' st' rest H.
  - cbn in H. inversion H; subst. split; reflexivity.
  - cbn [homing_loop loop_frames] in *. unfold homing_iteration in H.
    cbv zeta in *.
    destruct (x_axis _ || y_axis _ || z_axis _).
    + apply IH in H. destruct H as [He Hp].
      destruct (homing_pulse_fields d
        (check_limits cfg (read_limit_bits cfg reverse_direction pin) f) st)
        as [He' Hp'].
      rewrite He, He', Hp, Hp'. split; [|reflexivity].
      cbn [map rev]. now rewrite <- app_assoc.
    + inversion H; subst. split; reflexivity.
Qed.

(** [homing_cycle] emits homing pulses only, all with the delays fixed at
    its entry, and clears the whole position vector when it returns. *)
Lemma homing_cycle_spec (x y z reverse_direction : bool) (mpp : Z)
    (pins : list Z) (st : state) (done : bool) (st' : state) (rest : list Z) :
  homing_cycle cfg x y z reverse_direction mpp pins st = (done, st', rest) ->
  let d := u32 (mpp - CONFIG_PULSE_MICROSECONDS cfg) in
  emitted (ext st')
  = rev (map (frame_pulse d)
           (loop_frames reverse_direction pins
              (homing_entry cfg x y z reverse_direction)))
    ++ emitted (ext st)
  /\ stepper_position st'
     = if done then {| X_AXIS := 0; Y_AXIS := 0; Z_AXIS := 0 |}
       else stepper_position st.
Proof.
  unfold homing_cycle. cbv zeta.
  destruct (homing_loop cfg reverse_direction _ pins _ _)
    as [[[done0 f0] st0] rest0] eqn:Hloop.
  apply homing_loop_emitted in Hloop. destruct Hloop as [He Hp].
  destruct done0; intros H; inversion H; subst; split.
  - exact He.
  - reflexivity.
  - exact He.
  - exact Hp.
Qed.

Lemma homing_cycle_periods (x y z reverse_direction : bool) (mpp : Z)
    (pins : list Z) (st : state) (done : bool) (st' : state) (rest : list Z) :
  homing_cycle cfg x y z reverse_direction mpp pins st = (done, st', rest) ->
  forall e, In e (new_events st st') ->
    pulse_period e
    = CONFIG_PULSE_MICROSECONDS cfg
      + u32 (mpp - CONFIG_PULSE_MICROSECONDS cfg).
Proof.
  intros H e He. apply homing_cycle_spec in H. destruct H as [Hlog _].
  rewrite (new_events_app _ _ _ Hlog) in He.
  rewrite <- in_rev in He.
  apply in_map_iff in He. destruct He as (f & <- & _). reflexivity.
Qed.

End Homing.

(** The claim of C6 as it reads: every pulse of the leave phase has a
    shorter period than every pulse of the approach phase. *)
Definition leave_faster_than_approach (cfg : config) (pins : list Z)
    (st : state) : Prop :=
  let '(_, st1, rest) := approach_limit_switch cfg true true false pins st in
  let '(_, st2, _) := leave_limit_switch cfg true true false rest st1 in
  forall e1 e2,
    In e1 (new_events st st1) -> In e2 (new_events st1 st2) ->
    pulse_period e2 < pulse_period e1.

(** On [sample_config] the approach pulses every 1000 us and the leave
    every 10000 us. *)
Lemma leave_not_faster_than_approach :
  ~ leave_faster_than_approach sample_config example_pins power_on_state.
Proof.
  unfold leave_faster_than_approach.
  destruct (approach_limit_switch sample_config true true false example_pins
              power_on_state) as [[d1 st1] rest] eqn:Ha.
  destruct (leave_limit_switch sample_config true true false rest st1)
    as [[d2 st2] rest2] eqn:Hl.
  intros H.
  vm_compute in Ha. inversion Ha; subst; clear Ha.
  vm_compute in Hl. inversion Hl; subst; clear Hl.
  specialize (H (HomingPulse 3 5 995) (HomingPulse 3 5 9995)).
  vm_compute in H.
  assert (Hlt : (10000 ?= 1000) = Lt) by (apply H; auto).
  discriminate Hlt.
Qed.

(** C6 (amended).  With a pulse width of at most 1000 us, every pulse of
    the approach phase has a period of 1000 us and every pulse of the leave
    phase a period of 10000 us: phase 2 steps ten times slower than phase 1,
    not faster. *)
Theorem leave_slower_than_approach (cfg : config) (x y z : bool)
    (pins : list Z) (st : state) :
  0 <= CONFIG_PULSE_MICROSECONDS cfg <= 1000 ->
  let '(_, st1, rest) := approach_limit_switch cfg x y z pins st in
  let '(_, st2, _) := leave_limit_switch cfg x y z rest st1 in
  forall e1 e2,
    In e1 (new_events st st1) -> In e2 (new_events st1 st2) ->
    pulse_period e1 = 1000 /\ pulse_period e2 = 10000 /\
    pulse_period e1 < pulse_period e2.
Proof.
  intros HP.
  destruct (approach_limit_switch cfg x y z pins st) as [[d1 st1] rest] eqn:Ha.
  destruct (leave_limit_switch cfg x y z rest st1) as [[d2 st2] rest2] eqn:Hl.
  intros e1 e2 H1 H2.
  unfold approach_limit_switch in Ha. unfold leave_limit_switch in Hl.
  rewrite (homing_cycle_periods cfg _ _ _ _ _ _ _ _ _ _ Ha e1 H1).
  rewrite (homing_cycle_periods cfg _ _ _ _ _ _ _ _ _ _ Hl e2 H2).
  rewrite !u32_small by lia. lia.
Qed.

Lemma leave_slower_than_approach_witness :
  pulse_period (HomingPulse 3 5 995) < pulse_period (HomingPulse 3 5 9995).
Proof.
  pose proof (leave_slower_than_approach sample_config true true false
                example_pins power_on_state) as H.
  assert (HP : 0 <= CONFIG_PULSE_MICROSECONDS sample_config <= 1000)
    by (cbn; lia).
  specialize (H HP).
  destruct (approach_limit_switch sample_config true true false example_pins
              power_on_state) as [[d1 st1] rest] eqn:Ha.
  destruct (leave_limit_switch sample_config true true false rest st1)
    as [[d2 st2] rest2] eqn:Hl.
  vm_compute in Ha. inversion Ha; subst; clear Ha.
  vm_compute in Hl. inversion Hl; subst; clear Hl.
  apply (H (HomingPulse 3 5 995) (HomingPulse 3 5 9995)).
  - vm_compute. auto.
  - vm_compute. auto.
Defined.

(** The claim of C9 as it reads: [stepper_homing_cycle] homes X and Y only
    and leaves the Z position as it was. *)
Definition homing_keeps_Z (cfg : config) (pins : list Z) (st : state) : Prop :=
  forall st',
    stepper_homing_cycle cfg pins st = Some st' ->
    Z_AXIS (stepper_position st') = Z_AXIS (stepper_position st).

(** The driver at rest, 5 steps up the Z axis. *)
Definition raised_state : state :=
  set_stepper_position {| X_AXIS := 0; Y_AXIS := 0; Z_AXIS := 5 |}
    power_on_state.

(** From [raised_state] the homing cycle returns with Z at 0, not at 5. *)
Lemma homing_resets_Z_example :
  ~ homing_keeps_Z sample_config example_pins raised_state.
Proof.
  unfold homing_keeps_Z. intros H.
  destruct (stepper_homing_cycle sample_config example_pins raised_state)
    as [st'|] eqn:Hh; vm_compute in Hh; [|discriminate Hh].
  specialize (H st').
  inversion Hh; subst; clear Hh.
  specialize (H eq_refl). vm_compute in H. discriminate H.
Qed.

(** C9 (amended).  When [stepper_homing_cycle] returns, the position is
    zero on all three axes, Z included, though only X and Y were homed; and
    any [homing_cycle] that returns clears all three axes, whichever axes
    it was asked to home. *)
Theorem homing_clears_all_axes (cfg : config) (pins : list Z) (st st' : state) :
  stepper_homing_cycle cfg pins st = Some st' ->
  stepper_position st' = {| X_AXIS := 0; Y_AXIS := 0; Z_AXIS := 0 |} /\
  Z_AXIS (stepper_position st') = 0 /\
  (forall x y z reverse_direction mpp pins0 st0 st1 rest,
     homing_cycle cfg x y z reverse_direction mpp pins0 st0 = (true, st1, rest) ->
     stepper_position st1 = {| X_AXIS := 0; Y_AXIS := 0; Z_AXIS := 0 |}).
Proof.
  intros H.
  assert (Hgen : forall x y z reverse_direction mpp pins0 st0 st1 rest,
     homing_cycle cfg x y z reverse_direction mpp pins0 st0 = (true, st1, rest) ->
     stepper_position st1 = {| X_AXIS := 0; Y_AXIS := 0; Z_AXIS := 0 |}).
  { intros x y z r mpp pins0 st0 st1 rest H0.
    apply homing_cycle_spec in H0. apply H0. }
  unfold stepper_homing_cycle in H.
  destruct (stepper_synchronize st) as [st0|]; [|discriminate H].
  destruct (approach_limit_switch cfg true true false pins st0)
    as [[d1 st1] rest1] eqn:Ha.
  destruct d1; [|discriminate H].
  destruct (leave_limit_switch cfg true true false rest1 st1)
    as [[d2 st2] rest2] eqn:Hl.
  destruct d2; [|discriminate H].
  inversion H; subst; clear H.
  unfold leave_limit_switch in Hl. apply Hgen in Hl.
  rewrite Hl. splits; [reflexivity|reflexivity|exact Hgen].
Qed.

Lemma homing_clears_all_axes_witness :
  exists st',
    stepper_homing_cycle sample_config example_pins raised_state = Some st' /\
    Z_AXIS (stepper_position raised_state) = 5 /\
    Z_AXIS (stepper_position st') = 0.
Proof.
  destruct (stepper_homing_cycle sample_config example_pins raised_state)
    as [st'|] eqn:Hh.
  - exists st'. split; [reflexivity|]. split; [reflexivity|].
    apply (homing_clears_all_axes sample_config example_pins raised_state st').
    exact Hh.
  - vm_compute in Hh. discriminate Hh.
Defined.

(** ** Overshoot of the homing cycle *)

(** What the homing loop assumes of the pin assignment: the X, Y and Z step
    bits are distinct bits of the 8-bit port, X and Y belong to
    [STEPPING_MASK] and not to [DIRECTION_MASK], and the step outputs are
    not inverted. *)
Record homing_pins_ok (cfg : config) : Prop := {
  x_step_range : 0 <= X_STEP_BIT cfg < 8;
  y_step_range : 0 <= Y_STEP_BIT cfg < 8;
  z_step_range : 0 <= Z_STEP_BIT cfg;
  xy_distinct : X_STEP_BIT cfg <> Y_STEP_BIT cfg;
  xz_distinct : X_STEP_BIT cfg <> Z_STEP_BIT cfg;
  yz_distinct : Y_STEP_BIT cfg <> Z_STEP_BIT cfg;
  x_in_stepping : Z.testbit (STEPPING_MASK cfg) (X_STEP_BIT cfg) = true;
  y_in_stepping : Z.testbit (STEPPING_MASK cfg) (Y_STEP_BIT cfg) = true;
  x_not_direction : Z.testbit (DIRECTION_MASK cfg) (X_STEP_BIT cfg) = false;
  y_not_direction : Z.testbit (DIRECTION_MASK cfg) (Y_STEP_BIT cfg) = false;
  x_not_inverted : Z.testbit (INVERT_MASK cfg) (X_STEP_BIT cfg) = false;
  y_not_inverted : Z.testbit (INVERT_MASK cfg) (Y_STEP_BIT cfg) = false
}.

Lemma sample_config_homing_pins_ok : homing_pins_ok sample_config.
Proof. constructor; cbn; try lia; reflexivity. Qed.

Section Overshoot.

Variable cfg : config.
Hypothesis pins_ok : homing_pins_ok cfg.

(** The stop condition of an axis at the reading [pin]: its limit bit reads
    0 in [limit_bits].  In the approach phase that is the switch asserted;
    in the leave phase [limit_bits] is the inverted reading. *)
Definition x_limit_reached (reverse_direction : bool) (pin : Z) : bool :=
  Z.land (read_limit_bits cfg reverse_direction pin)
         (Z.shiftl 1 (X1_LIMIT_BIT cfg)) =? 0.

Definition y_limit_reached (reverse_direction : bool) (pin : Z) : bool :=
  Z.land (read_limit_bits cfg reverse_direction pin)
         (Z.shiftl 1 (Y1_LIMIT_BIT cfg)) =? 0.

(** An axis is pulsed by an event when its step bit is among the bits
    raised. *)
Definition x_pulsed (e : output_event) : bool :=
  Z.testbit (homing_bits e) (X_STEP_BIT cfg).

Definition y_pulsed (e : output_event) : bool :=
  Z.testbit (homing_bits e) (Y_STEP_BIT cfg).

(** The step bit of the local [out_bits] follows the axis flag. *)
Definition x_sync (f : homing_frame) : Prop :=
  Z.testbit (h_out_bits f) (X_STEP_BIT cfg) = x_axis f.

Definition y_sync (f : homing_frame) : Prop :=
  Z.testbit (h_out_bits f) (Y_STEP_BIT cfg) = y_axis f.

Ltac step_bits :=
  pose proof (x_step_range cfg pins_ok);
  pose proof (y_step_range cfg pins_ok);
  pose proof (z_step_range cfg pins_ok);
  pose proof (xy_distinct cfg pins_ok);
  pose proof (xz_distinct cfg pins_ok);
  pose proof (yz_distinct cfg pins_ok).

Ltac bit_goal :=
  repeat first
    [ rewrite u8_testbit by lia
    | rewrite Z.lxor_spec
    | rewrite Z.lor_spec
    | rewrite Z.land_spec
    | rewrite shiftl_1_testbit by lia
    | rewrite Z.eqb_refl ];
  repeat match goal with
  | |- context [?a =? ?b] => destruct (Z.eqb_spec a b); [lia|]
  end.

Lemma homing_entry_sync (x y z reverse_direction : bool) :
  let f := homing_entry cfg x y z reverse_direction in
  x_sync f /\ y_sync f /\ x_axis f = x /\ y_axis f = y /\
  x_overshoot_count f = 6 /\ y_overshoot_count f = 6.
Proof.
  step_bits.
  pose proof (x_not_direction cfg pins_ok) as Hxd.
  pose proof (y_not_direction cfg pins_ok) as Hyd.
  pose proof (x_not_inverted cfg pins_ok) as Hxi.
  pose proof (y_not_inverted cfg pins_ok) as Hyi.
  unfold homing_entry, x_sync, y_sync. cbv zeta.
  cbn [x_axis y_axis h_out_bits x_overshoot_count y_overshoot_count].
  splits; try reflexivity.
  - destruct x, y, z, reverse_direction; bit_goal;
      rewrite ?Hxd, ?Hxi; reflexivity.
  - destruct x, y, z, reverse_direction; bit_goal;
      rewrite ?Hyd, ?Hyi; reflexivity.
Qed.

Lemma check_limits_x (lb : Z) (f : homing_frame) :
  x_sync f -> 0 <= x_overshoot_count f < 256 ->
  let f' := check_limits cfg lb f in
  let hit := Z.land lb (Z.shiftl 1 (X1_LIMIT_BIT cfg)) =? 0 in
  x_sync f' /\
  (x_axis f = false ->
     x_axis f' = false /\ x_overshoot_count f' = x_overshoot_count f) /\
  (x_axis f = true -> hit = false ->
     x_axis f' = true /\ x_overshoot_count f' = x_overshoot_count f) /\
  (x_axis f = true -> hit = true -> x_overshoot_count f = 0 ->
     x_axis f' = false) /\
  (x_axis f = true -> hit = true -> 0 < x_overshoot_count f ->
     x_axis f' = true /\ x_overshoot_count f' = x_overshoot_count f - 1).
Proof.
  intros Hs Hc. step_bits. unfold x_sync in *. cbv zeta. unfold check_limits.
  destruct (x_axis f) eqn:Hx;
  destruct (Z.land lb (Z.shiftl 1 (X1_LIMIT_BIT cfg)) =? 0) eqn:Hhit;
  destruct (Z.eqb_spec (x_overshoot_count f) 0) as [Hz|Hnz];
  cbn [andb x_axis y_axis z_axis h_out_bits x_overshoot_count
       y_overshoot_count];
  destruct (y_axis f);
  destruct (Z.land lb (Z.shiftl 1 (Y1_LIMIT_BIT cfg)) =? 0);
  destruct (y_overshoot_count f =? 0);
  cbn [andb x_axis y_axis z_axis h_out_bits x_overshoot_count
       y_overshoot_count];
  rewrite ?Hx;
  splits; try (intros; discriminate); try (intros; lia);
  try (intros; split; reflexivity); try (intros; reflexivity);
  try (bit_goal; rewrite ?Hs; reflexivity);
  try (intros; split; [reflexivity|apply u8_small; lia]).
Qed.

Lemma check_limits_y (lb : Z) (f : homing_frame) :
  y_sync f -> 0 <= y_overshoot_count f < 256 ->
  let f' := check_limits cfg lb f in
  let hit := Z.land lb (Z.shiftl 1 (Y1_LIMIT_BIT cfg)) =? 0 in
  y_sync f' /\
  (y_axis f = false ->
     y_axis f' = false /\ y_overshoot_count f' = y_overshoot_count f) /\
  (y_axis f = true -> hit = false ->
     y_axis f' = true /\ y_overshoot_count f' = y_overshoot_count f) /\
  (y_axis f = true -> hit = true -> y_overshoot_count f = 0 ->
     y_axis f' = false) /\
  (y_axis f = true -> hit = true -> 0 < y_overshoot_count f ->
     y_axis f' = true /\ y_overshoot_count f' = y_overshoot_count f - 1).
Proof.
  intros Hs Hc. step_bits. unfold y_sync in *. cbv zeta. unfold check_limits.
  destruct (x_axis f);
  destruct (Z.land lb (Z.shiftl 1 (X1_LIMIT_BIT cfg)) =? 0);
  destruct (x_overshoot_count f =? 0);
  cbn [andb x_axis y_axis z_axis h_out_bits x_overshoot_count
       y_overshoot_count];
  destruct (y_axis f) eqn:Hy;
  destruct (Z.land lb (Z.shiftl 1 (Y1_LIMIT_BIT cfg)) =? 0) eqn:Hhit;
  destruct (Z.eqb_spec (y_overshoot_count f) 0) as [Hz|Hnz];
  cbn [andb x_axis y_axis z_axis h_out_bits x_overshoot_count
       y_overshoot_count];
  splits; intros; rewrite ?Hy; try discriminate; try lia; try reflexivity;
  try (split; [reflexivity|first [reflexivity|apply u8_small; lia]]);
  try (bit_goal; rewrite ?Hs; reflexivity).
Qed.

Lemma check_limits_x_count (lb : Z) (f : homing_frame) :
  0 <= x_overshoot_count f < 256 ->
  0 <= x_overshoot_count (check_limits cfg lb f) <= x_overshoot_count f.
Proof.
  intros Hx. unfold check_limits.
  destruct (x_axis f && _);
    [destruct (Z.eqb_spec (x_overshoot_count f) 0)|];
  cbn [x_axis y_axis h_out_bits x_overshoot_count y_overshoot_count];
  (destruct (y_axis f && _); [destruct (y_overshoot_count f =? 0)|]);
  cbn [x_axis y_axis h_out_bits x_overshoot_count y_overshoot_count];
  rewrite ?u8_small by lia; lia.
Qed.

Lemma check_limits_y_count (lb : Z) (f : homing_frame) :
  0 <= y_overshoot_count f < 256 ->
  0 <= y_overshoot_count (check_limits cfg lb f) <= y_overshoot_count f.
Proof.
  intros Hy. unfold check_limits.
  destruct (x_axis f && _); [destruct (x_overshoot_count f =? 0)|];
  cbn [x_axis y_axis h_out_bits x_overshoot_count y_overshoot_count];
  (destruct (y_axis f && _);
    [destruct (Z.eqb_spec (y_overshoot_count f) 0)|]);
  cbn [x_axis y_axis h_out_bits x_overshoot_count y_overshoot_count];
  rewrite ?u8_small by lia; lia.
Qed.

(** Once an axis is off it is never pulsed again. *)
Lemma loop_frames_x_off (reverse_direction : bool) (pins : list Z) :
  forall f,
    x_sync f -> 0 <= x_overshoot_count f < 256 -> x_axis f = false ->
    Forall (fun f' => Z.testbit (h_out_bits f') (X_STEP_BIT cfg) = false)
           (loop_frames cfg reverse_direction pins f).
Proof.
  induction pins as [|pin pins IH]; intros f Hs Hc Hx; cbn [loop_frames].
  - constructor.
  - cbv zeta.
    destruct (check_limits_x (read_limit_bits cfg reverse_direction pin) f Hs Hc)
      as (Hs' & Hoff & _).
    destruct (Hoff Hx) as [Hx' Hc'].
    destruct (x_axis _ || y_axis _ || z_axis _); constructor.
    + unfold x_sync in Hs'. now rewrite Hs'.
    + apply IH; [exact Hs'|rewrite Hc'; exact Hc|exact Hx'].
Qed.

Lemma loop_frames_y_off (reverse_direction : bool) (pins : list Z) :
  forall f,
    y_sync f -> 0 <= y_overshoot_count f < 256 -> y_axis f = false ->
    Forall (fun f' => Z.testbit (h_out_bits f') (Y_STEP_BIT cfg) = false)
           (loop_frames cfg reverse_direction pins f).
Proof.
  induction pins as [|pin pins IH]; intros f Hs Hc Hy; cbn [loop_frames].
  - constructor.
  - cbv zeta.
    destruct (check_limits_y (read_limit_bits cfg reverse_direction pin) f Hs Hc)
      as (Hs' & Hoff & _).
    destruct (Hoff Hy) as [Hy' Hc'].
    destruct (x_axis _ || y_axis _ || z_axis _); constructor.
    + unfold y_sync in Hs'. now rewrite Hs'.
    + apply IH; [exact Hs'|rewrite Hc'; exact Hc|exact Hy'].
Qed.

(** An axis with [n] overshoot pulses left whose stop condition holds at
    the next [n+1] readings is pulsed in exactly the next [n] turns. *)
Lemma loop_frames_x_overshoot (reverse_direction : bool) (n : nat) :
  forall pins f,
    x_sync f -> x_axis f = true ->
    x_overshoot_count f = Z.of_nat n -> (n < 256)%nat ->
    (n < length pins)%nat ->
    Forall (fun pin => x_limit_reached reverse_direction pin = true)
           (firstn (S n) pins) ->
    exists fs1 fs2,
      loop_frames cfg reverse_direction pins f = fs1 ++ fs2 /\
      length fs1 = n /\
      Forall (fun f' => Z.testbit (h_out_bits f') (X_STEP_BIT cfg) = true) fs1 /\
      Forall (fun f' => Z.testbit (h_out_bits f') (X_STEP_BIT cfg) = false) fs2.
Proof.
  induction n as [|n IH]; intros pins f Hs Hx Hc Hn Hlen Hhit;
    (destruct pins as [|pin pins]; [cbn in Hlen; lia|]);
    cbn [firstn] in Hhit; inversion Hhit as [|? ? Hpin Hrest]; subst;
    unfold x_limit_reached in Hpin;
    destruct (check_limits_x (read_limit_bits cfg reverse_direction pin) f Hs
                ltac:(lia)) as (Hs' & _ & _ & Hstop & Hgo);
    cbv zeta in Hstop, Hgo.
  - exists [], (loop_frames cfg reverse_direction (pin :: pins) f).
    splits; [reflexivity|reflexivity|constructor|].
    specialize (Hstop Hx Hpin Hc).
    cbn [loop_frames]. cbv zeta.
    destruct (x_axis _ || y_axis _ || z_axis _); constructor.
    + unfold x_sync in Hs'. now rewrite Hs'.
    + apply loop_frames_x_off; [exact Hs'| |exact Hstop].
      pose proof (check_limits_x_count
                    (read_limit_bits cfg reverse_direction pin) f ltac:(lia)).
      lia.
  - destruct (Hgo Hx Hpin ltac:(lia)) as [Hx' Hc'].
    cbn [loop_frames]. cbv zeta. rewrite Hx'. cbn [orb].
    destruct (IH pins _ Hs' Hx' ltac:(lia) ltac:(lia)
                ltac:(cbn in Hlen; lia) Hrest)
      as (fs1 & fs2 & Hfs & Hl & H1 & H2).
    exists (check_limits cfg (read_limit_bits cfg reverse_direction pin) f :: fs1),
           fs2.
    splits.
    + rewrite Hfs. reflexivity.
    + cbn. now rewrite Hl.
    + constructor; [|exact H1]. unfold x_sync in Hs'. now rewrite Hs'.
    + exact H2.
Qed.

Lemma loop_frames_y_overshoot (reverse_direction : bool) (n : nat) :
  forall pins f,
    y_sync f -> y_axis f = true ->
    y_overshoot_count f = Z.of_nat n -> (n < 256)%nat ->
    (n < length pins)%nat ->
    Forall (fun pin => y_limit_reached reverse_direction pin = true)
           (firstn (S n) pins) ->
    exists fs1 fs2,
      loop_frames cfg reverse_direction pins f = fs1 ++ fs2 /\
      length fs1 = n /\
      Forall (fun f' => Z.testbit (h_out_bits f') (Y_STEP_BIT cfg) = true) fs1 /\
      Forall (fun f' => Z.testbit (h_out_bits f') (Y_STEP_BIT cfg) = false) fs2.
Proof.
  induction n as [|n IH]; intros pins f Hs Hy Hc Hn Hlen Hhit;
    (destruct pins as [|pin pins]; [cbn in Hlen; lia|]);
    cbn [firstn] in Hhit; inversion Hhit as [|? ? Hpin Hrest]; subst;
    unfold y_limit_reached in Hpin;
    destruct (check_limits_y (read_limit_bits cfg reverse_direction pin) f Hs
                ltac:(lia)) as (Hs' & Hoff & Hkeep & Hstop & Hgo);
    cbv zeta in Hstop, Hgo.
  - exists [], (loop_frames cfg reverse_direction (pin :: pins) f).
    splits; [reflexivity|reflexivity|constructor|].
    specialize (Hstop Hy Hpin Hc).
    cbn [loop_frames]. cbv zeta.
    destruct (x_axis _ || y_axis _ || z_axis _); constructor.
    + unfold y_sync in Hs'. now rewrite Hs'.
    + apply loop_frames_y_off; [exact Hs'| |exact Hstop].
      pose proof (check_limits_y_count
                    (read_limit_bits cfg reverse_direction pin) f ltac:(lia)).
      lia.
  - destruct (Hgo Hy Hpin ltac:(lia)) as [Hy' Hc'].
    cbn [loop_frames]. cbv zeta. rewrite Hy'. rewrite orb_true_r. cbn [orb].
    destruct (IH pins _ Hs' Hy' ltac:(lia) ltac:(lia)
                ltac:(cbn in Hlen; lia) Hrest)
      as (fs1 & fs2 & Hfs & Hl & H1 & H2).
    exists (check_limits cfg (read_limit_bits cfg reverse_direction pin) f :: fs1),
           fs2.
    splits.
    + rewrite Hfs. reflexivity.
    + cbn. now rewrite Hl.
    + constructor; [|exact H1]. unfold y_sync in Hs'. now rewrite Hs'.
    + exact H2.
Qed.

Lemma frame_pulse_x (d : Z) (f : homing_frame) :
  x_pulsed (frame_pulse cfg d f) = Z.testbit (h_out_bits f) (X_STEP_BIT cfg).
Proof.
  unfold x_pulsed, frame_pulse. cbn [homing_bits].
  rewrite Z.land_spec, (x_in_stepping cfg pins_ok). apply andb_true_r.
Qed.

Lemma frame_pulse_y (d : Z) (f : homing_frame) :
  y_pulsed (frame_pulse cfg d f) = Z.testbit (h_out_bits f) (Y_STEP_BIT cfg).
Proof.
  unfold y_pulsed, frame_pulse. cbn [homing_bits].
  rewrite Z.land_spec, (y_in_stepping cfg pins_ok). apply andb_true_r.
Qed.

End Overshoot.

(** The pulses of an axis whose stop condition holds from the first
    reading on: exactly six, the first six of the call. *)
Lemma homing_cycle_x_overshoot (cfg : config) (y z reverse_direction : bool)
    (mpp : Z) (pins : list Z) (st : state)
    (done : bool) (st' : state) (rest : list Z) :
  homing_pins_ok cfg ->
  (7 <= length pins)%nat ->
  Forall (fun pin => x_limit_reached cfg reverse_direction pin = true)
         (firstn 7 pins) ->
  homing_cycle cfg true y z reverse_direction mpp pins st = (done, st', rest) ->
  exists early late,
    emitted (ext st') = late ++ early ++ emitted (ext st) /\
    length early = 6%nat /\
    Forall (fun e => x_pulsed cfg e = true) early /\
    Forall (fun e => x_pulsed cfg e = false) late.
Proof.
  intros Hok Hlen Hhit H.
  apply homing_cycle_spec in H. destruct H as [Hlog _]. cbv zeta in Hlog.
  destruct (homing_entry_sync cfg Hok true y z reverse_direction)
    as (Hs & _ & Hx & _ & Hc & _).
  destruct (loop_frames_x_overshoot cfg Hok reverse_direction 6 pins
              (homing_entry cfg true y z reverse_direction)
              Hs Hx Hc ltac:(lia) ltac:(lia) Hhit)
    as (fs1 & fs2 & Hfs & Hl & H1 & H2).
  rewrite Hfs, map_app, rev_app_distr, <- app_assoc in Hlog.
  eexists _, _. split; [exact Hlog|].
  splits.
  - now rewrite length_rev, length_map.
  - apply Forall_rev, Forall_map.
    eapply Forall_impl; [|exact H1]. intros f Hf.
    now rewrite frame_pulse_x.
  - apply Forall_rev, Forall_map.
    eapply Forall_impl; [|exact H2]. intros f Hf.
    now rewrite frame_pulse_x.
Qed.

Lemma homing_cycle_y_overshoot (cfg : config) (x z reverse_direction : bool)
    (mpp : Z) (pins : list Z) (st : state)
    (done : bool) (st' : state) (rest : list Z) :
  homing_pins_ok cfg ->
  (7 <= length pins)%nat ->
  Forall (fun pin => y_limit_reached cfg reverse_direction pin = true)
         (firstn 7 pins) ->
  homing_cycle cfg x true z reverse_direction mpp pins st = (done, st', rest) ->
  exists early late,
    emitted (ext st') = late ++ early ++ emitted (ext st) /\
    length early = 6%nat /\
    Forall (fun e => y_pulsed cfg e = true) early /\
    Forall (fun e => y_pulsed cfg e = false) late.
Proof.
  intros Hok Hlen Hhit H.
  apply homing_cycle_spec in H. destruct H as [Hlog _]. cbv zeta in Hlog.
  destruct (homing_entry_sync cfg Hok x true z reverse_direction)
    as (_ & Hs & _ & Hy & _ & Hc).
  destruct (loop_frames_y_overshoot cfg Hok reverse_direction 6 pins
              (homing_entry cfg x true z reverse_direction)
              Hs Hy Hc ltac:(lia) ltac:(lia) Hhit)
    as (fs1 & fs2 & Hfs & Hl & H1 & H2).
  rewrite Hfs, map_app, rev_app_distr, <- app_assoc in Hlog.
  eexists _, _. split; [exact Hlog|].
  splits.
  - now rewrite length_rev, length_map.
  - apply Forall_rev, Forall_map.
    eapply Forall_impl; [|exact H1]. intros f Hf.
    now rewrite frame_pulse_y.
  - apply Forall_rev, Forall_map.
    eapply Forall_impl; [|exact H2]. intros f Hf.
    now rewrite frame_pulse_y.
Qed.

(** Readings on [sample_config] with the X switch closed from the start
    and the Y switch closing three readings later: bit 0 is X1, bit 2 is
    Y1, a closed switch reads 0. *)
Definition staggered_pins : list Z :=
  [14; 14; 14; 10; 10; 10; 10; 10; 10; 10].

(** On these readings X gets its six pulses and stops while Y goes on for
    three more: the bits raised, oldest first, are X and Y (3) six times,
    then Y alone (2) three times. *)
Example homing_axes_stop_independently :
  map homing_bits
    (rev (emitted (ext (snd (fst (approach_limit_switch sample_config
                                    true true false
                                    staggered_pins power_on_state))))))
  = [3; 3; 3; 3; 3; 3; 2; 2; 2].
Proof. vm_compute. reflexivity. Qed.

(** ** Lists whose neighbours are related *)

Inductive chained {A : Type} (R : A -> A -> Prop) : list A -> Prop :=
| chained_nil : chained R []
| chained_one (x : A) : chained R [x]
| chained_cons (x y : A) (l : list A) :
    R x y -> chained R (y :: l) -> chained R (x :: y :: l).

Lemma chained_Forall {A : Type} (R : A -> A -> Prop) (Q : A -> Prop) :
  (forall a b, R a b -> Q a -> Q b) ->
  forall l x, chained R (x :: l) -> Q x -> Forall Q l.
Proof.
  intros Hstep. induction l as [|y l IH]; intros x Hc Hx.
  - constructor.
  - inversion Hc; subst. constructor; eauto.
Qed.

Lemma chained_inv {A : Type} (R : A -> A -> Prop) (x : A) (l : list A) :
  chained R (x :: l) -> chained R l.
Proof. intros Hc. inversion Hc; subst; [constructor|assumption]. Qed.

Lemma chained_tail {A : Type} (R : A -> A -> Prop) (pre : list A) :
  forall l, chained R (pre ++ l) -> chained R l.
Proof.
  induction pre as [|x pre IH]; intros l Hc; [exact Hc|].
  apply IH. cbn in Hc. now apply chained_inv in Hc.
Qed.

Lemma chained_pair {A : Type} (R : A -> A -> Prop) (pre : list A)
    (x y : A) (l : list A) :
  chained R (pre ++ x :: y :: l) -> R x y.
Proof.
  intros Hc. apply chained_tail in Hc. now inversion Hc.
Qed.

(** ** The Bresenham tracer *)

(** One axis of the tracer: add the axis's step count, step when the
    counter is positive.  Returns whether the axis steps and the new
    counter. *)
Definition bres_step (N s c : Z) : bool * Z :=
  let c := s32 (c + s) in
  if 0 <? c then (true, s32 (c - N)) else (false, c).

Fixpoint bres_trace (n : nat) (N s c : Z) : list bool :=
  match n with
  | O => []
  | S n' => fst (bres_step N s c) :: bres_trace n' N s (snd (bres_step N s c))
  end.

Fixpoint bres_final (n : nat) (N s c : Z) : Z :=
  match n with
  | O => c
  | S n' => bres_final n' N s (snd (bres_step N s c))
  end.

Definition count_true (l : list bool) : Z :=
  Z.of_nat (length (filter (fun x => x) l)).

Lemma bres_step_range (N s c : Z) :
  0 <= s <= N -> N < 2 ^ 31 -> - N < c <= 0 ->
  - N < snd (bres_step N s c) <= 0 /\
  snd (bres_step N s c)
  = c + s - (if fst (bres_step N s c) then N else 0) /\
  (s = N -> fst (bres_step N s c) = true).
Proof.
  intros Hs HN Hc. unfold bres_step. cbv zeta.
  rewrite (s32_small (c + s)) by lia.
  destruct (Z.ltb_spec 0 (c + s)); cbn [fst snd].
  - rewrite s32_small by lia. lia.
  - lia.
Qed.

(** After [n] events the counter has gained [n * s] and lost [N] per step,
    and lies in (-N, 0]. *)
Lemma bres_trace_sum (N s : Z) (n : nat) :
  0 <= s <= N -> N < 2 ^ 31 ->
  forall c, - N < c <= 0 ->
    - N < bres_final n N s c <= 0 /\
    bres_final n N s c
    = c + Z.of_nat n * s - count_true (bres_trace n N s c) * N /\
    length (bres_trace n N s c) = n /\
    (s = N -> Forall (fun x => x = true) (bres_trace n N s c)).
Proof.
  intros Hs HN. induction n as [|n IH]; intros c Hc.
  - cbn. unfold count_true. cbn. splits; try lia. constructor.
  - destruct (bres_step_range N s c Hs HN Hc) as (Hr & He & Hd).
    destruct (IH _ Hr) as (IHr & IHe & IHl & IHd).
    cbn [bres_final bres_trace]. splits.
    + lia.
    + lia.
    + rewrite IHe, He. unfold count_true. cbn [filter].
      destruct (fst (bres_step N s c)); cbn [length]; lia.
    + cbn. now rewrite IHl.
    + intros E. constructor; auto.
Qed.

(** A full cycle of [N] events from the midpoint seed steps [s] times and
    brings the counter back to the seed. *)
Lemma bres_cycle (N s : Z) :
  0 <= s <= N -> N < 2 ^ 31 ->
  let c0 := s32 (- Z.shiftr N 1) in
  count_true (bres_trace (Z.to_nat N) N s c0) = s /\
  bres_final (Z.to_nat N) N s c0 = c0 /\
  (s = N -> Forall (fun x => x = true) (bres_trace (Z.to_nat N) N s c0)).
Proof.
  intros Hs HN. cbv zeta.
  assert (Hh : 0 <= Z.shiftr N 1 <= N / 2 /\ Z.shiftr N 1 = N / 2).
  { rewrite Z.shiftr_div_pow2 by lia. change (2 ^ 1) with 2.
    split; [|reflexivity]. split; [apply Z.div_pos; lia|lia]. }
  destruct Hh as [Hh Hdiv].
  assert (Hhalf : 2 * (N / 2) <= N) by (apply Z.mul_div_le; lia).
  rewrite s32_small by lia.
  destruct (Z.eq_dec N 0) as [->|HN0].
  - assert (s = 0) by lia. subst s. cbn. unfold count_true. cbn.
    splits; auto.
  - assert (Hc : - N < - Z.shiftr N 1 <= 0) by lia.
    destruct (bres_trace_sum N s (Z.to_nat N) Hs HN _ Hc)
      as (Hr & He & _ & Hd).
    rewrite Z2Nat.id in He by lia.
    set (k := count_true (bres_trace (Z.to_nat N) N s (- Z.shiftr N 1))) in *.
    assert (Hk : k = s) by nia.
    splits; [exact Hk| |exact Hd].
    rewrite He, Hk. lia.
Qed.

(** ** One run of the interrupt on a LINE block *)

(** The step bit of an axis as the tracer left it in [out_bits], read back
    through the invert mask. *)
Definition x_step_set (cfg : config) (st : state) : bool :=
  Z.testbit (Z.lxor (out_bits st) (INVERT_MASK cfg)) (X_STEP_BIT cfg).

Definition y_step_set (cfg : config) (st : state) : bool :=
  Z.testbit (Z.lxor (out_bits st) (INVERT_MASK cfg)) (Y_STEP_BIT cfg).

Definition z_step_set (cfg : config) (st : state) : bool :=
  Z.testbit (Z.lxor (out_bits st) (INVERT_MASK cfg)) (Z_STEP_BIT cfg).

(** The three step bits are distinct bits of the 8-bit port. *)
Record step_pins_ok (cfg : config) : Prop := {
  sx_range : 0 <= X_STEP_BIT cfg < 8;
  sy_range : 0 <= Y_STEP_BIT cfg < 8;
  sz_range : 0 <= Z_STEP_BIT cfg < 8;
  sxy_distinct : X_STEP_BIT cfg <> Y_STEP_BIT cfg;
  sxz_distinct : X_STEP_BIT cfg <> Z_STEP_BIT cfg;
  syz_distinct : Y_STEP_BIT cfg <> Z_STEP_BIT cfg
}.

Lemma sample_config_step_pins_ok : step_pins_ok sample_config.
Proof. constructor; cbn; lia. Qed.

(** A LINE block as the planner hands it over: the event count is the
    largest of the step counts and fits [int32_t], and the direction bits
    do not touch the step bits. *)
Record line_block_ok (cfg : config) (b : block) : Prop := {
  b_line : type b = TYPE_LINE;
  b_count : 0 <= step_event_count b < 2 ^ 31;
  b_steps_x : 0 <= steps_x b <= step_event_count b;
  b_steps_y : 0 <= steps_y b <= step_event_count b;
  b_steps_z : 0 <= steps_z b <= step_event_count b;
  b_dir_x : Z.testbit (direction_bits b) (X_STEP_BIT cfg) = false;
  b_dir_y : Z.testbit (direction_bits b) (Y_STEP_BIT cfg) = false;
  b_dir_z : Z.testbit (direction_bits b) (Z_STEP_BIT cfg) = false
}.

(** Destructs the conditionals of the goal from the outermost data
    dependency inwards, reducing field reads in between. *)
Ltac split_ifs :=
  repeat (fields;
    match goal with
    | |- context [if ?c then _ else _] =>
        lazymatch c with
        | context [if _ then _ else _] => fail
        | _ => destruct c eqn:?
        end
    end);
  fields.

Section LineBlock.

Variable cfg : config.
Variable b : block.

Lemma trace_x_fields (st : state) :
  let st' := trace_x cfg b st in
  counter_x st'
    = snd (bres_step (step_event_count b) (steps_x b) (counter_x st)) /\
  out_bits st'
    = (if fst (bres_step (step_event_count b) (steps_x b) (counter_x st))
       then u8 (Z.lor (out_bits st) (Z.shiftl 1 (X_STEP_BIT cfg)))
       else out_bits st) /\
  counter_y st' = counter_y st /\
  counter_z st' = counter_z st /\
  step_events_completed st' = step_events_completed st /\
  current_block st' = current_block st /\
  busy st' = busy st /\
  stop_requested st' = stop_requested st /\
  adjusted_rate st' = adjusted_rate st /\
  acceleration_tick_counter st' = acceleration_tick_counter st /\
  cycles_per_step_event st' = cycles_per_step_event st /\
  ext st' = ext st.
Proof.
  cbv zeta. unfold trace_x, bres_step. cbv zeta. fields.
  destruct (0 <? s32 (counter_x st + steps_x b)); cbn [fst snd];
    split_ifs; splits; reflexivity.
Qed.

Lemma trace_y_fields (st : state) :
  let st' := trace_y cfg b st in
  counter_y st'
    = snd (bres_step (step_event_count b) (steps_y b) (counter_y st)) /\
  out_bits st'
    = (if fst (bres_step (step_event_count b) (steps_y b) (counter_y st))
       then u8 (Z.lor (out_bits st) (Z.shiftl 1 (Y_STEP_BIT cfg)))
       else out_bits st) /\
  counter_x st' = counter_x st /\
  counter_z st' = counter_z st /\
  step_events_completed st' = step_events_completed st /\
  current_block st' = current_block st /\
  busy st' = busy st /\
  stop_requested st' = stop_requested st /\
  adjusted_rate st' = adjusted_rate st /\
  acceleration_tick_counter st' = acceleration_tick_counter st /\
  cycles_per_step_event st' = cycles_per_step_event st /\
  ext st' = ext st.
Proof.
  cbv zeta. unfold trace_y, bres_step. cbv zeta. fields.
  destruct (0 <? s32 (counter_y st + steps_y b)); cbn [fst snd];
    split_ifs; splits; reflexivity.
Qed.

Lemma trace_z_fields (st : state) :
  let st' := trace_z cfg b st in
  counter_z st'
    = snd (bres_step (step_event_count b) (steps_z b) (counter_z st)) /\
  out_bits st'
    = (if fst (bres_step (step_event_count b) (steps_z b) (counter_z st))
       then u8 (Z.lor (out_bits st) (Z.shiftl 1 (Z_STEP_BIT cfg)))
       else out_bits st) /\
  counter_x st' = counter_x st /\
  counter_y st' = counter_y st /\
  step_events_completed st' = step_events_completed st /\
  current_block st' = current_block st /\
  busy st' = busy st /\
  stop_requested st' = stop_requested st /\
  adjusted_rate st' = adjusted_rate st /\
  acceleration_tick_counter st' = acceleration_tick_counter st /\
  cycles_per_step_event st' = cycles_per_step_event st /\
  ext st' = ext st.
Proof.
  cbv zeta. unfold trace_z, bres_step. cbv zeta. fields.
  destruct (0 <? s32 (counter_z st + steps_z b)); cbn [fst snd];
    split_ifs; splits; reflexivity.
Qed.

(** The two ends of [trace_line]: loading the direction bits, and counting
    the event and applying the invert mask. *)
Definition trace_begin (st : state) : state :=
  set_out_bits (u8 (direction_bits b)) st.

Definition trace_end (st : state) : state :=
  let st :=
    set_step_events_completed (u32 (step_events_completed st + 1)) st in
  set_out_bits (u8 (Z.lxor (out_bits st) (INVERT_MASK cfg))) st.

Lemma trace_line_parts (st : state) :
  trace_line cfg b st
  = trace_end (trace_z cfg b (trace_y cfg b (trace_x cfg b (trace_begin st)))).
Proof. reflexivity. Qed.

Lemma trace_begin_fields (st : state) :
  let st' := trace_begin st in
  out_bits st' = u8 (direction_bits b) /\
  counter_x st' = counter_x st /\
  counter_y st' = counter_y st /\
  counter_z st' = counter_z st /\
  step_events_completed st' = step_events_completed st /\
  current_block st' = current_block st /\
  busy st' = busy st /\
  stop_requested st' = stop_requested st /\
  adjusted_rate st' = adjusted_rate st /\
  acceleration_tick_counter st' = acceleration_tick_counter st /\
  cycles_per_step_event st' = cycles_per_step_event st /\
  ext st' = ext st.
Proof. cbv zeta. splits; reflexivity. Qed.

Lemma trace_end_fields (st : state) :
  let st' := trace_end st in
  out_bits st' = u8 (Z.lxor (out_bits st) (INVERT_MASK cfg)) /\
  counter_x st' = counter_x st /\
  counter_y st' = counter_y st /\
  counter_z st' = counter_z st /\
  step_events_completed st' = u32 (step_events_completed st + 1) /\
  current_block st' = current_block st /\
  busy st' = busy st /\
  stop_requested st' = stop_requested st /\
  adjusted_rate st' = adjusted_rate st /\
  acceleration_tick_counter st' = acceleration_tick_counter st /\
  cycles_per_step_event st' = cycles_per_step_event st /\
  ext st' = ext st.
Proof. cbv zeta. splits; reflexivity. Qed.

(** What [trace_line] does to the tracer, and what it leaves alone. *)
Lemma trace_line_fields (st : state) :
  let st' := trace_line cfg b st in
  counter_x st'
    = snd (bres_step (step_event_count b) (steps_x b) (counter_x st)) /\
  counter_y st'
    = snd (bres_step (step_event_count b) (steps_y b) (counter_y st)) /\
  counter_z st'
    = snd (bres_step (step_event_count b) (steps_z b) (counter_z st)) /\
  step_events_completed st' = u32 (step_events_completed st + 1) /\
  current_block st' = current_block st /\
  busy st' = busy st /\
  stop_requested st' = stop_requested st /\
  adjusted_rate st' = adjusted_rate st /\
  acceleration_tick_counter st' = acceleration_tick_counter st /\
  cycles_per_step_event st' = cycles_per_step_event st /\
  ext st' = ext st.
Proof.
  cbv zeta. rewrite trace_line_parts.
  destruct (trace_begin_fields st)
    as (_ & B1 & B2 & B3 & B4 & B5 & B6 & B7 & B8 & B9 & B10 & B11).
  set (s0 := trace_begin st) in *. clearbody s0.
  destruct (trace_x_fields s0)
    as (X1 & _ & X2 & X3 & X4 & X5 & X6 & X7 & X8 & X9 & X10 & X11).
  set (s1 := trace_x cfg b s0) in *. clearbody s1.
  destruct (trace_y_fields s1)
    as (Y1 & _ & Y2 & Y3 & Y4 & Y5 & Y6 & Y7 & Y8 & Y9 & Y10 & Y11).
  set (s2 := trace_y cfg b s1) in *. clearbody s2.
  destruct (trace_z_fields s2)
    as (Z1 & _ & Z2 & Z3 & Z4 & Z5 & Z6 & Z7 & Z8 & Z9 & Z10 & Z11).
  set (s3 := trace_z cfg b s2) in *. clearbody s3.
  destruct (trace_end_fields s3)
    as (_ & F1 & F2 & F3 & F4 & F5 & F6 & F7 & F8 & F9 & F10 & F11).
  cbv zeta in *.
  splits.
  - now rewrite F1, Z2, Y2, X1, B1.
  - now rewrite F2, Z3, Y1, X2, B2.
  - now rewrite F3, Z1, Y3, X3, B3.
  - now rewrite F4, Z4, Y4, X4, B4.
  - now rewrite F5, Z5, Y5, X5, B5.
  - now rewrite F6, Z6, Y6, X6, B6.
  - now rewrite F7, Z7, Y7, X7, B7.
  - now rewrite F8, Z8, Y8, X8, B8.
  - now rewrite F9, Z9, Y9, X9, B9.
  - now rewrite F10, Z10, Y10, X10, B10.
  - now rewrite F11, Z11, Y11, X11, B11.
Qed.

Hypothesis pins_ok : step_pins_ok cfg.
Hypothesis block_ok : line_block_ok cfg b.
Hypothesis min_rate_pos : 0 < MINIMUM_STEPS_PER_MINUTE cfg.

Lemma xor_mask_back (o m i : Z) :
  0 <= i < 8 ->
  Z.testbit (Z.lxor (u8 (Z.lxor o m)) m) i = Z.testbit o i.
Proof.
  intros Hi. rewrite Z.lxor_spec, u8_testbit, Z.lxor_spec by lia.
  now destruct (Z.testbit o i), (Z.testbit m i).
Qed.

Lemma set_bit_testbit (o i j : Z) :
  0 <= i < 8 -> 0 <= j < 8 ->
  Z.testbit (u8 (Z.lor o (Z.shiftl 1 i))) j = Z.testbit o j || (i =? j).
Proof.
  intros Hi Hj. now rewrite u8_testbit, Z.lor_spec, shiftl_1_testbit by lia.
Qed.

(** The step bits [trace_line] leaves in [out_bits] are the decisions of
    the three counters. *)
Lemma trace_line_step_bits (st : state) :
  let st' := trace_line cfg b st in
  x_step_set cfg st'
    = fst (bres_step (step_event_count b) (steps_x b) (counter_x st)) /\
  y_step_set cfg st'
    = fst (bres_step (step_event_count b) (steps_y b) (counter_y st)) /\
  z_step_set cfg st'
    = fst (bres_step (step_event_count b) (steps_z b) (counter_z st)).
Proof.
  cbv zeta. rewrite trace_line_parts.
  destruct pins_ok as [Rx Ry Rz Dxy Dxz Dyz].
  destruct block_ok as [_ _ _ _ _ Bx By Bz].
  destruct (trace_begin_fields st) as (B0 & B1 & B2 & B3 & _).
  set (s0 := trace_begin st) in *. clearbody s0.
  destruct (trace_x_fields s0) as (_ & X0 & X2 & X3 & _).
  set (s1 := trace_x cfg b s0) in *. clearbody s1.
  destruct (trace_y_fields s1) as (_ & Y0 & Y2 & Y3 & _).
  set (s2 := trace_y cfg b s1) in *. clearbody s2.
  destruct (trace_z_fields s2) as (_ & Z0 & Z2 & Z3 & _).
  set (s3 := trace_z cfg b s2) in *. clearbody s3.
  destruct (trace_end_fields s3) as (F0 & _).
  cbv zeta in *.
  unfold x_step_set, y_step_set, z_step_set.
  rewrite F0, !xor_mask_back by lia.
  rewrite Z0, Y0, X0, B0, Y3, X3, X2, B1, B2, B3.
  destruct (fst (bres_step (step_event_count b) (steps_x b) (counter_x st)));
  destruct (fst (bres_step (step_event_count b) (steps_y b) (counter_y st)));
  destruct (fst (bres_step (step_event_count b) (steps_z b) (counter_z st)));
  rewrite ?set_bit_testbit, ?u8_testbit, ?Bx, ?By, ?Bz by lia;
  rewrite ?Z.eqb_refl;
  repeat match goal with
  | |- context [?a =? ?c] => destruct (Z.eqb_spec a c); [lia|]
  end;
  splits; reflexivity.
Qed.

(** ** The speed adjustment *)

(** Whether [acceleration_tick] reports a tick. *)
Definition tick_due (st : state) : bool :=
  CYCLES_PER_ACCELERATION_TICK cfg
  <? u32 (acceleration_tick_counter st + cycles_per_step_event st).

(** [adjusted_rate] after the speed adjustment of an event, from the event
    number [sec] (already counted), the tick and the rate before. *)
Definition rate_after (sec : Z) (tick : bool) (r : Z) : Z :=
  if sec <? step_event_count b then
    if sec <? accelerate_until b then
      if tick then
        let r' := u32 (r + rate_delta b) in
        if nominal_rate b <? r' then nominal_rate b else r'
      else r
    else if sec =? decelerate_after b then r
    else if decelerate_after b <=? sec then
      if tick then
        let r' := u32 (r - rate_delta b) in
        if r' <? final_rate b then final_rate b else r'
      else r
    else nominal_rate b
  else r.

Lemma acceleration_tick_fields (st : state) :
  let r := acceleration_tick cfg st in
  fst r = tick_due st /\
  current_block (snd r) = current_block st /\
  adjusted_rate (snd r) = adjusted_rate st /\
  counter_x (snd r) = counter_x st /\
  counter_y (snd r) = counter_y st /\
  counter_z (snd r) = counter_z st /\
  out_bits (snd r) = out_bits st /\
  step_events_completed (snd r) = step_events_completed st /\
  busy (snd r) = busy st /\
  stop_requested (snd r) = stop_requested st /\
  ext (snd r) = ext st.
Proof.
  cbv zeta. unfold acceleration_tick, tick_due. cbv zeta. fields.
  destruct (_ <? _); cbn [fst snd]; fields; splits; reflexivity.
Qed.

Lemma speed_adjustment_spec (st : state) :
  current_block st = Some b ->
  exists st',
    speed_adjustment cfg b st = Ok st' /\
    counter_x st' = counter_x st /\
    counter_y st' = counter_y st /\
    counter_z st' = counter_z st /\
    out_bits st' = out_bits st /\
    step_events_completed st' = step_events_completed st /\
    busy st' = busy st /\
    stop_requested st' = stop_requested st /\
    adjusted_rate st'
      = rate_after (step_events_completed st) (tick_due st) (adjusted_rate st) /\
    current_block st'
      = (if step_events_completed st <? step_event_count b
         then Some b else None) /\
    block_buffer (ext st')
      = (if step_events_completed st <? step_event_count b
         then block_buffer (ext st) else tl (block_buffer (ext st))).
Proof.
  intros Hcur. unfold speed_adjustment, rate_after.
  destruct (acceleration_tick_fields st)
    as (T0 & T1 & T2 & T3 & T4 & T5 & T6 & T7 & T8 & T9 & T10).
  cbv zeta in *.
  destruct (acceleration_tick cfg st) as [tick st1]. cbn [fst snd] in *.
  rewrite <- T0.
  assert (Hadj : forall r,
    exists st',
      adjust_speed cfg r (set_adjusted_rate r st1) = Ok st' /\
      counter_x st' = counter_x st /\
      counter_y st' = counter_y st /\
      counter_z st' = counter_z st /\
      out_bits st' = out_bits st /\
      step_events_completed st' = step_events_completed st /\
      busy st' = busy st /\
      stop_requested st' = stop_requested st /\
      adjusted_rate st' = r /\
      current_block st' = Some b /\
      block_buffer (ext st') = block_buffer (ext st)).
  { intros r.
    assert (Hc1 : current_block (set_adjusted_rate r st1) = Some b)
      by (fields; now rewrite T1).
    destruct (adjust_speed_with_block cfg min_rate_pos r
                (set_adjusted_rate r st1) b Hc1)
      as (st' & H & _ & A1 & _ & A2 & A3 & A4 & A5 & A6 & _ & A7 & A8 & _
          & A9 & _ & A10 & _).
    fields_in A2. fields_in A3. fields_in A4. fields_in A5. fields_in A6.
    fields_in A7. fields_in A8. fields_in A9. fields_in A10.
    exists st'. splits; congruence. }
  assert (Hadj0 : forall r,
    exists st',
      adjust_speed cfg r (set_adjusted_rate r st) = Ok st' /\
      counter_x st' = counter_x st /\
      counter_y st' = counter_y st /\
      counter_z st' = counter_z st /\
      out_bits st' = out_bits st /\
      step_events_completed st' = step_events_completed st /\
      busy st' = busy st /\
      stop_requested st' = stop_requested st /\
      adjusted_rate st' = r /\
      current_block st' = Some b /\
      block_buffer (ext st') = block_buffer (ext st)).
  { intros r.
    assert (Hc1 : current_block (set_adjusted_rate r st) = Some b)
      by (fields; exact Hcur).
    destruct (adjust_speed_with_block cfg min_rate_pos r
                (set_adjusted_rate r st) b Hc1)
      as (st' & H & _ & A1 & _ & A2 & A3 & A4 & A5 & A6 & _ & A7 & A8 & _
          & A9 & _ & A10 & _).
    fields_in A2. fields_in A3. fields_in A4. fields_in A5. fields_in A6.
    fields_in A7. fields_in A8. fields_in A9. fields_in A10.
    exists st'. splits; congruence. }
  destruct (step_events_completed st <? step_event_count b).
  2:{ eexists. split; [reflexivity|]. driver_ops. splits; reflexivity. }
  destruct (step_events_completed st <? accelerate_until b).
  { destruct tick.
    - fields. rewrite T2.
      destruct (nominal_rate b <? u32 (adjusted_rate st + rate_delta b)).
      + fields. destruct (Hadj (nominal_rate b)) as (st' & H & R).
        exists st'. split; [exact H|exact R].
      + destruct (Hadj (u32 (adjusted_rate st + rate_delta b)))
          as (st' & H & R).
        exists st'. split; [exact H|exact R].
    - exists st1. split; [reflexivity|]. splits; congruence. }
  destruct (step_events_completed st =? decelerate_after b).
  { eexists. split; [reflexivity|]. fields.
    splits; try reflexivity. exact Hcur. }
  destruct (decelerate_after b <=? step_events_completed st).
  { destruct tick.
    - fields. rewrite T2.
      destruct (u32 (adjusted_rate st - rate_delta b) <? final_rate b).
      + fields. destruct (Hadj (final_rate b)) as (st' & H & R).
        exists st'. split; [exact H|exact R].
      + destruct (Hadj (u32 (adjusted_rate st - rate_delta b)))
          as (st' & H & R).
        exists st'. split; [exact H|exact R].
    - exists st1. split; [reflexivity|]. splits; congruence. }
  destruct (Z.eqb_spec (adjusted_rate st) (nominal_rate b)) as [E|E];
    cbn [negb].
  - exists st. split; [reflexivity|]. splits; congruence.
  - fields. destruct (Hadj0 (nominal_rate b)) as (st' & H & R).
    exists st'. split; [exact H|exact R].
Qed.

(** ** One event of a LINE block *)

(** What one event does between the state [pre] the tracer starts from and
    the state [post] the interrupt leaves. *)
Definition line_event (pre post : state) : Prop :=
  counter_x post
    = snd (bres_step (step_event_count b) (steps_x b) (counter_x pre)) /\
  counter_y post
    = snd (bres_step (step_event_count b) (steps_y b) (counter_y pre)) /\
  counter_z post
    = snd (bres_step (step_event_count b) (steps_z b) (counter_z pre)) /\
  x_step_set cfg post
    = fst (bres_step (step_event_count b) (steps_x b) (counter_x pre)) /\
  y_step_set cfg post
    = fst (bres_step (step_event_count b) (steps_y b) (counter_y pre)) /\
  z_step_set cfg post
    = fst (bres_step (step_event_count b) (steps_z b) (counter_z pre)) /\
  step_events_completed post = u32 (step_events_completed pre + 1) /\
  adjusted_rate post
    = rate_after (u32 (step_events_completed pre + 1)) (tick_due pre)
        (adjusted_rate pre) /\
  current_block post
    = (if u32 (step_events_completed pre + 1) <? step_event_count b
       then Some b else None) /\
  block_buffer (ext post)
    = (if u32 (step_events_completed pre + 1) <? step_event_count b
       then block_buffer (ext pre) else tl (block_buffer (ext pre))).

(** An event of the block, counted in 31 bits. *)
Definition block_event (pre post : state) : Prop :=
  line_event pre post /\ 0 <= step_events_completed pre < 2 ^ 31.

Lemma process_line (st : state) :
  current_block st = Some b ->
  exists st',
    process_block cfg b st = Ok st' /\
    line_event st st' /\
    busy st' = busy st /\
    stop_requested st' = stop_requested st.
Proof.
  intros Hcur. unfold process_block. rewrite (b_line cfg b block_ok).
  destruct (trace_line_fields st)
    as (T1 & T2 & T3 & T4 & T5 & T6 & T7 & T8 & T9 & T10 & T11).
  destruct (trace_line_step_bits st) as (S1 & S2 & S3).
  cbv zeta in *.
  assert (Htick : tick_due (trace_line cfg b st) = tick_due st)
    by (unfold tick_due; now rewrite T9, T10).
  unfold x_step_set, y_step_set, z_step_set in S1, S2, S3.
  set (t := trace_line cfg b st) in *. clearbody t.
  destruct (speed_adjustment_spec t)
    as (st' & H & A1 & A2 & A3 & A4 & A5 & A6 & A7 & A8 & A9 & A10).
  { now rewrite T5. }
  exists st'. split; [exact H|].
  unfold line_event, x_step_set, y_step_set, z_step_set.
  rewrite A1, A2, A3, A4, A5, A6, A7, A8, A9, A10.
  rewrite T1, T2, T3, T4, T6, T7, T8, T11, S1, S2, S3, Htick.
  splits; reflexivity.
Qed.

Lemma set_busy_fields (v : bool) (st : state) :
  let st' := set_busy v st in
  busy st' = v /\
  counter_x st' = counter_x st /\
  counter_y st' = counter_y st /\
  counter_z st' = counter_z st /\
  out_bits st' = out_bits st /\
  step_events_completed st' = step_events_completed st /\
  adjusted_rate st' = adjusted_rate st /\
  current_block st' = current_block st /\
  stop_requested st' = stop_requested st /\
  ext st' = ext st.
Proof. cbv zeta. splits; reflexivity. Qed.

(** The interrupt ends by clearing [busy]; nothing an event established
    depends on it. *)
Lemma line_event_set_busy (pre post : state) (v : bool) :
  line_event pre post -> line_event pre (set_busy v post).
Proof.
  unfold line_event, x_step_set, y_step_set, z_step_set.
  destruct (set_busy_fields v post)
    as (_ & B1 & B2 & B3 & B4 & B5 & B6 & B7 & _ & B8).
  cbv zeta in *.
  rewrite B1, B2, B3, B4, B5, B6, B7, B8. tauto.
Qed.

(** The same event seen from a state that differs from [pre] in nothing
    the event reads. *)
Lemma line_event_from (pre pre' post : state) :
  counter_x pre' = counter_x pre ->
  counter_y pre' = counter_y pre ->
  counter_z pre' = counter_z pre ->
  step_events_completed pre' = step_events_completed pre ->
  adjusted_rate pre' = adjusted_rate pre ->
  acceleration_tick_counter pre' = acceleration_tick_counter pre ->
  cycles_per_step_event pre' = cycles_per_step_event pre ->
  block_buffer (ext pre') = block_buffer (ext pre) ->
  line_event pre' post -> line_event pre post.
Proof.
  unfold line_event, tick_due.
  intros -> -> -> -> -> -> -> ->. tauto.
Qed.

(** What "pulse steppers" leaves alone. *)
Lemma pulse_steppers_fields (st : state) :
  let st' := pulse_steppers cfg st in
  counter_x st' = counter_x st /\
  counter_y st' = counter_y st /\
  counter_z st' = counter_z st /\
  step_events_completed st' = step_events_completed st /\
  adjusted_rate st' = adjusted_rate st /\
  acceleration_tick_counter st' = acceleration_tick_counter st /\
  cycles_per_step_event st' = cycles_per_step_event st /\
  block_buffer (ext st') = block_buffer (ext st) /\
  current_block st' = current_block st /\
  busy st' = busy st /\
  stop_requested st' = stop_requested st.
Proof. cbv zeta. unfold pulse_steppers. splits; reflexivity. Qed.

(** A run of the interrupt in the middle of a LINE block. *)
Lemma ISR_line_running (st : state) :
  busy st = false ->
  stop_requested st = false ->
  current_block st = Some b ->
  exists st',
    ISR cfg all_clear st = Ok st' /\
    line_event st st' /\
    busy st' = false /\
    stop_requested st' = false.
Proof.
  intros Hbusy Hstop Hcur. unfold ISR. rewrite Hbusy.
  cbn [stop_requested set_busy]. rewrite Hstop.
  change (SENSE_ANY all_clear) with false. cbv iota.
  destruct (pulse_steppers_fields (set_busy true st))
    as (P1 & P2 & P3 & P4 & P5 & P6 & P7 & P8 & P9 & P10 & P11).
  cbv zeta in *.
  set (p := pulse_steppers cfg (set_busy true st)) in *.
  fields_in P1. fields_in P2. fields_in P3. fields_in P4. fields_in P5.
  fields_in P6. fields_in P7. fields_in P8. fields_in P9. fields_in P11.
  clearbody p.
  rewrite P9, Hcur.
  destruct (process_line p) as (st' & H & Hev & Hb & Hs);
    [now rewrite P9|].
  rewrite H. cbn [bind].
  exists (set_busy false st'). split; [reflexivity|].
  splits.
  - apply line_event_set_busy.
    now apply (line_event_from st p st').
  - reflexivity.
  - cbn [stop_requested set_busy]. now rewrite Hs, P11.
Qed.

Lemma start_line_block_spec (st : state) :
  current_block st = Some b ->
  exists st',
    start_line_block cfg b st = Ok st' /\
    counter_x st' = s32 (- Z.shiftr (step_event_count b) 1) /\
    counter_y st' = s32 (- Z.shiftr (step_event_count b) 1) /\
    counter_z st' = s32 (- Z.shiftr (step_event_count b) 1) /\
    step_events_completed st' = 0 /\
    adjusted_rate st' = u32 (initial_rate b) /\
    current_block st' = Some b /\
    busy st' = busy st /\
    stop_requested st' = stop_requested st /\
    block_buffer (ext st') = block_buffer (ext st).
Proof.
  intros Hcur. unfold start_line_block. cbv zeta.
  set (s0 := set_acceleration_tick_counter _ (set_adjusted_rate _ st)).
  assert (Hc0 : current_block s0 = Some b) by exact Hcur.
  destruct (adjust_speed_with_block cfg min_rate_pos (adjusted_rate s0) s0 b Hc0)
    as (s1 & H & _ & A1 & _ & _ & _ & _ & _ & _ & _ & A7 & A8 & _
        & A9 & _ & A10 & _).
  rewrite H. cbn [bind].
  eexists. split; [reflexivity|]. fields.
  splits; try reflexivity; try assumption.
Qed.

(** The run of the interrupt that fetches a LINE block: it starts the block
    (state [s0]) and executes its first event. *)
Lemma ISR_line_first (st : state) (q : list block) :
  busy st = false ->
  stop_requested st = false ->
  current_block st = None ->
  block_buffer (ext st) = b :: q ->
  exists s0 st',
    ISR cfg all_clear st = Ok st' /\
    counter_x s0 = s32 (- Z.shiftr (step_event_count b) 1) /\
    counter_y s0 = s32 (- Z.shiftr (step_event_count b) 1) /\
    counter_z s0 = s32 (- Z.shiftr (step_event_count b) 1) /\
    step_events_completed s0 = 0 /\
    adjusted_rate s0 = u32 (initial_rate b) /\
    block_buffer (ext s0) = b :: q /\
    line_event s0 st' /\
    busy st' = false /\
    stop_requested st' = false.
Proof.
  intros Hbusy Hstop Hcur Hbuf. unfold ISR. rewrite Hbusy.
  cbn [stop_requested set_busy]. rewrite Hstop.
  change (SENSE_ANY all_clear) with false. cbv iota.
  destruct (pulse_steppers_fields (set_busy true st))
    as (_ & _ & _ & _ & _ & _ & _ & P8 & P9 & _ & P11).
  cbv zeta in *.
  set (p := pulse_steppers cfg (set_busy true st)) in *.
  fields_in P8. fields_in P9. fields_in P11.
  clearbody p.
  rewrite P9, Hcur. unfold planner_get_current_block.
  rewrite P8, Hbuf. cbn [hd_error].
  rewrite (b_line cfg b block_ok).
  destruct (start_line_block_spec (set_current_block (Some b) p) eq_refl)
    as (s0 & H & S1 & S2 & S3 & S4 & S5 & S6 & S7 & S8 & S9).
  fields_in S8. fields_in S9.
  rewrite H. cbn [bind].
  destruct (process_line s0 S6) as (st' & H' & Hev & Hb & Hs).
  rewrite H'. cbn [bind].
  exists s0, (set_busy false st'). split; [reflexivity|].
  splits; try assumption.
  - now rewrite S9, P8.
  - reflexivity.
  - cbn [stop_requested set_busy]. now rewrite Hs, S8, P11.
Qed.

(** ** A LINE block event after event *)

(** The interrupt is in the middle of block [b], with [q] queued behind
    it. *)
Definition running (q : list block) (st : state) : Prop :=
  busy st = false /\
  stop_requested st = false /\
  current_block st = Some b /\
  block_buffer (ext st) = b :: q.

(** The block is done: released and discarded from the queue. *)
Definition finished (q : list block) (st : state) : Prop :=
  busy st = false /\
  stop_requested st = false /\
  current_block st = None /\
  block_buffer (ext st) = q.

Lemma last_cons {A : Type} (a d : A) (l : list A) :
  last (a :: l) d = last l a.
Proof.
  revert a d. induction l as [|x l IH]; intros a d; [reflexivity|].
  change (last (a :: x :: l) d) with (last (x :: l) d).
  rewrite (IH x d), (IH x a). reflexivity.
Qed.

Lemma ISR_trace_cons (s : sense) (ss : list sense) (st st' : state)
    (tr : list state) :
  ISR cfg s st = Ok st' ->
  ISR_trace cfg ss st' = Ok tr ->
  ISR_trace cfg (s :: ss) st = Ok (st' :: tr).
Proof. intros H1 H2. cbn [ISR_trace]. rewrite H1. cbn [bind]. now rewrite H2. Qed.

(** Where an event leaves the block, by the event count. *)
Lemma line_event_progress (q : list block) (pre post : state) :
  block_buffer (ext pre) = b :: q ->
  0 <= step_events_completed pre ->
  line_event pre post ->
  busy post = false -> stop_requested post = false ->
  (step_events_completed pre + 1 < step_event_count b ->
     step_events_completed post = step_events_completed pre + 1 /\
     running q post) /\
  (step_event_count b <= step_events_completed pre + 1 < 2 ^ 32 ->
     step_events_completed post = step_events_completed pre + 1 /\
     finished q post).
Proof.
  intros Hbuf Hsec Hev Hb Hs.
  destruct Hev as (_ & _ & _ & _ & _ & _ & E7 & _ & E9 & E10).
  pose proof (b_count cfg b block_ok) as HN.
  split; intros Hc; rewrite u32_small in E7, E9, E10 by lia;
    (split; [exact E7|]).
  - assert (Hlt : (step_events_completed pre + 1 <? step_event_count b) = true)
      by (apply Z.ltb_lt; lia).
    rewrite Hlt in E9, E10. unfold running. rewrite E10. auto.
  - assert (Hlt : (step_events_completed pre + 1 <? step_event_count b) = false)
      by (apply Z.ltb_ge; lia).
    rewrite Hlt in E9, E10. unfold finished. rewrite E10, Hbuf. auto.
Qed.

(** [n] more events of a running block that has at least [n] events to
    go: the step bits follow the three counters, and the block is released
    exactly when the event count reaches [step_event_count]. *)
Lemma ISR_trace_running (q : list block) (n : nat) :
  forall st,
    running q st ->
    0 <= step_events_completed st ->
    step_events_completed st + Z.of_nat n <= step_event_count b ->
    exists tr,
      ISR_trace cfg (repeat all_clear n) st = Ok tr /\
      length tr = n /\
      map (x_step_set cfg) tr
        = bres_trace n (step_event_count b) (steps_x b) (counter_x st) /\
      map (y_step_set cfg) tr
        = bres_trace n (step_event_count b) (steps_y b) (counter_y st) /\
      map (z_step_set cfg) tr
        = bres_trace n (step_event_count b) (steps_z b) (counter_z st) /\
      counter_x (last tr st)
        = bres_final n (step_event_count b) (steps_x b) (counter_x st) /\
      counter_y (last tr st)
        = bres_final n (step_event_count b) (steps_y b) (counter_y st) /\
      counter_z (last tr st)
        = bres_final n (step_event_count b) (steps_z b) (counter_z st) /\
      step_events_completed (last tr st)
        = step_events_completed st + Z.of_nat n /\
      (step_events_completed st + Z.of_nat n < step_event_count b ->
         running q (last tr st)) /\
      (n <> O ->
       step_events_completed st + Z.of_nat n = step_event_count b ->
         finished q (last tr st)) /\
      Forall (running q) (removelast tr) /\
      chained block_event (st :: tr).
Proof.
  pose proof (b_count cfg b block_ok) as HN.
  induction n as [|n IH]; intros st Hrun Hsec Hle.
  - exists []. cbn [repeat ISR_trace length map bres_trace bres_final last
                    removelast Z.of_nat].
    rewrite Z.add_0_r.
    splits; try reflexivity; auto; [congruence|constructor].
  - destruct Hrun as (Hb & Hs & Hc & Hq).
    destruct (ISR_line_running st Hb Hs Hc) as (st' & HI & Hev & Hb' & Hs').
    destruct (line_event_progress q st st' Hq Hsec Hev Hb' Hs')
      as [Hgo Hend].
    pose proof Hev as (E1 & E2 & E3 & E4 & E5 & E6 & _).
    rewrite Nat2Z.inj_succ in *.
    destruct (Z.ltb_spec (step_events_completed st + 1) (step_event_count b))
      as [Hlt|Hge].
    + destruct (Hgo Hlt) as [Hsec' Hrun'].
      destruct (IH st' Hrun' ltac:(lia) ltac:(lia))
        as (tr & HT & Hl & M1 & M2 & M3 & F1 & F2 & F3 & Hn & Hr & Hf & Hall
            & Hch).
      exists (st' :: tr).
      cbn [repeat]. rewrite (ISR_trace_cons _ _ _ _ _ HI HT).
      rewrite !last_cons.
      cbn [map bres_trace bres_final length].
      rewrite M1, M2, M3, F1, F2, F3, E1, E2, E3, E4, E5, E6, Hl, Hn, Hsec'.
      splits; try reflexivity.
      * lia.
      * intros H. apply Hr. lia.
      * intros _ H. apply Hf; [|lia].
        intros ->. cbn in H. lia.
      * destruct tr as [|s tr]; [constructor|].
        change (removelast (st' :: s :: tr)) with (st' :: removelast (s :: tr)).
        constructor; assumption.
      * constructor; [|exact Hch]. split; [exact Hev|lia].
    + assert (n = O) by lia. subst n.
      destruct (Hend ltac:(lia)) as [Hsec' Hfin].
      exists [st'].
      cbn [repeat]. rewrite (ISR_trace_cons all_clear [] st st' [] HI eq_refl).
      cbn [map bres_trace bres_final length last removelast].
      rewrite E1, E2, E3, E4, E5, E6, Hsec'.
      splits; try reflexivity; try (cbn; lia).
      * intros _ _. exact Hfin.
      * constructor.
      * constructor; [|constructor]. split; [exact Hev|lia].
Qed.

(** Block [b] is the oldest block of the queue and has not been fetched. *)
Definition block_queued (q : list block) (st : state) : Prop :=
  busy st = false /\
  stop_requested st = false /\
  current_block st = None /\
  block_buffer (ext st) = b :: q.

Definition seed : Z := s32 (- Z.shiftr (step_event_count b) 1).

(** The whole block, from the run that fetches it to the run that releases
    it: [step_event_count] runs, and one run for a block of no events. *)
Lemma ISR_trace_block (q : list block) (st : state) :
  block_queued q st ->
  let n := Nat.max 1 (Z.to_nat (step_event_count b)) in
  exists s0 tr,
    ISR_trace cfg (repeat all_clear n) st = Ok tr /\
    step_events_completed s0 = 0 /\
    adjusted_rate s0 = u32 (initial_rate b) /\
    chained block_event (s0 :: tr) /\
    length tr = n /\
    map (x_step_set cfg) tr
      = bres_trace n (step_event_count b) (steps_x b) seed /\
    map (y_step_set cfg) tr
      = bres_trace n (step_event_count b) (steps_y b) seed /\
    map (z_step_set cfg) tr
      = bres_trace n (step_event_count b) (steps_z b) seed /\
    counter_x (last tr st)
      = bres_final n (step_event_count b) (steps_x b) seed /\
    counter_y (last tr st)
      = bres_final n (step_event_count b) (steps_y b) seed /\
    counter_z (last tr st)
      = bres_final n (step_event_count b) (steps_z b) seed /\
    finished q (last tr st) /\
    Forall (running q) (removelast tr).
Proof.
  intros (Hb & Hs & Hc & Hq). cbv zeta.
  pose proof (b_count cfg b block_ok) as HN.
  destruct (ISR_line_first st q Hb Hs Hc Hq)
    as (s0 & st1 & HI & S1 & S2 & S3 & S4 & S5 & S6 & Hev & Hb1 & Hs1).
  destruct (line_event_progress q s0 st1 S6 ltac:(lia) Hev Hb1 Hs1)
    as [Hgo Hend].
  pose proof Hev as (E1 & E2 & E3 & E4 & E5 & E6 & _).
  rewrite S1 in E1, E4. rewrite S2 in E2, E5. rewrite S3 in E3, E6.
  rewrite S4 in Hgo, Hend. fold seed in E1, E2, E3, E4, E5, E6.
  destruct (Z.ltb_spec 1 (step_event_count b)) as [Hlt|Hge].
  - destruct (Hgo ltac:(lia)) as [Hsec Hrun].
    assert (Hn : Nat.max 1 (Z.to_nat (step_event_count b))
                 = S (Z.to_nat (step_event_count b - 1))) by lia.
    rewrite Hn.
    destruct (ISR_trace_running q (Z.to_nat (step_event_count b - 1)) st1
                Hrun ltac:(lia) ltac:(lia))
      as (tr & HT & Hl & M1 & M2 & M3 & F1 & F2 & F3 & _ & _ & Hf & Hall
          & Hch).
    exists s0, (st1 :: tr).
    cbn [repeat]. rewrite (ISR_trace_cons _ _ _ _ _ HI HT).
    rewrite !last_cons.
    cbn [map bres_trace bres_final length].
    rewrite M1, M2, M3, F1, F2, F3, E1, E2, E3, E4, E5, E6, Hl.
    splits; try reflexivity; try assumption.
    + constructor; [|exact Hch]. split; [exact Hev|lia].
    + apply Hf; lia.
    + destruct tr as [|s tr]; [constructor|].
      change (removelast (st1 :: s :: tr)) with (st1 :: removelast (s :: tr)).
      constructor; assumption.
  - destruct (Hend ltac:(lia)) as [Hsec Hfin].
    assert (Hn : Nat.max 1 (Z.to_nat (step_event_count b)) = 1%nat) by lia.
    rewrite Hn.
    exists s0, [st1].
    cbn [repeat]. rewrite (ISR_trace_cons all_clear [] st st1 [] HI eq_refl).
    cbn [map bres_trace bres_final length last removelast].
    rewrite E1, E2, E3, E4, E5, E6.
    splits; try reflexivity; try assumption; [|constructor].
    constructor; [|constructor]. split; [exact Hev|lia].
Qed.

End LineBlock.

(** ** Step counts of a LINE block *)

(** C1.  A LINE block at the head of the queue, run with the sensors
    clear: over exactly [step_event_count] runs of the interrupt the tracer
    sets the step bit of each axis exactly [steps_x], [steps_y], [steps_z]
    times, and an axis whose step count is [step_event_count] has its bit
    set in every one of these runs.  The block stays current through all
    runs but the last, which releases it. *)
Theorem line_block_step_counts (cfg : config) (b : block) (q : list block)
    (st : state) :
  step_pins_ok cfg ->
  line_block_ok cfg b ->
  0 < MINIMUM_STEPS_PER_MINUTE cfg ->
  block_queued b q st ->
  exists tr,
    ISR_trace cfg (repeat all_clear (Z.to_nat (step_event_count b))) st
    = Ok tr /\
    length tr = Z.to_nat (step_event_count b) /\
    count_true (map (x_step_set cfg) tr) = steps_x b /\
    count_true (map (y_step_set cfg) tr) = steps_y b /\
    count_true (map (z_step_set cfg) tr) = steps_z b /\
    (steps_x b = step_event_count b ->
       Forall (fun s => x_step_set cfg s = true) tr) /\
    (steps_y b = step_event_count b ->
       Forall (fun s => y_step_set cfg s = true) tr) /\
    (steps_z b = step_event_count b ->
       Forall (fun s => z_step_set cfg s = true) tr) /\
    Forall (running b q) (removelast tr) /\
    (0 < step_event_count b -> finished q (last tr st)).
Proof.
  intros Hpins Hblk Hmin Hq.
  pose proof (b_count cfg b Hblk) as HN.
  pose proof (b_steps_x cfg b Hblk) as Hx.
  pose proof (b_steps_y cfg b Hblk) as Hy.
  pose proof (b_steps_z cfg b Hblk) as Hz.
  destruct (Z.eq_dec (step_event_count b) 0) as [E0|Hpos].
  - rewrite E0 in *. exists []. cbn.
    unfold count_true. cbn.
    splits; try reflexivity; try lia; try constructor.
  - destruct (ISR_trace_block cfg b Hpins Hblk Hmin q st Hq)
      as (s0 & tr & HT & _ & _ & _ & Hl & M1 & M2 & M3 & _ & _ & _ & Hfin
          & Hall).
    assert (Hn : Nat.max 1 (Z.to_nat (step_event_count b))
                 = Z.to_nat (step_event_count b)) by lia.
    rewrite Hn in *.
    destruct (bres_cycle (step_event_count b) (steps_x b) Hx ltac:(lia))
      as (Cx & _ & Dx).
    destruct (bres_cycle (step_event_count b) (steps_y b) Hy ltac:(lia))
      as (Cy & _ & Dy).
    destruct (bres_cycle (step_event_count b) (steps_z b) Hz ltac:(lia))
      as (Cz & _ & Dz).
    fold (seed b) in Cx, Cy, Cz, Dx, Dy, Dz.
    exists tr. rewrite M1, M2, M3.
    splits; try assumption; try reflexivity.
    + intros E. specialize (Dx E). rewrite <- M1 in Dx.
      now apply Forall_map in Dx.
    + intros E. specialize (Dy E). rewrite <- M2 in Dy.
      now apply Forall_map in Dy.
    + intros E. specialize (Dz E). rewrite <- M3 in Dz.
      now apply Forall_map in Dz.
    + intros _. exact Hfin.
Qed.

(** The block of the worked example: 4 steps of X, 6 of Y, 6 events. *)
Definition example_line : block :=
  {| type := TYPE_LINE;
     steps_x := 4; steps_y := 6; steps_z := 0;
     direction_bits := 0;
     step_event_count := 6;
     nominal_rate := 30000; initial_rate := 20000; final_rate := 20000;
     rate_delta := 1000;
     accelerate_until := 2; decelerate_after := 4;
     nominal_laser_intensity := 0 |}.

(** The driver at rest with the blocks [bs] queued. *)
Definition queued_state (bs : list block) : state :=
  upd_ext (set_block_buffer bs) power_on_state.

Lemma example_line_ok : line_block_ok sample_config example_line.
Proof. constructor; cbn; try lia; reflexivity. Qed.

Lemma line_block_step_counts_witness :
  exists tr,
    ISR_trace sample_config (repeat all_clear 6) (queued_state [example_line])
    = Ok tr /\
    count_true (map (x_step_set sample_config) tr) = 4 /\
    count_true (map (y_step_set sample_config) tr) = 6.
Proof.
  destruct (line_block_step_counts sample_config example_line []
              (queued_state [example_line])
              sample_config_step_pins_ok example_line_ok eq_refl)
    as (tr & HT & _ & Cx & Cy & _).
  - repeat split.
  - exists tr. splits; assumption.
Defined.

(** The worked example run: Y steps at every event, X at events 1, 3, 4
    and 6. *)
Example example_line_step_pattern :
  match ISR_trace sample_config (repeat all_clear 6)
          (queued_state [example_line]) with
  | Ok tr =>
      map (x_step_set sample_config) tr
        = [true; false; true; true; false; true] /\
      map (y_step_set sample_config) tr
        = [true; true; true; true; true; true] /\
      map (fun s => counter_x s) tr = [-5; -1; -3; -5; -1; -3] /\
      map (fun s => X_AXIS (stepper_position s)) tr = [1; 1; 2; 3; 3; 4] /\
      map (fun s => Y_AXIS (stepper_position s)) tr = [1; 2; 3; 4; 5; 6]
  | Fault _ => False
  end.
Proof. vm_compute. splits; reflexivity. Qed.

(** C8.  When a LINE block completes (after [step_event_count] events;
    after one event if the block has none), each of the three counters is
    back at the value the block start gave it, [-(step_event_count >> 1)]:
    a following block with the same step counts starts from the same tracer
    state. *)
Theorem line_block_counters_return (cfg : config) (b : block) (q : list block)
    (st : state) :
  step_pins_ok cfg ->
  line_block_ok cfg b ->
  0 < MINIMUM_STEPS_PER_MINUTE cfg ->
  block_queued b q st ->
  exists tr,
    ISR_trace cfg
      (repeat all_clear (Nat.max 1 (Z.to_nat (step_event_count b)))) st
    = Ok tr /\
    Forall (running b q) (removelast tr) /\
    finished q (last tr st) /\
    counter_x (last tr st) = s32 (- Z.shiftr (step_event_count b) 1) /\
    counter_y (last tr st) = s32 (- Z.shiftr (step_event_count b) 1) /\
    counter_z (last tr st) = s32 (- Z.shiftr (step_event_count b) 1) /\
    s32 (- Z.shiftr (step_event_count b) 1) = - (step_event_count b / 2).
Proof.
  intros Hpins Hblk Hmin Hq.
  pose proof (b_count cfg b Hblk) as HN.
  pose proof (b_steps_x cfg b Hblk) as Hx.
  pose proof (b_steps_y cfg b Hblk) as Hy.
  pose proof (b_steps_z cfg b Hblk) as Hz.
  destruct (ISR_trace_block cfg b Hpins Hblk Hmin q st Hq)
    as (s0 & tr & HT & _ & _ & _ & _ & _ & _ & _ & F1 & F2 & F3 & Hfin
        & Hall).
  exists tr. rewrite F1, F2, F3.
  assert (Hseed : s32 (- Z.shiftr (step_event_count b) 1)
                  = - (step_event_count b / 2)).
  { rewrite Z.shiftr_div_pow2 by lia. change (2 ^ 1) with 2.
    apply s32_small.
    pose proof (Z.mul_div_le (step_event_count b) 2 eq_refl).
    assert (0 <= step_event_count b / 2) by (apply Z.div_pos; lia). lia. }
  splits; try assumption.
  all: unfold seed.
  all: destruct (Z.eq_dec (step_event_count b) 0) as [E0|Hpos].
  all: try (rewrite E0 in *;
            replace (steps_x b) with 0 by lia;
            replace (steps_y b) with 0 by lia;
            replace (steps_z b) with 0 by lia;
            reflexivity).
  all: replace (Nat.max 1 (Z.to_nat (step_event_count b)))
         with (Z.to_nat (step_event_count b)) by lia.
  - apply (bres_cycle (step_event_count b) (steps_x b) Hx); lia.
  - apply (bres_cycle (step_event_count b) (steps_y b) Hy); lia.
  - apply (bres_cycle (step_event_count b) (steps_z b) Hz); lia.
Qed.

Lemma line_block_counters_return_witness :
  exists tr,
    ISR_trace sample_config (repeat all_clear 6) (queued_state [example_line])
    = Ok tr /\
    counter_x (last tr (queued_state [example_line])) = -3.
Proof.
  destruct (line_block_counters_return sample_config example_line []
              (queued_state [example_line])
              sample_config_step_pins_ok example_line_ok eq_refl)
    as (tr & HT & _ & _ & Cx & _).
  - repeat split.
  - exists tr. split; [exact HT|exact Cx].
Defined.

(** ** Bounds of the adjusted rate *)

(** The rates and phase boundaries of a LINE block as the spec has
    them. *)
Record rates_ok (b : block) : Prop := {
  r_initial : 0 <= initial_rate b <= nominal_rate b;
  r_nominal : nominal_rate b < 2 ^ 32;
  r_final : 0 <= final_rate b <= nominal_rate b;
  r_delta : 0 < rate_delta b;
  r_phases :
    0 <= accelerate_until b <= decelerate_after b
    /\ decelerate_after b <= step_event_count b
}.

(** The bounds C2 asks of a state of the block being traced. *)
Definition rate_within_bounds (b : block) (st : state) : Prop :=
  (step_events_completed st < accelerate_until b ->
     adjusted_rate st <= nominal_rate b) /\
  (decelerate_after b <= step_events_completed st ->
     final_rate b <= adjusted_rate st).

(** The claim of C2 as it reads: the bounds hold in every state the
    interrupt leaves while block [b] is being traced. *)
Definition rate_bounds_claim (cfg : config) (b : block) (st : state)
    (n : nat) : Prop :=
  forall tr,
    ISR_trace cfg (repeat all_clear n) st = Ok tr ->
    Forall (fun s => current_block s = Some b -> rate_within_bounds b s) tr.

(** A short block entered at 20000 steps/min that is to leave at 30000:
    one event of acceleration, then deceleration. *)
Definition short_ramp : block :=
  {| type := TYPE_LINE;
     steps_x := 10; steps_y := 0; steps_z := 0;
     direction_bits := 0;
     step_event_count := 10;
     nominal_rate := 40000; initial_rate := 20000; final_rate := 30000;
     rate_delta := 1000;
     accelerate_until := 2; decelerate_after := 2;
     nominal_laser_intensity := 0 |}.

Lemma short_ramp_ok :
  line_block_ok sample_config short_ramp /\ rates_ok short_ramp.
Proof. split; constructor; cbn; try lia; reflexivity. Qed.

(** The rate of [short_ramp] event by event: no acceleration tick falls
    into its one accelerating event, so the deceleration phase is entered
    at 20000, below the final rate, and stays there until the first
    deceleration tick (event 4) clamps it to 30000. *)
Example short_ramp_rates :
  match ISR_trace sample_config (repeat all_clear 5)
          (queued_state [short_ramp]) with
  | Ok tr =>
      map (fun s => (step_events_completed s, adjusted_rate s)) tr
      = [(1, 20000); (2, 20000); (3, 20000); (4, 30000); (5, 30000)]
  | Fault _ => False
  end.
Proof. vm_compute. reflexivity. Qed.

(** After its third event [short_ramp] is in its deceleration phase
    (3 >= 2) at 20000 steps/min, below its final rate of 30000. *)
Lemma rate_below_final_example :
  rates_ok short_ramp /\
  ~ rate_bounds_claim sample_config short_ramp (queued_state [short_ramp]) 3.
Proof.
  split; [apply short_ramp_ok|].
  unfold rate_bounds_claim. intros H.
  destruct (ISR_trace sample_config (repeat all_clear 3)
              (queued_state [short_ramp])) as [tr|f] eqn:E;
    vm_compute in E; [|discriminate E].
  specialize (H tr eq_refl).
  inversion E; subst tr; clear E.
  inversion H as [|s1 l1 _ H1]; subst.
  inversion H1 as [|s2 l2 _ H2]; subst.
  inversion H2 as [|s3 l3 H3 _]; subst.
  destruct (H3 eq_refl) as [_ Hlow].
  vm_compute in Hlow.
  apply Hlow; [discriminate|reflexivity].
Qed.

Section RateBounds.

Variable cfg : config.
Variable b : block.
Hypothesis rates : rates_ok b.

Lemma accelerating_below_nominal (pre post : state) :
  block_event cfg b pre post ->
  adjusted_rate pre <= nominal_rate b ->
  adjusted_rate post <= nominal_rate b
  \/ accelerate_until b <= step_events_completed post.
Proof.
  intros [Hev Hsec] Hpre.
  destruct Hev as (_ & _ & _ & _ & _ & _ & E7 & E8 & _).
  rewrite u32_small in E7, E8 by lia.
  rewrite E7, E8. unfold rate_after. cbv zeta.
  destruct (_ <? step_event_count b); [|left; exact Hpre].
  destruct (Z.ltb_spec (step_events_completed pre + 1) (accelerate_until b));
    [|right; lia].
  left. destruct (tick_due cfg pre); [|exact Hpre].
  destruct (Z.ltb_spec (nominal_rate b)
              (u32 (adjusted_rate pre + rate_delta b))); lia.
Qed.

(** Acceleration phase: the rate, at most nominal before an event, is at
    most nominal after it as long as the event is an accelerating one. *)
Lemma accel_bound_step (pre post : state) :
  block_event cfg b pre post ->
  (step_events_completed pre < accelerate_until b ->
     adjusted_rate pre <= nominal_rate b) ->
  (step_events_completed post < accelerate_until b ->
     adjusted_rate post <= nominal_rate b).
Proof.
  intros Hev Hpre Hpost.
  pose proof Hev as [(_ & _ & _ & _ & _ & _ & E7 & _) Hsec].
  rewrite u32_small in E7 by lia.
  destruct (accelerating_below_nominal pre post Hev) as [H|H];
    [apply Hpre; lia|exact H|lia].
Qed.

(** Deceleration phase: at or above the final rate before an event, at or
    above it after. *)
Lemma decel_bound_step (pre post : state) :
  block_event cfg b pre post ->
  decelerate_after b <= step_events_completed pre
  /\ final_rate b <= adjusted_rate pre ->
  decelerate_after b <= step_events_completed post
  /\ final_rate b <= adjusted_rate post.
Proof.
  intros [Hev Hsec] [Hda Hpre].
  destruct (r_phases b rates) as [Hau _].
  destruct Hev as (_ & _ & _ & _ & _ & _ & E7 & E8 & _).
  rewrite u32_small in E7, E8 by lia.
  rewrite E7, E8. split; [lia|]. unfold rate_after. cbv zeta.
  destruct (_ <? step_event_count b); [|exact Hpre].
  destruct (Z.ltb_spec (step_events_completed pre + 1) (accelerate_until b));
    [lia|].
  destruct (Z.eqb_spec (step_events_completed pre + 1) (decelerate_after b));
    [exact Hpre|].
  destruct (Z.leb_spec (decelerate_after b) (step_events_completed pre + 1));
    [|lia].
  destruct (tick_due cfg pre); [|exact Hpre].
  destruct (Z.ltb_spec (u32 (adjusted_rate pre - rate_delta b))
              (final_rate b)); lia.
Qed.

(** A deceleration tick leaves the rate at or above the final rate,
    whatever it was. *)
Lemma decel_tick_clamps (pre post : state) :
  block_event cfg b pre post ->
  decelerate_after b < step_events_completed post < step_event_count b ->
  tick_due cfg pre = true ->
  final_rate b <= adjusted_rate post.
Proof.
  intros [Hev Hsec] Hpost Htick.
  destruct (r_phases b rates) as [Hau _].
  destruct Hev as (_ & _ & _ & _ & _ & _ & E7 & E8 & _).
  rewrite u32_small in E7, E8 by lia.
  rewrite E7 in Hpost. rewrite E8, Htick. unfold rate_after. cbv zeta.
  destruct (Z.ltb_spec (step_events_completed pre + 1) (step_event_count b));
    [|lia].
  destruct (Z.ltb_spec (step_events_completed pre + 1) (accelerate_until b));
    [lia|].
  destruct (Z.eqb_spec (step_events_completed pre + 1) (decelerate_after b));
    [lia|].
  destruct (Z.leb_spec (decelerate_after b) (step_events_completed pre + 1));
    [|lia].
  destruct (Z.ltb_spec (u32 (adjusted_rate pre - rate_delta b))
              (final_rate b)); lia.
Qed.

End RateBounds.

(** C2 (amended).  Through a whole LINE block with [initial_rate] and
    [final_rate] at most [nominal_rate]: in every state of the acceleration
    phase [adjusted_rate] is at most [nominal_rate]; in the deceleration
    phase, from any state in which [adjusted_rate] is at or above
    [final_rate] on it stays at or above it, and every deceleration tick
    leaves it at or above [final_rate].  (The phase can be entered below
    [final_rate]; the rate then stays below until the first tick.) *)
Theorem rate_bounds_by_phase (cfg : config) (b : block) (q : list block)
    (st : state) :
  step_pins_ok cfg ->
  line_block_ok cfg b ->
  0 < MINIMUM_STEPS_PER_MINUTE cfg ->
  rates_ok b ->
  block_queued b q st ->
  exists tr,
    ISR_trace cfg
      (repeat all_clear (Nat.max 1 (Z.to_nat (step_event_count b)))) st
    = Ok tr /\
    Forall (running b q) (removelast tr) /\
    finished q (last tr st) /\
    Forall (fun s => step_events_completed s < accelerate_until b ->
                     adjusted_rate s <= nominal_rate b) tr /\
    (forall pre s post,
       tr = pre ++ s :: post ->
       decelerate_after b <= step_events_completed s ->
       final_rate b <= adjusted_rate s ->
       Forall (fun s' => final_rate b <= adjusted_rate s') post) /\
    (forall pre s s' post,
       tr = pre ++ s :: s' :: post ->
       decelerate_after b < step_events_completed s' < step_event_count b ->
       tick_due cfg s = true ->
       final_rate b <= adjusted_rate s').
Proof.
  intros Hpins Hblk Hmin Hrates Hq.
  destruct (ISR_trace_block cfg b Hpins Hblk Hmin q st Hq)
    as (s0 & tr & HT & S1 & S2 & Hch & _ & _ & _ & _ & _ & _ & _ & Hfin
        & Hall).
  exists tr. splits; try assumption.
  - apply (chained_Forall (block_event cfg b) _
             (accel_bound_step cfg b) tr s0 Hch).
    intros _. rewrite S2.
    pose proof (r_initial b Hrates). pose proof (r_nominal b Hrates).
    rewrite u32_small by lia. lia.
  - intros pre s post -> Hda Hfinal.
    change (s0 :: pre ++ s :: post) with ((s0 :: pre) ++ s :: post) in Hch.
    apply chained_tail in Hch.
    pose proof (chained_Forall (block_event cfg b) _
                  (decel_bound_step cfg b Hrates) post s Hch
                  (conj Hda Hfinal)) as HF.
    eapply Forall_impl; [|exact HF]. intros a [_ Ha]. exact Ha.
  - intros pre s s' post -> Hpos Htick.
    change (s0 :: pre ++ s :: s' :: post)
      with ((s0 :: pre) ++ s :: s' :: post) in Hch.
    apply chained_pair in Hch.
    exact (decel_tick_clamps cfg b Hrates s s' Hch Hpos Htick).
Qed.

Lemma rate_bounds_by_phase_witness :
  exists tr,
    ISR_trace sample_config (repeat all_clear 10) (queued_state [short_ramp])
    = Ok tr /\
    Forall (fun s => step_events_completed s < 2 -> adjusted_rate s <= 40000)
           tr.
Proof.
  destruct short_ramp_ok as [Hblk Hrates].
  destruct (rate_bounds_by_phase sample_config short_ramp []
              (queued_state [short_ramp])
              sample_config_step_pins_ok Hblk eq_refl Hrates)
    as (tr & HT & _ & _ & Hacc & _).
  - repeat split.
  - exists tr. split; [exact HT|exact Hacc].
Defined.

(** * Further properties of the driver *)

(** ** What [config_step_timer] programs *)

Lemma small_testbit_high (a i : Z) :
  0 <= a < 8 -> 3 <= i -> Z.testbit a i = false.
Proof.
  intros Ha Hi.
  destruct (Z.eq_dec a 0) as [->|Hne]; [apply Z.testbit_0_l|].
  apply Z.bits_above_log2; [lia|].
  assert (Z.log2 a < 3) by (apply Z.log2_lt_pow2; lia). lia.
Qed.

Lemma prescaler_range (cycles : Z) :
  0 <= prescaler (step_timer_setting cycles) <= 4.
Proof.
  unfold step_timer_setting.
  repeat match goal with
  | |- context [if ?c then _ else _] => destruct c
  end; cbn [prescaler]; lia.
Qed.

(** X1.  For a request the timer can represent (at most 0x3ffffff cycles)
    the period programmed into Timer1, reload value times clock division,
    is the value returned; it is the request rounded down to a multiple of
    the division, the reload value fits 16 bits, and no smaller division
    would have fitted.  Of TCCR1B only the three clock select bits change:
    they hold [prescaler+1]. *)
Theorem config_step_timer_programs_period (cycles : Z) (st : state) :
  0 <= cycles <= 0x3ffffff ->
  let r := config_step_timer cycles st in
  let d := prescaler_divisor (prescaler (step_timer_setting cycles)) in
  OCR1A (regs (snd r)) * d = fst r /\
  0 <= OCR1A (regs (snd r)) <= 0xffff /\
  fst r = cycles / d * d /\
  cycles - d < fst r <= cycles /\
  (forall d', In d' [1; 8; 64; 256; 1024] -> d' < d -> 0xffff < cycles / d') /\
  (forall i, 0 <= i < 3 ->
     Z.testbit (TCCR1B (regs (snd r))) i
     = Z.testbit (prescaler (step_timer_setting cycles) + 1) i) /\
  (forall i, 3 <= i < 8 ->
     Z.testbit (TCCR1B (regs (snd r))) i = Z.testbit (TCCR1B (regs st)) i).
Proof.
  intros H. cbv zeta.
  rewrite config_step_timer_actual, config_step_timer_OCR1A.
  destruct (step_timer_setting_tiers cycles H) as (Hd & Hc & Ha & Hr).
  cbv zeta in *.
  pose proof (prescaler_range cycles) as Hp.
  assert (Hq : 0 <= ceiling (step_timer_setting cycles) <= 0xffff).
  { unfold step_timer_setting.
    repeat match goal with
    | |- context [if ?c then _ else _] => destruct c
    end; cbn [ceiling]; unfold u16;
    match goal with
    | |- 0 <= ?a mod ?m <= _ =>
        pose proof (Z.mod_pos_bound a m eq_refl); lia
    end. }
  split; [rewrite Hc, Ha; reflexivity|].
  split; [exact Hq|]. split; [exact Ha|]. split; [exact Hr|].
  split; [|split].
  - intros d' Hin Hlt.
    assert (Hdiv : forall k, 0 < k -> 0xffff * k + k <= cycles ->
                             0xffff < cycles / k).
    { intros k Hk Hle.
      assert (0x10000 <= cycles / k)
        by (apply Z.div_le_lower_bound; lia).
      lia. }
    revert Hlt. clear Hd Hc Ha Hr Hq.
    unfold step_timer_setting.
    repeat match goal with
    | |- context [cycles <=? ?c] => destruct (Z.leb_spec cycles c)
    end; cbn [prescaler];
    cbn [In] in Hin;
    repeat match type of Hin with
    | _ \/ _ => destruct Hin as [<-|Hin]
    | False => destruct Hin
    end;
    intros Hlt; vm_compute in Hlt; try discriminate Hlt; apply Hdiv; lia.
  - intros i Hi. unfold config_step_timer. cbv zeta. cbn [snd]. fields.
    rewrite u8_testbit by lia.
    unfold AVR.CS10. rewrite !Z.shiftl_0_r.
    rewrite Z.lor_spec, Z.land_spec, Z.lnot_spec by lia.
    replace (Z.testbit 7 i) with true
      by (assert (i = 0 \/ i = 1 \/ i = 2) as [->|[->| ->]] by lia;
          reflexivity).
    cbn [negb]. now rewrite andb_false_r.
  - intros i Hi. unfold config_step_timer. cbv zeta. cbn [snd]. fields.
    rewrite u8_testbit by lia.
    unfold AVR.CS10. rewrite !Z.shiftl_0_r.
    rewrite Z.lor_spec, Z.land_spec, Z.lnot_spec by lia.
    rewrite (small_testbit_high 7 i) by lia.
    rewrite (small_testbit_high (prescaler (step_timer_setting cycles) + 1) i)
      by lia.
    cbn [negb]. now rewrite andb_true_r, orb_false_r.
Qed.

Lemma config_step_timer_programs_period_witness :
  OCR1A (regs (snd (config_step_timer 70000 power_on_state))) * 8
  = fst (config_step_timer 70000 power_on_state).
Proof.
  apply (config_step_timer_programs_period 70000 power_on_state). lia.
Defined.

Lemma floor_above_multiple (c d k : Z) :
  0 < d -> k * d <= c -> k * d <= c / d * d.
Proof.
  intros Hd Hk.
  assert (k <= c / d) by (apply Z.div_le_lower_bound; lia).
  nia.
Qed.

(** X2.  Below the clamp the quantizer is monotone: a longer requested
    period never gives a shorter actual one, across the tiers as well. *)
Theorem step_timer_setting_monotone (c1 c2 : Z) :
  0 <= c1 -> c1 <= c2 -> c2 <= 0x3ffffff ->
  actual_cycles (step_timer_setting c1) <= actual_cycles (step_timer_setting c2).
Proof.
  intros H0 H12 H2.
  destruct (step_timer_setting_tiers c1 ltac:(lia)) as (_ & _ & A1 & R1).
  destruct (step_timer_setting_tiers c2 ltac:(lia)) as (_ & _ & A2 & R2).
  cbv zeta in *. rewrite A1, A2 in *. clear A1 A2.
  assert (P1 := prescaler_range c1). assert (P2 := prescaler_range c2).
  revert R1 R2.
  unfold step_timer_setting.
  repeat match goal with
  | |- context [c1 <=? ?c] => destruct (Z.leb_spec c1 c)
  end; try lia;
  repeat match goal with
  | |- context [c2 <=? ?c] => destruct (Z.leb_spec c2 c)
  end; try lia;
  cbn [prescaler];
  match goal with
  | |- context [prescaler_divisor ?a] =>
      match goal with
      | |- context [c2 / prescaler_divisor ?e] =>
          let da := eval cbv in (prescaler_divisor a) in
          let de := eval cbv in (prescaler_divisor e) in
          change (prescaler_divisor a) with da;
          change (prescaler_divisor e) with de
      end
  end;
  intros R1 R2;
  first
    [ (* same tier *)
      match goal with
      | |- ?a / ?d * ?d <= ?e / ?d * ?d =>
          assert (a / d <= e / d) by (apply Z.div_le_mono; lia); lia
      end
    | (* a coarser tier starts on one of its own multiples *)
      match goal with
      | |- _ <= c2 / 8 * 8 =>
          pose proof (floor_above_multiple c2 8 8192 ltac:(lia) ltac:(lia))
      | |- _ <= c2 / 64 * 64 =>
          pose proof (floor_above_multiple c2 64 8192 ltac:(lia) ltac:(lia))
      | |- _ <= c2 / 256 * 256 =>
          pose proof (floor_above_multiple c2 256 16384 ltac:(lia) ltac:(lia))
      | |- _ <= c2 / 1024 * 1024 =>
          pose proof (floor_above_multiple c2 1024 16384 ltac:(lia) ltac:(lia))
      end; lia ].
Qed.

Lemma step_timer_setting_monotone_witness :
  actual_cycles (step_timer_setting 65535)
  <= actual_cycles (step_timer_setting 65541).
Proof. apply step_timer_setting_monotone; lia. Defined.

(** ** The acceleration tick accumulator *)

(** X3.  [acceleration_tick] adds one step period to the accumulator and
    reports a tick exactly when the sum exceeds the tick period, which it
    then takes off: no cycle is lost.  As long as a step period is at most
    a tick period the accumulator stays within one tick period; with a
    longer step period every call ticks and the accumulator grows by the
    excess.  Nothing else of the driver changes. *)
Theorem acceleration_tick_accumulates (cfg : config) (st : state) :
  0 <= CYCLES_PER_ACCELERATION_TICK cfg ->
  0 <= acceleration_tick_counter st ->
  0 <= cycles_per_step_event st ->
  acceleration_tick_counter st + cycles_per_step_event st < 2 ^ 32 ->
  let T := CYCLES_PER_ACCELERATION_TICK cfg in
  let tick := fst (acceleration_tick cfg st) in
  let st' := snd (acceleration_tick cfg st) in
  (tick = true <->
     T < acceleration_tick_counter st + cycles_per_step_event st) /\
  acceleration_tick_counter st' + (if tick then T else 0)
  = acceleration_tick_counter st + cycles_per_step_event st /\
  (acceleration_tick_counter st <= T -> cycles_per_step_event st <= T ->
     0 <= acceleration_tick_counter st' <= T) /\
  (T < cycles_per_step_event st ->
     tick = true /\
     acceleration_tick_counter st'
     = acceleration_tick_counter st + (cycles_per_step_event st - T)) /\
  set_acceleration_tick_counter (acceleration_tick_counter st) st' = st.
Proof.
  intros HT Hc Hs Hsum. cbv zeta.
  unfold acceleration_tick. cbv zeta. fields.
  rewrite (u32_small (acceleration_tick_counter st + cycles_per_step_event st))
    by lia.
  destruct (Z.ltb_spec (CYCLES_PER_ACCELERATION_TICK cfg)
              (acceleration_tick_counter st + cycles_per_step_event st))
    as [Hlt|Hge]; cbn [fst snd]; fields;
    rewrite ?u32_small by lia.
  - splits; try lia; try tauto; try (destruct st; reflexivity);
      try (intros; split; [reflexivity|lia]).
  - splits; try lia; try (destruct st; reflexivity);
      try (split; [discriminate|lia]).
Qed.

(** A state in the middle of a block at 12000 steps/min on
    [sample_config]: 80000 cycles per step, half a tick accumulated. *)
Definition cruising_example : state :=
  set_cycles_per_step_event 80000
    (set_acceleration_tick_counter 80000 power_on_state).

Lemma acceleration_tick_accumulates_witness :
  acceleration_tick_counter (snd (acceleration_tick sample_config cruising_example))
  + (if fst (acceleration_tick sample_config cruising_example)
     then CYCLES_PER_ACCELERATION_TICK sample_config else 0)
  = 160000.
Proof.
  apply (acceleration_tick_accumulates sample_config cruising_example);
    vm_compute; congruence.
Defined.

(** ** The period [adjust_speed] programs *)




(** The driver tracing [example_line]. *)
Definition tracing_example : state :=
  set_current_block (Some example_line) (queued_state [example_line]).


(** ** The step and direction pins *)

(** X5.  "Pulse steppers" puts [out_bits] on every step and direction pin
    of the port and starts Timer2; the reset interrupt that follows brings
    the step pins back to their rest level (the invert mask), leaves every
    other pin, the direction pins included, as the pulse set it, and stops
    Timer2.  Neither touches the tracer, the queue or the flags of the
    driver. *)
Theorem pulse_then_reset (cfg : config) (st : state) :
  let p := pulse_steppers cfg st in
  let r := TIMER2_OVF_vect cfg p in
  (forall i, 0 <= i < 8 ->
     Z.testbit (Z.lor (STEPPING_MASK cfg) (DIRECTION_MASK cfg)) i = true ->
     Z.testbit (STEPPING_PORT (regs p)) i = Z.testbit (out_bits st) i) /\
  TCCR2B (regs p) = 2 /\
  emitted (ext p) = StepPulse (STEPPING_PORT (regs p)) :: emitted (ext st) /\
  (forall i, 0 <= i < 8 -> Z.testbit (STEPPING_MASK cfg) i = true ->
     Z.testbit (STEPPING_PORT (regs r)) i = Z.testbit (INVERT_MASK cfg) i) /\
  (forall i, 0 <= i < 8 -> Z.testbit (STEPPING_MASK cfg) i = false ->
     Z.testbit (STEPPING_PORT (regs r)) i = Z.testbit (STEPPING_PORT (regs p)) i) /\
  TCCR2B (regs r) = 0 /\
  out_bits r = out_bits st /\
  stepper_position r = stepper_position st /\
  current_block r = current_block st /\
  block_buffer (ext r) = block_buffer (ext st) /\
  emitted (ext r) = emitted (ext p).
Proof.
  cbv zeta. unfold TIMER2_OVF_vect, pulse_steppers. fields.
  splits; try reflexivity.
  - intros i Hi Hm. rewrite Z.lor_spec in Hm.
    rewrite !u8_testbit, !Z.lor_spec, !Z.land_spec, !Z.lnot_spec by lia.
    rewrite !u8_testbit, !Z.lor_spec, !Z.land_spec, !Z.lnot_spec by lia.
    destruct (Z.testbit (STEPPING_MASK cfg) i),
             (Z.testbit (DIRECTION_MASK cfg) i),
             (Z.testbit (out_bits st) i),
             (Z.testbit (STEPPING_PORT (regs st)) i);
      try reflexivity; discriminate Hm.
  - intros i Hi Hm.
    rewrite u8_testbit, Z.lor_spec, !Z.land_spec, Z.lnot_spec by lia.
    rewrite Hm. cbn [negb]. now rewrite andb_false_r, andb_true_r.
  - intros i Hi Hm.
    rewrite u8_testbit, Z.lor_spec, !Z.land_spec, Z.lnot_spec by lia.
    rewrite Hm. cbn [negb]. now rewrite andb_true_r, andb_false_r, orb_false_r.
Qed.

Lemma pulse_then_reset_witness :
  Z.testbit
    (STEPPING_PORT
       (regs (pulse_steppers sample_config
                (set_out_bits 9 power_on_state)))) 0
  = Z.testbit 9 0.
Proof.
  destruct (pulse_then_reset sample_config (set_out_bits 9 power_on_state))
    as (H & _).
  apply H; [lia|reflexivity].
Defined.

(** ** The interrupt never goes wrong *)

(** The flags the foreground shares with the interrupt, and the record of
    emitted pulses. *)
Definition same_flags (st st' : state) : Prop :=
  busy st' = busy st /\
  stop_requested st' = stop_requested st /\
  stop_status st' = stop_status st /\
  emitted (ext st') = emitted (ext st).

Lemma same_flags_refl (st : state) : same_flags st st.
Proof. repeat split. Qed.

Lemma same_flags_trans (a b c : state) :
  same_flags a b -> same_flags b c -> same_flags a c.
Proof.
  unfold same_flags.
  intros (A1 & A2 & A3 & A4) (B1 & B2 & B3 & B4).
  splits; congruence.
Qed.

Lemma adjust_speed_flags (cfg : config) (rate : Z) (st : state) (b : block) :
  0 < MINIMUM_STEPS_PER_MINUTE cfg ->
  current_block st = Some b ->
  exists st',
    adjust_speed cfg rate st = Ok st' /\
    same_flags st st' /\ current_block st' = Some b.
Proof.
  intros Hmin Hb.
  destruct (adjust_speed_with_block cfg Hmin rate st b Hb)
    as (st' & H & _ & A1 & _ & _ & _ & _ & _ & _ & _ & _ & A8 & A9 & A10
        & A11 & _ & A13).
  exists st'. unfold same_flags. splits; assumption.
Qed.

Lemma acceleration_tick_flags (cfg : config) (st : state) :
  same_flags st (snd (acceleration_tick cfg st)) /\
  current_block (snd (acceleration_tick cfg st)) = current_block st.
Proof.
  unfold acceleration_tick, same_flags. cbv zeta. fields.
  destruct (_ <? _); cbn [snd]; fields; splits; reflexivity.
Qed.

Lemma speed_adjustment_flags (cfg : config) (b : block) (st : state) :
  0 < MINIMUM_STEPS_PER_MINUTE cfg ->
  current_block st = Some b ->
  exists st', speed_adjustment cfg b st = Ok st' /\ same_flags st st'.
Proof.
  intros Hmin Hcur. unfold speed_adjustment.
  destruct (acceleration_tick_flags cfg st) as [Tf Tc].
  destruct (acceleration_tick cfg st) as [tick st1]. cbn [snd] in Tf, Tc.
  assert (Hadj : forall st0 r,
            same_flags st st0 -> current_block st0 = Some b ->
            exists st',
              adjust_speed cfg (adjusted_rate (set_adjusted_rate r st0))
                (set_adjusted_rate r st0) = Ok st' /\ same_flags st st').
  { intros st0 r Hf Hc.
    destruct (adjust_speed_flags cfg (adjusted_rate (set_adjusted_rate r st0))
                (set_adjusted_rate r st0) b Hmin Hc) as (st' & H & F & _).
    exists st'. split; [exact H|].
    eapply same_flags_trans; [exact Hf|exact F]. }
  destruct (step_events_completed st <? step_event_count b).
  2:{ eexists. split; [reflexivity|]. repeat split. }
  destruct (step_events_completed st <? accelerate_until b).
  { destruct tick; [|exists st1; split; [reflexivity|exact Tf]].
    cbv zeta. fields.
    destruct (nominal_rate b <? u32 (adjusted_rate st1 + rate_delta b)).
    - apply (Hadj (set_adjusted_rate _ st1) (nominal_rate b));
        [exact Tf|now rewrite <- Tc in Hcur].
    - apply (Hadj st1 (u32 (adjusted_rate st1 + rate_delta b)));
        [exact Tf|now rewrite <- Tc in Hcur]. }
  destruct (step_events_completed st =? decelerate_after b).
  { eexists. split; [reflexivity|]. repeat split. }
  destruct (decelerate_after b <=? step_events_completed st).
  { destruct tick; [|exists st1; split; [reflexivity|exact Tf]].
    cbv zeta. fields.
    destruct (u32 (adjusted_rate st1 - rate_delta b) <? final_rate b).
    - apply (Hadj (set_adjusted_rate _ st1) (final_rate b));
        [exact Tf|now rewrite <- Tc in Hcur].
    - apply (Hadj st1 (u32 (adjusted_rate st1 - rate_delta b)));
        [exact Tf|now rewrite <- Tc in Hcur]. }
  destruct (adjusted_rate st =? nominal_rate b); cbn [negb].
  - exists st. split; [reflexivity|apply same_flags_refl].
  - cbv zeta. apply (Hadj st (nominal_rate b));
      [apply same_flags_refl|exact Hcur].
Qed.

Lemma trace_axis_flags (cfg : config) (b : block) (st : state) :
  (same_flags st (trace_x cfg b st)
   /\ current_block (trace_x cfg b st) = current_block st) /\
  (same_flags st (trace_y cfg b st)
   /\ current_block (trace_y cfg b st) = current_block st) /\
  (same_flags st (trace_z cfg b st)
   /\ current_block (trace_z cfg b st) = current_block st).
Proof.
  unfold same_flags, trace_x, trace_y, trace_z. cbv zeta.
  splits; split_ifs; reflexivity.
Qed.

Lemma trace_line_flags (cfg : config) (b : block) (st : state) :
  same_flags st (trace_line cfg b st) /\
  current_block (trace_line cfg b st) = current_block st.
Proof.
  rewrite trace_line_parts.
  set (s0 := trace_begin b st).
  assert (F0 : same_flags st s0 /\ current_block s0 = current_block st)
    by (repeat split).
  clearbody s0.
  destruct (trace_axis_flags cfg b s0) as ((F1 & C1) & _).
  set (s1 := trace_x cfg b s0) in *. clearbody s1.
  destruct (trace_axis_flags cfg b s1) as (_ & (F2 & C2) & _).
  set (s2 := trace_y cfg b s1) in *. clearbody s2.
  destruct (trace_axis_flags cfg b s2) as (_ & _ & (F3 & C3)).
  set (s3 := trace_z cfg b s2) in *. clearbody s3.
  assert (F4 : same_flags s3 (trace_end cfg s3)
               /\ current_block (trace_end cfg s3) = current_block s3)
    by (repeat split).
  destruct F0 as [F0 C0]. destruct F4 as [F4 C4].
  split.
  - apply (same_flags_trans st s0 _ F0).
    apply (same_flags_trans s0 s1 _ F1).
    apply (same_flags_trans s1 s2 _ F2).
    apply (same_flags_trans s2 s3 _ F3). exact F4.
  - now rewrite C4, C3, C2, C1, C0.
Qed.

(** Whatever block is current, processing it succeeds and leaves the
    flags alone. *)
Lemma process_block_flags (cfg : config) (b : block) (st : state) :
  0 < MINIMUM_STEPS_PER_MINUTE cfg ->
  current_block st = Some b ->
  exists st', process_block cfg b st = Ok st' /\ same_flags st st'.
Proof.
  intros Hmin Hcur. unfold process_block.
  destruct (type b).
  - destruct (trace_line_flags cfg b st) as [F C].
    set (t := trace_line cfg b st) in *. clearbody t.
    destruct (speed_adjustment_flags cfg b t Hmin ltac:(congruence))
      as (st' & H & F').
    exists st'. split; [exact H|]. eapply same_flags_trans; eassumption.
  - eexists. split; [reflexivity|]. repeat split.
  - eexists. split; [reflexivity|]. repeat split.
  - eexists. split; [reflexivity|]. repeat split.
Qed.

Lemma start_line_block_flags (cfg : config) (b : block) (st : state) :
  0 < MINIMUM_STEPS_PER_MINUTE cfg ->
  current_block st = Some b ->
  exists st',
    start_line_block cfg b st = Ok st' /\
    same_flags st st' /\ current_block st' = Some b.
Proof.
  intros Hmin Hcur. unfold start_line_block. cbv zeta.
  set (s0 := set_acceleration_tick_counter _ (set_adjusted_rate _ st)).
  assert (Hc0 : current_block s0 = Some b) by exact Hcur.
  assert (F0 : same_flags st s0) by (repeat split).
  clearbody s0.
  destruct (adjust_speed_flags cfg (adjusted_rate s0) s0 b Hmin Hc0)
    as (s1 & H & F1 & C1).
  rewrite H. cbn [bind].
  eexists. split; [reflexivity|]. split.
  - eapply same_flags_trans; [exact F0|].
    eapply same_flags_trans; [exact F1|]. repeat split.
  - exact C1.
Qed.

(** What every run of the interrupt does, whatever it finds. *)
Lemma ISR_run_summary (cfg : config) (s : sense) (st : state) :
  0 < MINIMUM_STEPS_PER_MINUTE cfg ->
  exists st',
    ISR cfg s st = Ok st' /\
    (busy st = true -> st' = st) /\
    (busy st = false -> busy st' = false) /\
    (stop_requested st = true ->
       stop_requested st' = true /\ stop_status st' = stop_status st) /\
    (SENSE_ANY s = false ->
       stop_requested st' = stop_requested st /\
       stop_status st' = stop_status st) /\
    emitted (ext st')
    = (if negb (busy st) && negb (stop_requested st) && negb (SENSE_ANY s)
       then StepPulse (STEPPING_PORT (regs (pulse_steppers cfg st)))
              :: emitted (ext st)
       else emitted (ext st)).
Proof.
  intros Hmin. unfold ISR.
  destruct (busy st) eqn:Hbusy.
  { exists st. splits; auto; discriminate. }
  cbn [stop_requested set_busy].
  destruct (stop_requested st) eqn:Hstop.
  { eexists. split; [reflexivity|]. driver_ops.
    splits; auto; discriminate. }
  destruct (SENSE_ANY s) eqn:Hany.
  { eexists. split; [reflexivity|]. unfold sense_stop.
    destruct (SENSE_LIMITS s), (SENSE_CHILLER_OFF s), (SENSE_POWER_OFF s);
      driver_ops; splits; auto; discriminate. }
  cbn [negb andb].
  change (STEPPING_PORT (regs (pulse_steppers cfg st)))
    with (STEPPING_PORT (regs (pulse_steppers cfg (set_busy true st)))).
  set (p := pulse_steppers cfg (set_busy true st)).
  assert (Ps : stop_requested p = false) by exact Hstop.
  assert (Pc : stop_status p = stop_status st) by reflexivity.
  assert (Pe : emitted (ext p)
               = StepPulse (STEPPING_PORT (regs p)) :: emitted (ext st))
    by reflexivity.
  clearbody p.
  assert (Hfin : forall st2, same_flags p st2 ->
    (false = true -> set_busy false st2 = st) /\
    (false = false -> busy (set_busy false st2) = false) /\
    (false = true ->
       stop_requested (set_busy false st2) = true /\
       stop_status (set_busy false st2) = stop_status st) /\
    (false = false ->
       stop_requested (set_busy false st2) = false /\
       stop_status (set_busy false st2) = stop_status st) /\
    emitted (ext (set_busy false st2))
    = StepPulse (STEPPING_PORT (regs p)) :: emitted (ext st)).
  { intros st2 (_ & F2 & F3 & F5). fields.
    splits; try discriminate; try reflexivity; [|congruence].
    intros _. split; congruence. }
  destruct (current_block p) as [b|] eqn:Hcur.
  - destruct (process_block_flags cfg b p Hmin Hcur) as (st2 & H & F).
    rewrite H. cbn [bind]. eexists. split; [reflexivity|].
    apply Hfin. exact F.
  - unfold planner_get_current_block.
    destruct (block_buffer (ext p)) as [|b bs]; cbn [hd_error].
    + eexists. split; [reflexivity|].
      apply (Hfin (stepper_go_idle (set_current_block None p))).
      unfold same_flags. driver_ops. driver_ops. splits; reflexivity.
    + set (p1 := set_current_block (Some b) p).
      assert (F1 : same_flags p p1) by (repeat split).
      assert (C1 : current_block p1 = Some b) by reflexivity.
      clearbody p1.
      assert (Hstart : exists p2,
                (match type b with
                 | TYPE_LINE => start_line_block cfg b p1
                 | _ => Ok p1
                 end) = Ok p2
                /\ same_flags p p2
                /\ current_block p2 = Some b).
      { destruct (type b);
          try (exists p1; splits; [reflexivity|assumption|assumption]).
        destruct (start_line_block_flags cfg b p1 Hmin C1)
          as (p2 & H & F & C).
        exists p2. splits; [exact H| |exact C].
        eapply same_flags_trans; eassumption. }
      destruct Hstart as (p2 & H2 & F2 & C2). rewrite H2. cbn [bind].
      destruct (process_block_flags cfg b p2 Hmin C2) as (st2 & H & F).
      rewrite H. cbn [bind]. eexists. split; [reflexivity|].
      apply Hfin. eapply same_flags_trans; eassumption.
Qed.

(** X6.  With a positive minimum rate a run of the interrupt always
    completes: [adjust_speed] is only reached with a current block and
    never divides by zero.  A re-entered run ([busy] set) changes nothing;
    any other run ends with [busy] clear.  The interrupt never clears a stop
    request nor changes its cause once one is pending, and with the sensors
    clear it leaves the request and the cause as they are: only the sensor
    check sets them and only [stepper_resume] clears them.  A run emits
    exactly one pulse, of the [out_bits] it found, when it passes the three
    guards, and none otherwise. *)
Theorem ISR_always_completes (cfg : config) (s : sense) (st : state) :
  0 < MINIMUM_STEPS_PER_MINUTE cfg ->
  exists st',
    ISR cfg s st = Ok st' /\
    (busy st = true -> st' = st) /\
    (busy st = false -> busy st' = false) /\
    (stop_requested st = true ->
       stop_requested st' = true /\ stop_status st' = stop_status st) /\
    (SENSE_ANY s = false ->
       stop_requested st' = stop_requested st /\
       stop_status st' = stop_status st) /\
    emitted (ext st')
    = (if negb (busy st) && negb (stop_requested st) && negb (SENSE_ANY s)
       then StepPulse (STEPPING_PORT (regs (pulse_steppers cfg st)))
              :: emitted (ext st)
       else emitted (ext st)).
Proof. apply ISR_run_summary. Qed.


Lemma ISR_always_completes_witness :
  exists st',
    ISR sample_config all_clear (queued_state [example_line]) = Ok st' /\
    busy st' = false.
Proof.
  destruct (ISR_always_completes sample_config all_clear
              (queued_state [example_line]) eq_refl)
    as (st' & H & _ & Hb & _).
  exists st'. split; [exact H|]. apply Hb. reflexivity.
Defined.

(** ** Blocks that switch air and gas *)

Lemma pulse_steppers_pins (cfg : config) (st : state) (i : Z) :
  0 <= i < 8 ->
  Z.testbit (Z.lor (STEPPING_MASK cfg) (DIRECTION_MASK cfg)) i = true ->
  Z.testbit (STEPPING_PORT (regs (pulse_steppers cfg st))) i
  = Z.testbit (out_bits st) i.
Proof.
  intros Hi Hm. unfold pulse_steppers. fields.
  rewrite Z.lor_spec in Hm.
  rewrite !u8_testbit, !Z.lor_spec, !Z.land_spec, !Z.lnot_spec by lia.
  rewrite !u8_testbit, !Z.lor_spec, !Z.land_spec, !Z.lnot_spec by lia.
  destruct (Z.testbit (STEPPING_MASK cfg) i),
           (Z.testbit (DIRECTION_MASK cfg) i),
           (Z.testbit (out_bits st) i),
           (Z.testbit (STEPPING_PORT (regs st)) i);
    try reflexivity; discriminate Hm.
Qed.

(** The run that fetches an air or gas block. *)
Lemma ISR_actuator_block (cfg : config) (b : block) (q : list block)
    (st : state) :
  type b <> TYPE_LINE ->
  block_queued b q st ->
  exists st',
    ISR cfg all_clear st = Ok st' /\
    finished q st' /\
    air (ext st')
    = match type b with
      | TYPE_AIR_ENABLE => true
      | TYPE_AIRGAS_DISABLE => false
      | _ => air (ext st)
      end /\
    gas (ext st')
    = match type b with
      | TYPE_GAS_ENABLE => true
      | TYPE_AIRGAS_DISABLE => false
      | _ => gas (ext st)
      end /\
    out_bits st' = out_bits st /\
    stepper_position st' = stepper_position st /\
    counter_x st' = counter_x st /\
    counter_y st' = counter_y st /\
    counter_z st' = counter_z st /\
    step_events_completed st' = step_events_completed st /\
    adjusted_rate st' = adjusted_rate st /\
    cycles_per_step_event st' = cycles_per_step_event st /\
    laser_intensity (ext st') = laser_intensity (ext st) /\
    OCR1A (regs st') = OCR1A (regs st) /\
    emitted (ext st')
    = StepPulse (STEPPING_PORT (regs (pulse_steppers cfg st)))
        :: emitted (ext st).
Proof.
  intros Hty (Hb & Hs & Hc & Hq). unfold ISR. rewrite Hb.
  cbn [stop_requested set_busy]. rewrite Hs.
  change (SENSE_ANY all_clear) with false. cbv iota.
  unfold pulse_steppers, planner_get_current_block. fields.
  rewrite Hc, Hq. cbn [hd_error].
  unfold process_block, finished.
  destruct (type b); [congruence| | |];
    cbn [bind]; (eexists; split; [reflexivity|]);
    driver_ops; rewrite ?Hq; cbn [tl]; splits; try reflexivity; assumption.
Qed.

(** X7.  An air or gas block takes one run of the interrupt: the run
    fetches it, switches the outputs ([TYPE_AIR_ENABLE] air on,
    [TYPE_GAS_ENABLE] gas on, [TYPE_AIRGAS_DISABLE] both off) and discards
    it from the queue.  Position, tracer counters, rate, timer period and
    laser intensity stay as they were, and so does [out_bits]: the run does
    not compute a new step pattern. *)
Theorem actuator_block_single_run (cfg : config) (b : block) (q : list block)
    (st : state) :
  type b <> TYPE_LINE ->
  block_queued b q st ->
  exists st',
    ISR cfg all_clear st = Ok st' /\
    finished q st' /\
    air (ext st')
    = match type b with
      | TYPE_AIR_ENABLE => true
      | TYPE_AIRGAS_DISABLE => false
      | _ => air (ext st)
      end /\
    gas (ext st')
    = match type b with
      | TYPE_GAS_ENABLE => true
      | TYPE_AIRGAS_DISABLE => false
      | _ => gas (ext st)
      end /\
    out_bits st' = out_bits st /\
    stepper_position st' = stepper_position st /\
    counter_x st' = counter_x st /\
    counter_y st' = counter_y st /\
    counter_z st' = counter_z st /\
    step_events_completed st' = step_events_completed st /\
    adjusted_rate st' = adjusted_rate st /\
    cycles_per_step_event st' = cycles_per_step_event st /\
    laser_intensity (ext st') = laser_intensity (ext st) /\
    OCR1A (regs st') = OCR1A (regs st) /\
    emitted (ext st')
    = StepPulse (STEPPING_PORT (regs (pulse_steppers cfg st)))
        :: emitted (ext st).
Proof. apply ISR_actuator_block. Qed.

Definition air_on : block :=
  {| type := TYPE_AIR_ENABLE;
     steps_x := 0; steps_y := 0; steps_z := 0; direction_bits := 0;
     step_event_count := 0;
     nominal_rate := 0; initial_rate := 0; final_rate := 0; rate_delta := 0;
     accelerate_until := 0; decelerate_after := 0;
     nominal_laser_intensity := 0 |}.

Lemma actuator_block_single_run_witness :
  exists st',
    ISR sample_config all_clear (queued_state [air_on; example_line]) = Ok st' /\
    air (ext st') = true /\
    block_buffer (ext st') = [example_line].
Proof.
  destruct (actuator_block_single_run sample_config air_on [example_line]
              (queued_state [air_on; example_line]))
    as (st' & H & (_ & _ & _ & Hq) & Ha & _).
  - discriminate.
  - repeat split.
  - exists st'. splits; assumption.
Defined.

(** X8.  The pulse of a run carries the [out_bits] the run before left.
    Since an air or gas block leaves [out_bits] alone, the run after it
    puts on the step and direction pins the very pattern that block's own
    run has just pulsed: that pattern goes out twice in a row, and the
    position is not changed by the block's run. *)
Theorem pattern_repeats_after_actuator_block (cfg : config) (b : block)
    (q : list block) (st : state) :
  0 < MINIMUM_STEPS_PER_MINUTE cfg ->
  type b <> TYPE_LINE ->
  block_queued b q st ->
  exists st1 st2 port1 port2,
    ISR cfg all_clear st = Ok st1 /\
    ISR cfg all_clear st1 = Ok st2 /\
    stepper_position st1 = stepper_position st /\
    emitted (ext st2)
    = StepPulse port2 :: StepPulse port1 :: emitted (ext st) /\
    forall i, 0 <= i < 8 ->
      Z.testbit (Z.lor (STEPPING_MASK cfg) (DIRECTION_MASK cfg)) i = true ->
      Z.testbit port1 i = Z.testbit (out_bits st) i /\
      Z.testbit port2 i = Z.testbit (out_bits st) i.
Proof.
  intros Hmin Hty Hq.
  destruct (ISR_actuator_block cfg b q st Hty Hq)
    as (st1 & H1 & (Fb & Fs & _) & _ & _ & Ho & Hp & _ & _ & _ & _ & _ & _
        & _ & _ & He).
  destruct (ISR_run_summary cfg all_clear st1 Hmin)
    as (st2 & H2 & _ & _ & _ & _ & He2).
  rewrite Fb, Fs in He2. cbn [negb andb SENSE_ANY all_clear] in He2.
  change (negb (SENSE_ANY all_clear)) with true in He2. cbv iota in He2.
  exists st1, st2,
    (STEPPING_PORT (regs (pulse_steppers cfg st))),
    (STEPPING_PORT (regs (pulse_steppers cfg st1))).
  splits; try assumption.
  - now rewrite He2, He.
  - intros i Hi Hm. split.
    + now apply pulse_steppers_pins.
    + rewrite pulse_steppers_pins by assumption. now rewrite Ho.
Qed.

Lemma pattern_repeats_after_actuator_block_witness :
  exists st1 st2,
    ISR sample_config all_clear (queued_state [air_on]) = Ok st1 /\
    ISR sample_config all_clear st1 = Ok st2 /\
    length (emitted (ext st2)) = 2%nat.
Proof.
  destruct (pattern_repeats_after_actuator_block sample_config air_on []
              (queued_state [air_on]))
    as (st1 & st2 & p1 & p2 & H1 & H2 & _ & He & _).
  - reflexivity.
  - discriminate.
  - repeat split.
  - exists st1, st2. splits; try assumption. now rewrite He.
Defined.

(** ** The absolute position over a LINE block *)

(** The direction bits are bits of the 8-bit port and none of them is a
    step bit. *)
Record direction_pins_ok (cfg : config) : Prop := {
  dx_range : 0 <= X_DIRECTION_BIT cfg < 8;
  dy_range : 0 <= Y_DIRECTION_BIT cfg < 8;
  dz_range : 0 <= Z_DIRECTION_BIT cfg < 8;
  dx_not_step :
    X_DIRECTION_BIT cfg <> X_STEP_BIT cfg
    /\ X_DIRECTION_BIT cfg <> Y_STEP_BIT cfg
    /\ X_DIRECTION_BIT cfg <> Z_STEP_BIT cfg;
  dy_not_step :
    Y_DIRECTION_BIT cfg <> X_STEP_BIT cfg
    /\ Y_DIRECTION_BIT cfg <> Y_STEP_BIT cfg
    /\ Y_DIRECTION_BIT cfg <> Z_STEP_BIT cfg;
  dz_not_step :
    Z_DIRECTION_BIT cfg <> X_STEP_BIT cfg
    /\ Z_DIRECTION_BIT cfg <> Y_STEP_BIT cfg
    /\ Z_DIRECTION_BIT cfg <> Z_STEP_BIT cfg
}.

Lemma sample_config_direction_pins_ok : direction_pins_ok sample_config.
Proof. constructor; cbn; lia. Qed.

(** One step of an axis in the direction [dir] of the block: down when the
    direction bit is set. *)
Definition step_to (dir : bool) (p : Z) : Z :=
  s32 (if dir then p - 1 else p + 1).

Lemma s32_idem_add (a d : Z) : s32 (s32 a + d) = s32 (a + d).
Proof.
  unfold s32. f_equal.
  replace ((a + 2 ^ 31) mod 2 ^ 32 - 2 ^ 31 + d + 2 ^ 31)
    with ((a + 2 ^ 31) mod 2 ^ 32 + d) by lia.
  rewrite Zplus_mod_idemp_l. f_equal. lia.
Qed.

Section Position.

Variable cfg : config.
Variable b : block.
Hypothesis step_pins : step_pins_ok cfg.
Hypothesis dir_pins : direction_pins_ok cfg.
Hypothesis min_rate_pos : 0 < MINIMUM_STEPS_PER_MINUTE cfg.

Ltac pin_facts :=
  destruct step_pins as [Rx Ry Rz Dxy Dxz Dyz];
  destruct dir_pins
    as [Ex Ey Ez (Nx1 & Nx2 & Nx3) (Ny1 & Ny2 & Ny3) (Nz1 & Nz2 & Nz3)].

Lemma trace_x_position (st : state) :
  let st' := trace_x cfg b st in
  let p := stepper_position st in
  stepper_position st'
  = (if fst (bres_step (step_event_count b) (steps_x b) (counter_x st))
     then {| X_AXIS := step_to (Z.testbit (out_bits st) (X_DIRECTION_BIT cfg))
                         (X_AXIS p);
             Y_AXIS := Y_AXIS p; Z_AXIS := Z_AXIS p |}
     else p).
Proof.
  pin_facts. cbv zeta. unfold trace_x, bres_step, step_to. cbv zeta. fields.
  destruct (0 <? s32 (counter_x st + steps_x b)); cbn [fst snd];
    [|reflexivity].
  rewrite set_bit_testbit by lia.
  destruct (Z.eqb_spec (X_STEP_BIT cfg) (X_DIRECTION_BIT cfg)); [lia|].
  rewrite orb_false_r.
  destruct (Z.testbit (out_bits st) (X_DIRECTION_BIT cfg)); reflexivity.
Qed.

Lemma trace_y_position (st : state) :
  let st' := trace_y cfg b st in
  let p := stepper_position st in
  stepper_position st'
  = (if fst (bres_step (step_event_count b) (steps_y b) (counter_y st))
     then {| X_AXIS := X_AXIS p;
             Y_AXIS := step_to (Z.testbit (out_bits st) (Y_DIRECTION_BIT cfg))
                         (Y_AXIS p);
             Z_AXIS := Z_AXIS p |}
     else p).
Proof.
  pin_facts. cbv zeta. unfold trace_y, bres_step, step_to. cbv zeta. fields.
  destruct (0 <? s32 (counter_y st + steps_y b)); cbn [fst snd];
    [|reflexivity].
  rewrite set_bit_testbit by lia.
  destruct (Z.eqb_spec (Y_STEP_BIT cfg) (Y_DIRECTION_BIT cfg)); [lia|].
  rewrite orb_false_r.
  destruct (Z.testbit (out_bits st) (Y_DIRECTION_BIT cfg)); reflexivity.
Qed.

Lemma trace_z_position (st : state) :
  let st' := trace_z cfg b st in
  let p := stepper_position st in
  stepper_position st'
  = (if fst (bres_step (step_event_count b) (steps_z b) (counter_z st))
     then {| X_AXIS := X_AXIS p; Y_AXIS := Y_AXIS p;
             Z_AXIS := step_to (Z.testbit (out_bits st) (Z_DIRECTION_BIT cfg))
                         (Z_AXIS p) |}
     else p).
Proof.
  pin_facts. cbv zeta. unfold trace_z, bres_step, step_to. cbv zeta. fields.
  destruct (0 <? s32 (counter_z st + steps_z b)); cbn [fst snd];
    [|reflexivity].
  rewrite set_bit_testbit by lia.
  destruct (Z.eqb_spec (Z_STEP_BIT cfg) (Z_DIRECTION_BIT cfg)); [lia|].
  rewrite orb_false_r.
  destruct (Z.testbit (out_bits st) (Z_DIRECTION_BIT cfg)); reflexivity.
Qed.

(** The position after the tracer, from the decisions of the three
    counters and the direction bits of the block. *)
Definition moved (fx fy fz : bool) (p : vec3) : vec3 :=
  {| X_AXIS := if fx
               then step_to (Z.testbit (direction_bits b) (X_DIRECTION_BIT cfg))
                      (X_AXIS p)
               else X_AXIS p;
     Y_AXIS := if fy
               then step_to (Z.testbit (direction_bits b) (Y_DIRECTION_BIT cfg))
                      (Y_AXIS p)
               else Y_AXIS p;
     Z_AXIS := if fz
               then step_to (Z.testbit (direction_bits b) (Z_DIRECTION_BIT cfg))
                      (Z_AXIS p)
               else Z_AXIS p |}.

Lemma trace_line_position (st : state) :
  stepper_position (trace_line cfg b st)
  = moved
      (fst (bres_step (step_event_count b) (steps_x b) (counter_x st)))
      (fst (bres_step (step_event_count b) (steps_y b) (counter_y st)))
      (fst (bres_step (step_event_count b) (steps_z b) (counter_z st)))
      (stepper_position st).
Proof.
  rewrite trace_line_parts.
  destruct (trace_begin_fields b st) as (B0 & B1 & B2 & B3 & _).
  assert (Bp : stepper_position (trace_begin b st) = stepper_position st)
    by reflexivity.
  set (s0 := trace_begin b st) in *. clearbody s0.
  destruct (trace_x_fields cfg b s0) as (_ & X0 & X2 & X3 & _).
  pose proof (trace_x_position s0) as Xp.
  set (s1 := trace_x cfg b s0) in *. clearbody s1.
  destruct (trace_y_fields cfg b s1) as (_ & Y0 & Y2 & Y3 & _).
  pose proof (trace_y_position s1) as Yp.
  set (s2 := trace_y cfg b s1) in *. clearbody s2.
  pose proof (trace_z_position s2) as Zp.
  set (s3 := trace_z cfg b s2) in *. clearbody s3.
  assert (Fp : stepper_position (trace_end cfg s3) = stepper_position s3)
    by reflexivity.
  cbv zeta in *.
  rewrite Fp, Zp, Yp, Xp, Bp, ?Y0, ?X0, ?B0, ?Y3, ?X3, ?X2, ?B3, ?B2, ?B1.
  pin_facts. unfold moved.
  destruct (stepper_position st) as [px py pz].
  destruct (fst (bres_step (step_event_count b) (steps_x b) (counter_x st)));
  destruct (fst (bres_step (step_event_count b) (steps_y b) (counter_y st)));
  destruct (fst (bres_step (step_event_count b) (steps_z b) (counter_z st)));
  cbn [X_AXIS Y_AXIS Z_AXIS];
  rewrite ?set_bit_testbit, ?u8_testbit by lia;
  repeat match goal with
  | |- context [?a =? ?c] => destruct (Z.eqb_spec a c); [lia|]
  end;
  rewrite ?orb_false_r; reflexivity.
Qed.

Lemma adjust_speed_position (rate : Z) (st st' : state) :
  adjust_speed cfg rate st = Ok st' ->
  stepper_position st' = stepper_position st.
Proof.
  unfold adjust_speed.
  destruct (_ =? 0); [discriminate|].
  unfold config_step_timer. cbv zeta. fields.
  destruct (current_block st); [|discriminate].
  intros H. inversion H. reflexivity.
Qed.

Lemma speed_adjustment_position (st st' : state) :
  speed_adjustment cfg b st = Ok st' ->
  stepper_position st' = stepper_position st.
Proof.
  unfold speed_adjustment, acceleration_tick. cbv zeta.
  repeat match goal with
  | |- context [if ?c then _ else _] =>
      lazymatch c with
      | context [if _ then _ else _] => fail
      | _ => destruct c
      end
  end;
  intros H;
  first [ apply adjust_speed_position in H; exact H
        | inversion H; reflexivity ].
Qed.

Lemma start_line_block_position (st st' : state) :
  start_line_block cfg b st = Ok st' ->
  stepper_position st' = stepper_position st /\
  counter_x st' = s32 (- Z.shiftr (step_event_count b) 1).
Proof.
  unfold start_line_block. cbv zeta.
  destruct (adjust_speed cfg _ _) as [s1|f] eqn:E; cbn [bind];
    [|discriminate].
  apply adjust_speed_position in E.
  intros H. inversion H. fields. split; [exact E|reflexivity].
Qed.

End Position.

Section PositionRun.

Variable cfg : config.
Variable b : block.
Hypothesis step_pins : step_pins_ok cfg.
Hypothesis dir_pins : direction_pins_ok cfg.
Hypothesis block_ok : line_block_ok cfg b.
Hypothesis min_rate_pos : 0 < MINIMUM_STEPS_PER_MINUTE cfg.

(** The position moves by the step bits a run leaves in [out_bits]. *)
Definition position_event (pre post : state) : Prop :=
  stepper_position post
  = moved cfg b (x_step_set cfg post) (y_step_set cfg post)
      (z_step_set cfg post) (stepper_position pre).

Lemma process_line_position (st st' : state) :
  process_block cfg b st = Ok st' ->
  stepper_position st'
  = moved cfg b
      (fst (bres_step (step_event_count b) (steps_x b) (counter_x st)))
      (fst (bres_step (step_event_count b) (steps_y b) (counter_y st)))
      (fst (bres_step (step_event_count b) (steps_z b) (counter_z st)))
      (stepper_position st).
Proof.
  unfold process_block. rewrite (b_line cfg b block_ok). intros H.
  apply speed_adjustment_position in H. rewrite H.
  now apply (trace_line_position cfg b step_pins dir_pins).
Qed.

Lemma ISR_running_position (st st' : state) :
  busy st = false ->
  stop_requested st = false ->
  current_block st = Some b ->
  ISR cfg all_clear st = Ok st' ->
  position_event st st' /\ line_event cfg b st st'.
Proof.
  intros Hbusy Hstop Hcur HI.
  destruct (ISR_line_running cfg b step_pins block_ok min_rate_pos st
              Hbusy Hstop Hcur) as (st0 & HI0 & Hev & _).
  rewrite HI in HI0. inversion HI0; subst st0. split; [|exact Hev].
  destruct Hev as (_ & _ & _ & E4 & E5 & E6 & _).
  unfold position_event. rewrite E4, E5, E6.
  revert HI. unfold ISR. rewrite Hbusy.
  cbn [stop_requested set_busy]. rewrite Hstop.
  change (SENSE_ANY all_clear) with false. cbv iota.
  set (p := pulse_steppers cfg (set_busy true st)).
  assert (Pc : current_block p = current_block st) by reflexivity.
  assert (Px : counter_x p = counter_x st) by reflexivity.
  assert (Py : counter_y p = counter_y st) by reflexivity.
  assert (Pz : counter_z p = counter_z st) by reflexivity.
  assert (Pp : stepper_position p = stepper_position st) by reflexivity.
  clearbody p. rewrite Pc, Hcur.
  destruct (process_block cfg b p) as [st2|f] eqn:E; cbn [bind];
    [|discriminate].
  intros H. inversion H. fields.
  rewrite (process_line_position p st2 E). now rewrite Px, Py, Pz, Pp.
Qed.

Lemma ISR_first_position (q : list block) (st st' : state) :
  block_queued b q st ->
  ISR cfg all_clear st = Ok st' ->
  position_event st st' /\
  exists s0,
    step_events_completed s0 = 0 /\
    block_buffer (ext s0) = b :: q /\
    line_event cfg b s0 st' /\
    busy st' = false /\ stop_requested st' = false.
Proof.
  intros (Hbusy & Hstop & Hcur & Hq) HI.
  destruct (ISR_line_first cfg b step_pins block_ok min_rate_pos st q
              Hbusy Hstop Hcur Hq)
    as (s0 & st0 & HI0 & S1 & S2 & S3 & S4 & _ & S6 & Hev & Hb' & Hs').
  rewrite HI in HI0. inversion HI0; subst st0.
  split; [|exists s0; splits; assumption].
  destruct Hev as (_ & _ & _ & E4 & E5 & E6 & _).
  unfold position_event. rewrite E4, E5, E6, S1, S2, S3.
  revert HI. unfold ISR. rewrite Hbusy.
  cbn [stop_requested set_busy]. rewrite Hstop.
  change (SENSE_ANY all_clear) with false. cbv iota.
  set (p := pulse_steppers cfg (set_busy true st)).
  assert (Pc : current_block p = current_block st) by reflexivity.
  assert (Pq : block_buffer (ext p) = block_buffer (ext st)) by reflexivity.
  assert (Pp : stepper_position p = stepper_position st) by reflexivity.
  clearbody p. rewrite Pc, Hcur. unfold planner_get_current_block.
  rewrite Pq, Hq. cbn [hd_error]. rewrite (b_line cfg b block_ok).
  set (p1 := set_current_block (Some b) p).
  assert (Pp1 : stepper_position p1 = stepper_position st) by exact Pp.
  clearbody p1.
  destruct (start_line_block cfg b p1) as [p2|f] eqn:E2; cbn [bind];
    [|discriminate].
  destruct (start_line_block_position cfg b p1 p2 E2) as [Hp2 Hc2].
  assert (Hcy : counter_y p2 = s32 (- Z.shiftr (step_event_count b) 1)
                /\ counter_z p2 = s32 (- Z.shiftr (step_event_count b) 1)).
  { revert E2. unfold start_line_block. cbv zeta.
    destruct (adjust_speed cfg _ _); cbn [bind]; [|discriminate].
    intros H. inversion H. split; reflexivity. }
  destruct Hcy as [Hy2 Hz2].
  destruct (process_block cfg b p2) as [st2|f] eqn:E; cbn [bind];
    [|discriminate].
  intros H. inversion H. fields.
  rewrite (process_line_position p2 st2 E).
  now rewrite Hc2, Hy2, Hz2, Hp2, Pp1.
Qed.

Lemma ISR_trace_running_positions (q : list block) (n : nat) :
  forall st tr,
    running b q st ->
    0 <= step_events_completed st ->
    step_events_completed st + Z.of_nat n <= step_event_count b ->
    ISR_trace cfg (repeat all_clear n) st = Ok tr ->
    chained position_event (st :: tr).
Proof.
  pose proof (b_count cfg b block_ok) as HN.
  induction n as [|n IH]; intros st tr Hrun Hsec Hle HT.
  - cbn in HT. inversion HT. constructor.
  - cbn [repeat ISR_trace] in HT.
    destruct (ISR cfg all_clear st) as [st'|f] eqn:HI; cbn [bind] in HT;
      [|discriminate].
    destruct (ISR_trace cfg (repeat all_clear n) st') as [tr'|f] eqn:HT';
      cbn [bind] in HT; [|discriminate].
    inversion HT; subst tr. clear HT.
    pose proof Hrun as (Hb & Hs & Hc & Hq).
    destruct (ISR_running_position st st' Hb Hs Hc HI) as [Hpos Hev].
    constructor; [exact Hpos|].
    rewrite Nat2Z.inj_succ in Hle.
    assert (Hb' : busy st' = false /\ stop_requested st' = false).
    { destruct (ISR_line_running cfg b step_pins block_ok min_rate_pos st
                  Hb Hs Hc) as (st0 & HI0 & _ & B & S).
      rewrite HI in HI0. inversion HI0; subst. auto. }
    destruct Hb' as [Hb' Hs'].
    destruct (line_event_progress cfg b block_ok q st st' Hq Hsec Hev Hb' Hs')
      as [Hgo _].
    destruct (Z.ltb_spec (step_events_completed st + 1) (step_event_count b))
      as [Hlt|Hge].
    + destruct (Hgo Hlt) as [Hsec' Hrun'].
      apply (IH st' tr' Hrun'); [lia|lia|exact HT'].
    + assert (n = O) by lia. subst n. cbn in HT'. inversion HT'. constructor.
Qed.

Lemma ISR_trace_block_positions (q : list block) (st : state)
    (tr : list state) :
  block_queued b q st ->
  ISR_trace cfg
    (repeat all_clear (Nat.max 1 (Z.to_nat (step_event_count b)))) st = Ok tr ->
  chained position_event (st :: tr).
Proof.
  intros Hq HT.
  pose proof (b_count cfg b block_ok) as HN.
  assert (Hn : Nat.max 1 (Z.to_nat (step_event_count b))
               = S (Z.to_nat (step_event_count b) - 1)) by lia.
  rewrite Hn in HT. cbn [repeat ISR_trace] in HT.
  destruct (ISR cfg all_clear st) as [st'|f] eqn:HI; cbn [bind] in HT;
    [|discriminate].
  destruct (ISR_trace cfg _ st') as [tr'|f] eqn:HT';
    cbn [bind] in HT; [|discriminate].
  inversion HT; subst tr. clear HT.
  destruct (ISR_first_position q st st' Hq HI)
    as (Hpos & s0 & S4 & S6 & Hev & Hb' & Hs').
  constructor; [exact Hpos|].
  destruct (line_event_progress cfg b block_ok q s0 st' S6 ltac:(lia) Hev
              Hb' Hs') as [Hgo _].
  rewrite S4 in Hgo.
  destruct (Z.ltb_spec 1 (step_event_count b)) as [Hlt|Hge].
  - destruct (Hgo ltac:(lia)) as [Hsec' Hrun'].
    apply (ISR_trace_running_positions q (Z.to_nat (step_event_count b) - 1)
             st' tr' Hrun'); [lia|lia|exact HT'].
  - assert (E : (Z.to_nat (step_event_count b) - 1)%nat = O) by lia.
    rewrite E in HT'. cbn in HT'. inversion HT'. constructor.
Qed.

Lemma s32_range (z : Z) : - 2 ^ 31 <= s32 z < 2 ^ 31.
Proof.
  unfold s32. pose proof (Z.mod_pos_bound (z + 2 ^ 31) (2 ^ 32) eq_refl). lia.
Qed.

(** Along a chain of events each axis ends where it started plus one
    signed step per event that set its step bit. *)
Lemma position_chain_sum (tr : list state) :
  forall st,
    chained position_event (st :: tr) ->
    let p := stepper_position st in
    let p' := stepper_position (last tr st) in
    let signed (d : Z) (n : Z) := if Z.testbit (direction_bits b) d then - n else n in
    (- 2 ^ 31 <= X_AXIS p < 2 ^ 31 ->
       X_AXIS p'
       = s32 (X_AXIS p
              + signed (X_DIRECTION_BIT cfg)
                  (count_true (map (x_step_set cfg) tr)))) /\
    (- 2 ^ 31 <= Y_AXIS p < 2 ^ 31 ->
       Y_AXIS p'
       = s32 (Y_AXIS p
              + signed (Y_DIRECTION_BIT cfg)
                  (count_true (map (y_step_set cfg) tr)))) /\
    (- 2 ^ 31 <= Z_AXIS p < 2 ^ 31 ->
       Z_AXIS p'
       = s32 (Z_AXIS p
              + signed (Z_DIRECTION_BIT cfg)
                  (count_true (map (z_step_set cfg) tr)))).
Proof.
  induction tr as [|st' tr IH]; intros st Hch; cbv zeta.
  - cbn [last map]. unfold count_true. cbn.
    splits; intros H;
      destruct (Z.testbit (direction_bits b) _);
      rewrite ?Z.add_0_r; symmetry; apply s32_small; lia.
  - inversion Hch as [| |? ? ? Hev Hch']; subst.
    specialize (IH st' Hch'). cbv zeta in IH.
    destruct IH as (IHx & IHy & IHz).
    rewrite last_cons. unfold position_event, moved in Hev.
    rewrite Hev in IHx, IHy, IHz. cbn [X_AXIS Y_AXIS Z_AXIS] in IHx, IHy, IHz.
    unfold count_true in *. cbn [map filter].
    splits; intros H.
    + destruct (x_step_set cfg st').
      * rewrite IHx by apply s32_range. unfold step_to.
        cbn [length]. rewrite Nat2Z.inj_succ.
        destruct (Z.testbit (direction_bits b) (X_DIRECTION_BIT cfg));
          rewrite s32_idem_add; f_equal; lia.
      * now rewrite IHx.
    + destruct (y_step_set cfg st').
      * rewrite IHy by apply s32_range. unfold step_to.
        cbn [length]. rewrite Nat2Z.inj_succ.
        destruct (Z.testbit (direction_bits b) (Y_DIRECTION_BIT cfg));
          rewrite s32_idem_add; f_equal; lia.
      * now rewrite IHy.
    + destruct (z_step_set cfg st').
      * rewrite IHz by apply s32_range. unfold step_to.
        cbn [length]. rewrite Nat2Z.inj_succ.
        destruct (Z.testbit (direction_bits b) (Z_DIRECTION_BIT cfg));
          rewrite s32_idem_add; f_equal; lia.
      * now rewrite IHz.
Qed.

Lemma block_step_count (s : Z) :
  0 <= s <= step_event_count b ->
  count_true
    (bres_trace (Nat.max 1 (Z.to_nat (step_event_count b)))
       (step_event_count b) s (seed b)) = s.
Proof.
  intros Hs. pose proof (b_count cfg b block_ok) as HN. unfold seed.
  destruct (Z.eq_dec (step_event_count b) 0) as [E0|Hpos].
  - rewrite E0 in *. replace s with 0 by lia. reflexivity.
  - replace (Nat.max 1 (Z.to_nat (step_event_count b)))
      with (Z.to_nat (step_event_count b)) by lia.
    apply (bres_cycle (step_event_count b) s Hs); lia.
Qed.

End PositionRun.

(** Where a LINE block leaves the position. *)
Lemma line_block_displacement (cfg : config) (b : block) (q : list block)
    (st : state) :
  step_pins_ok cfg ->
  direction_pins_ok cfg ->
  line_block_ok cfg b ->
  0 < MINIMUM_STEPS_PER_MINUTE cfg ->
  block_queued b q st ->
  let p := stepper_position st in
  let signed (d : Z) (n : Z) := if Z.testbit (direction_bits b) d then - n else n in
  - 2 ^ 31 <= X_AXIS p < 2 ^ 31 ->
  - 2 ^ 31 <= Y_AXIS p < 2 ^ 31 ->
  - 2 ^ 31 <= Z_AXIS p < 2 ^ 31 ->
  exists tr,
    ISR_trace cfg
      (repeat all_clear (Nat.max 1 (Z.to_nat (step_event_count b)))) st
    = Ok tr /\
    finished q (last tr st) /\
    let p' := stepper_position (last tr st) in
    X_AXIS p' = s32 (X_AXIS p + signed (X_DIRECTION_BIT cfg) (steps_x b)) /\
    Y_AXIS p' = s32 (Y_AXIS p + signed (Y_DIRECTION_BIT cfg) (steps_y b)) /\
    Z_AXIS p' = s32 (Z_AXIS p + signed (Z_DIRECTION_BIT cfg) (steps_z b)) /\
    (- 2 ^ 31 <= X_AXIS p + signed (X_DIRECTION_BIT cfg) (steps_x b) < 2 ^ 31 ->
       X_AXIS p' = X_AXIS p + signed (X_DIRECTION_BIT cfg) (steps_x b)) /\
    (- 2 ^ 31 <= Y_AXIS p + signed (Y_DIRECTION_BIT cfg) (steps_y b) < 2 ^ 31 ->
       Y_AXIS p' = Y_AXIS p + signed (Y_DIRECTION_BIT cfg) (steps_y b)) /\
    (- 2 ^ 31 <= Z_AXIS p + signed (Z_DIRECTION_BIT cfg) (steps_z b) < 2 ^ 31 ->
       Z_AXIS p' = Z_AXIS p + signed (Z_DIRECTION_BIT cfg) (steps_z b)).
Proof.
  intros Hpins Hdir Hblk Hmin Hq. cbv zeta. intros Rx Ry Rz.
  destruct (ISR_trace_block cfg b Hpins Hblk Hmin q st Hq)
    as (s0 & tr & HT & _ & _ & _ & _ & M1 & M2 & M3 & _ & _ & _ & Hfin & _).
  pose proof (ISR_trace_block_positions cfg b Hpins Hdir Hblk Hmin q st tr
                Hq HT) as Hch.
  destruct (position_chain_sum cfg b tr st Hch) as (Px & Py & Pz).
  cbv zeta in Px, Py, Pz.
  specialize (Px Rx). specialize (Py Ry). specialize (Pz Rz).
  rewrite M1, (block_step_count cfg b Hblk) in Px
    by apply (b_steps_x cfg b Hblk).
  rewrite M2, (block_step_count cfg b Hblk) in Py
    by apply (b_steps_y cfg b Hblk).
  rewrite M3, (block_step_count cfg b Hblk) in Pz
    by apply (b_steps_z cfg b Hblk).
  exists tr. split; [exact HT|]. split; [exact Hfin|].
  cbv zeta. rewrite Px, Py, Pz.
  splits; try reflexivity; intros H; now apply s32_small.
Qed.

(** X9.  A LINE block moves the absolute position by exactly its step
    counts: when the block is released each axis stands at its position
    before the block plus its step count, or minus it when the block's
    direction bit for the axis is set (in 32-bit two's complement; exactly,
    when the result fits). *)
Theorem line_block_moves_position (cfg : config) (b : block) (q : list block)
    (st : state) :
  step_pins_ok cfg ->
  direction_pins_ok cfg ->
  line_block_ok cfg b ->
  0 < MINIMUM_STEPS_PER_MINUTE cfg ->
  block_queued b q st ->
  let p := stepper_position st in
  let signed (d : Z) (n : Z) := if Z.testbit (direction_bits b) d then - n else n in
  - 2 ^ 31 <= X_AXIS p < 2 ^ 31 ->
  - 2 ^ 31 <= Y_AXIS p < 2 ^ 31 ->
  - 2 ^ 31 <= Z_AXIS p < 2 ^ 31 ->
  exists tr,
    ISR_trace cfg
      (repeat all_clear (Nat.max 1 (Z.to_nat (step_event_count b)))) st
    = Ok tr /\
    finished q (last tr st) /\
    let p' := stepper_position (last tr st) in
    X_AXIS p' = s32 (X_AXIS p + signed (X_DIRECTION_BIT cfg) (steps_x b)) /\
    Y_AXIS p' = s32 (Y_AXIS p + signed (Y_DIRECTION_BIT cfg) (steps_y b)) /\
    Z_AXIS p' = s32 (Z_AXIS p + signed (Z_DIRECTION_BIT cfg) (steps_z b)) /\
    (- 2 ^ 31 <= X_AXIS p + signed (X_DIRECTION_BIT cfg) (steps_x b) < 2 ^ 31 ->
       X_AXIS p' = X_AXIS p + signed (X_DIRECTION_BIT cfg) (steps_x b)) /\
    (- 2 ^ 31 <= Y_AXIS p + signed (Y_DIRECTION_BIT cfg) (steps_y b) < 2 ^ 31 ->
       Y_AXIS p' = Y_AXIS p + signed (Y_DIRECTION_BIT cfg) (steps_y b)) /\
    (- 2 ^ 31 <= Z_AXIS p + signed (Z_DIRECTION_BIT cfg) (steps_z b) < 2 ^ 31 ->
       Z_AXIS p' = Z_AXIS p + signed (Z_DIRECTION_BIT cfg) (steps_z b)).
Proof. apply line_block_displacement. Qed.

Lemma line_block_moves_position_witness :
  exists tr,
    ISR_trace sample_config (repeat all_clear 6) (queued_state [example_line])
    = Ok tr /\
    X_AXIS (stepper_position (last tr (queued_state [example_line]))) = 4.
Proof.
  destruct (line_block_moves_position sample_config example_line []
              (queued_state [example_line])
              sample_config_step_pins_ok sample_config_direction_pins_ok
              example_line_ok eq_refl)
    as (tr & HT & _ & _ & _ & _ & Hx & _).
  - repeat split.
  - cbn; lia.
  - cbn; lia.
  - cbn; lia.
  - exists tr. split; [exact HT|]. apply Hx. cbn. lia.
Defined.

(** ** Homing: when the cycle returns *)

Section HomingEnds.

Variable cfg : config.

(** What the two limit checks of a turn do to the axis flags and the
    overshoot counters. *)
Lemma check_limits_flags (lb : Z) (f : homing_frame) :
  let f' := check_limits cfg lb f in
  let hit_x := Z.land lb (Z.shiftl 1 (X1_LIMIT_BIT cfg)) =? 0 in
  let hit_y := Z.land lb (Z.shiftl 1 (Y1_LIMIT_BIT cfg)) =? 0 in
  z_axis f' = z_axis f /\
  x_axis f' = x_axis f && negb (hit_x && (x_overshoot_count f =? 0)) /\
  y_axis f' = y_axis f && negb (hit_y && (y_overshoot_count f =? 0)) /\
  x_overshoot_count f'
  = (if x_axis f && hit_x && negb (x_overshoot_count f =? 0)
     then u8 (x_overshoot_count f - 1) else x_overshoot_count f) /\
  y_overshoot_count f'
  = (if y_axis f && hit_y && negb (y_overshoot_count f =? 0)
     then u8 (y_overshoot_count f - 1) else y_overshoot_count f).
Proof.
  cbv zeta. unfold check_limits.
  destruct (x_axis f) eqn:Hx;
  destruct (Z.land lb (Z.shiftl 1 (X1_LIMIT_BIT cfg)) =? 0);
  destruct (x_overshoot_count f =? 0) eqn:Hcx;
  cbn [andb negb x_axis y_axis z_axis h_out_bits x_overshoot_count
       y_overshoot_count];
  destruct (y_axis f) eqn:Hy;
  destruct (Z.land lb (Z.shiftl 1 (Y1_LIMIT_BIT cfg)) =? 0);
  destruct (y_overshoot_count f =? 0) eqn:Hcy;
  cbn [andb negb x_axis y_axis z_axis h_out_bits x_overshoot_count
       y_overshoot_count];
  rewrite ?Hx, ?Hy; splits; reflexivity.
Qed.

(** With the Z axis asked for, the loop pulses at every reading and is
    still looping when the readings run out. *)
Lemma homing_loop_z (reverse_direction : bool) (d : Z) (pins : list Z) :
  forall f st,
    z_axis f = true ->
    exists f' st',
      homing_loop cfg reverse_direction d pins f st = (false, f', st', []) /\
      length (emitted (ext st'))
      = (length pins + length (emitted (ext st)))%nat /\
      stepper_position st' = stepper_position st.
Proof.
  induction pins as [|pin pins IH]; intros f st Hz.
  - exists f, st. cbn. auto.
  - cbn [homing_loop]. unfold homing_iteration. cbv zeta.
    destruct (check_limits_flags (read_limit_bits cfg reverse_direction pin) f)
      as (Fz & _).
    cbv zeta in Fz. rewrite Fz, Hz, !orb_true_r.
    set (f1 := check_limits cfg _ f) in *.
    destruct (IH f1 (homing_pulse cfg d f1 st)) as (f' & st' & HL & He & Hp).
    { now rewrite Fz. }
    exists f', st'. split; [exact HL|]. split.
    + rewrite He. cbn [length]. destruct (homing_pulse_fields cfg d f1 st) as [E _].
      rewrite E. cbn [length]. lia.
    + rewrite Hp. apply homing_pulse_fields.
Qed.

(** The turns an axis still needs before it is switched off: one per
    overshoot count left, and the one that switches it off. *)
Definition turns_needed (on : bool) (count : Z) : nat :=
  if on then S (Z.to_nat count) else O.

Definition hits (reached : Z -> bool) (pins : list Z) : nat :=
  length (filter reached pins).

Lemma hits_cons (reached : Z -> bool) (pin : Z) (pins : list Z) :
  hits reached (pin :: pins)
  = ((if reached pin then 1 else 0) + hits reached pins)%nat.
Proof. unfold hits. cbn [filter]. now destruct (reached pin). Qed.

Lemma axis_turn (on hit : bool) (c : Z) (n : nat) :
  0 <= c < 256 ->
  let on' := on && negb (hit && (c =? 0)) in
  let c' := if on && hit && negb (c =? 0) then u8 (c - 1) else c in
  ((turns_needed on c <= (if hit then 1 else 0) + n)%nat
   <-> (turns_needed on' c' <= n)%nat) /\
  0 <= c' < 256.
Proof.
  intros Hc. cbv zeta. unfold turns_needed.
  destruct on, hit; destruct (Z.eqb_spec c 0) as [->|Hne];
    cbn [andb negb]; rewrite ?u8_small by lia; split; lia.
Qed.

(** Without the Z axis, the loop reaches its [break] exactly when each
    axis still on meets its stop condition often enough in the readings. *)
Lemma homing_loop_done (reverse_direction : bool) (d : Z) (pins : list Z) :
  forall f st,
    z_axis f = false ->
    0 <= x_overshoot_count f < 256 ->
    0 <= y_overshoot_count f < 256 ->
    fst (fst (fst (homing_loop cfg reverse_direction d pins f st))) = true
    <-> (pins <> [] /\
         (turns_needed (x_axis f) (x_overshoot_count f)
          <= hits (x_limit_reached cfg reverse_direction) pins)%nat /\
         (turns_needed (y_axis f) (y_overshoot_count f)
          <= hits (y_limit_reached cfg reverse_direction) pins)%nat).
Proof.
  induction pins as [|pin pins IH]; intros f st Hz Hcx Hcy.
  - cbn. split; [discriminate|]. intros (H & _). now elim H.
  - cbn [homing_loop]. unfold homing_iteration. cbv zeta.
    rewrite !hits_cons.
    destruct (check_limits_flags (read_limit_bits cfg reverse_direction pin) f)
      as (Fz & Fx & Fy & Cx & Cy).
    cbv zeta in Fz, Fx, Fy, Cx, Cy.
    fold (x_limit_reached cfg reverse_direction pin) in Fx, Cx.
    fold (y_limit_reached cfg reverse_direction pin) in Fy, Cy.
    destruct (axis_turn (x_axis f)
                (x_limit_reached cfg reverse_direction pin)
                (x_overshoot_count f)
                (hits (x_limit_reached cfg reverse_direction) pins) Hcx)
      as [Tx Rx].
    destruct (axis_turn (y_axis f)
                (y_limit_reached cfg reverse_direction pin)
                (y_overshoot_count f)
                (hits (y_limit_reached cfg reverse_direction) pins) Hcy)
      as [Ty Ry].
    rewrite <- Fx, <- Cx in Tx. rewrite <- Fy, <- Cy in Ty.
    rewrite <- Cx in Rx. rewrite <- Cy in Ry.
    set (f1 := check_limits cfg _ f) in *.
    assert (Hz1 : z_axis f1 = false) by now rewrite Fz.
    rewrite Hz1, orb_false_r.
    destruct (x_axis f1 || y_axis f1) eqn:Hon.
    + rewrite (IH f1 (homing_pulse cfg d f1 st) Hz1 Rx Ry).
      split.
      * intros (_ & H1 & H2). split; [discriminate|].
        split; [now apply Tx|now apply Ty].
      * intros (_ & H1 & H2). apply Tx in H1. apply Ty in H2.
        split; [|split; assumption].
        intros E. rewrite E in H1, H2. unfold hits in H1, H2.
        cbn [filter length] in H1, H2. unfold turns_needed in H1, H2.
        destruct (x_axis f1), (y_axis f1); try discriminate Hon; lia.
    + cbn [fst]. split; [|reflexivity]. intros _.
      split; [discriminate|].
      apply orb_false_elim in Hon. destruct Hon as [Ox Oy].
      rewrite Ox in Tx. rewrite Oy in Ty.
      split; [apply Tx|apply Ty]; unfold turns_needed; lia.
Qed.

End HomingEnds.

(** X10.  A homing cycle asked to home the Z axis never returns: Z has no
    limit check, so the loop pulses at every reading of the limit pins, is
    still looping when the readings run out, and the position is not
    cleared. *)
Theorem homing_with_Z_never_returns (cfg : config) (x y reverse_direction : bool)
    (mpp : Z) (pins : list Z) (st : state) :
  let '(done, st', rest) :=
    homing_cycle cfg x y true reverse_direction mpp pins st in
  done = false /\
  rest = [] /\
  length (new_events st st') = length pins /\
  stepper_position st' = stepper_position st.
Proof.
  unfold homing_cycle. cbv zeta.
  match goal with
  | |- context [homing_loop cfg reverse_direction ?d pins ?f ?s] =>
      destruct (homing_loop_z cfg reverse_direction d pins f s eq_refl)
        as (f' & st' & HL & He & Hp)
  end.
  rewrite HL. splits; try reflexivity.
  - unfold new_events. rewrite He.
    change (length (emitted (ext (upd_regs _ st))))
      with (length (emitted (ext st))) in *.
    replace (length pins + length (emitted (ext st))
             - length (emitted (ext st)))%nat with (length pins) by lia.
    apply firstn_length_le. lia.
  - exact Hp.
Qed.

(** X11.  A homing cycle of X and Y (not Z) returns exactly when the
    limit pins show each requested axis at its stop condition in at least
    seven readings, consecutive or not; it then has cleared the position. *)
Theorem homing_cycle_returns_iff (cfg : config) (x y reverse_direction : bool)
    (mpp : Z) (pins : list Z) (st : state) :
  let '(done, st', _) :=
    homing_cycle cfg x y false reverse_direction mpp pins st in
  (done = true
   <-> (pins <> [] /\
        (x = true ->
         (7 <= hits (x_limit_reached cfg reverse_direction) pins)%nat) /\
        (y = true ->
         (7 <= hits (y_limit_reached cfg reverse_direction) pins)%nat))) /\
  (done = true ->
   stepper_position st' = {| X_AXIS := 0; Y_AXIS := 0; Z_AXIS := 0 |}).
Proof.
  destruct (homing_cycle cfg x y false reverse_direction mpp pins st)
    as [[done st'] rest] eqn:H.
  split.
  - revert H. unfold homing_cycle. cbv zeta.
    match goal with
    | |- context [homing_loop cfg reverse_direction ?d pins ?f ?s] =>
        pose proof (homing_loop_done cfg reverse_direction d pins f s
                      eq_refl ltac:(cbn; lia) ltac:(cbn; lia)) as HD;
        destruct (homing_loop cfg reverse_direction d pins f s)
          as [[[done0 f0] st0] rest0]
    end.
    cbn [fst] in HD.
    change (x_axis (homing_entry cfg x y false reverse_direction)) with x in HD.
    change (y_axis (homing_entry cfg x y false reverse_direction)) with y in HD.
    change (x_overshoot_count (homing_entry cfg x y false reverse_direction))
      with 6 in HD.
    change (y_overshoot_count (homing_entry cfg x y false reverse_direction))
      with 6 in HD.
    unfold turns_needed in HD. change (S (Z.to_nat 6)) with 7%nat in HD.
    intros E.
    assert (Ed : done0 = done) by (destruct done0; inversion E; reflexivity).
    rewrite Ed in HD. rewrite HD.
    split; intros (Hne & Hx & Hy); (split; [exact Hne|]).
    + split; intros ->; assumption.
    + destruct x, y; split; auto; lia.
  - intros ->. apply (homing_cycle_spec cfg) in H. apply H.
Qed.

(** Readings on [sample_config] in which the switches bounce: X (bit 0)
    and Y (bit 2) read closed in seven readings each, with open readings in
    between. *)
Definition bouncing_pins : list Z :=
  [0; 15; 0; 0; 15; 0; 0; 15; 0; 0; 15].

Lemma homing_cycle_returns_iff_witness :
  fst (fst (homing_cycle sample_config true true false false 1000
              bouncing_pins power_on_state)) = true.
Proof.
  pose proof (homing_cycle_returns_iff sample_config true true false 1000
                bouncing_pins power_on_state) as H.
  destruct (homing_cycle sample_config true true false false 1000
              bouncing_pins power_on_state) as [[done st'] rest].
  destruct H as [H _]. cbn [fst]. apply H.
  split; [discriminate|]. split; intros _; vm_compute; lia.
Defined.

(** ** Homing: what the cycle touches *)

Lemma state_eta (st : state) :
  st = upd_regs (set_STEPPING_PORT (STEPPING_PORT (regs st)))
         (upd_ext (set_emitted (emitted (ext st))) st).
Proof. destruct st as [? ? ? ? ? ? ? ? ? ? ? ? ? ? r e]. now destruct r, e. Qed.

Lemma homing_pulse_port (cfg : config) (d : Z) (f : homing_frame) (st : state)
    (i : Z) :
  0 <= i < 8 ->
  Z.testbit (STEPPING_MASK cfg) i = false ->
  Z.testbit (STEPPING_PORT (regs (homing_pulse cfg d f st))) i
  = Z.testbit (STEPPING_PORT (regs st)) i.
Proof.
  intros Hi Hm. unfold homing_pulse. cbv zeta. fields.
  rewrite !u8_testbit by lia.
  rewrite Z.lxor_spec, u8_testbit, Z.lor_spec, Z.land_spec, Hm by lia.
  now rewrite andb_false_r, orb_false_r, xorb_false_r.
Qed.

(** The loop changes the stepping port and the pulse log only, and on the
    port only pins of the stepping mask. *)
Lemma homing_loop_footprint (cfg : config) (reverse_direction : bool) (d : Z)
    (pins : list Z) :
  forall f st,
    let st' := snd (fst (homing_loop cfg reverse_direction d pins f st)) in
    (exists port log,
       st' = upd_regs (set_STEPPING_PORT port) (upd_ext (set_emitted log) st)) /\
    (forall i, 0 <= i < 8 -> Z.testbit (STEPPING_MASK cfg) i = false ->
       Z.testbit (STEPPING_PORT (regs st')) i
       = Z.testbit (STEPPING_PORT (regs st)) i).
Proof.
  induction pins as [|pin pins IH]; intros f st; cbv zeta.
  - cbn [homing_loop fst snd]. split; [|reflexivity].
    eexists _, _. apply state_eta.
  - cbn [homing_loop]. unfold homing_iteration. cbv zeta.
    set (f1 := check_limits cfg _ f).
    destruct (x_axis f1 || y_axis f1 || z_axis f1).
    + destruct (IH f1 (homing_pulse cfg d f1 st)) as [(port & log & E) Hp].
      cbv zeta in E, Hp.
      set (st' := snd (fst (homing_loop cfg reverse_direction d pins f1
                              (homing_pulse cfg d f1 st)))) in *.
      clearbody st'. split.
      * exists port, log. rewrite E. reflexivity.
      * intros i Hi Hm. rewrite (Hp i Hi Hm).
        now apply homing_pulse_port.
    + cbn [fst snd]. split; [|reflexivity].
      eexists _, _. apply state_eta.
Qed.

Lemma homing_entry_direction (cfg : config) (x y z reverse_direction : bool)
    (i : Z) :
  0 <= i < 8 ->
  0 <= X_STEP_BIT cfg -> 0 <= Y_STEP_BIT cfg -> 0 <= Z_STEP_BIT cfg ->
  i <> X_STEP_BIT cfg -> i <> Y_STEP_BIT cfg -> i <> Z_STEP_BIT cfg ->
  Z.testbit (DIRECTION_MASK cfg) i = true ->
  Z.testbit (h_out_bits (homing_entry cfg x y z reverse_direction)) i
  = xorb (negb reverse_direction) (Z.testbit (INVERT_MASK cfg) i).
Proof.
  intros Hi Hx Hy Hz Nx Ny Nz Hd. unfold homing_entry. cbv zeta.
  cbn [h_out_bits].
  rewrite u8_testbit, Z.lxor_spec by lia. f_equal.
  assert (Hs : forall a k, 0 <= k -> i <> k ->
            Z.testbit (u8 (Z.lor a (Z.shiftl 1 k))) i = Z.testbit a i).
  { intros a k Hk Hne.
    rewrite u8_testbit, Z.lor_spec, shiftl_1_testbit by lia.
    destruct (Z.eqb_spec k i); [lia|]. apply orb_false_r. }
  assert (Hbase : Z.testbit
            (if z then u8 (Z.lor
               (if y then u8 (Z.lor
                  (if x then u8 (Z.lor (u8 (DIRECTION_MASK cfg))
                                   (Z.shiftl 1 (X_STEP_BIT cfg)))
                   else u8 (DIRECTION_MASK cfg))
                  (Z.shiftl 1 (Y_STEP_BIT cfg)))
                else if x then u8 (Z.lor (u8 (DIRECTION_MASK cfg))
                                     (Z.shiftl 1 (X_STEP_BIT cfg)))
                     else u8 (DIRECTION_MASK cfg))
               (Z.shiftl 1 (Z_STEP_BIT cfg)))
             else if y then u8 (Z.lor
                  (if x then u8 (Z.lor (u8 (DIRECTION_MASK cfg))
                                   (Z.shiftl 1 (X_STEP_BIT cfg)))
                   else u8 (DIRECTION_MASK cfg))
                  (Z.shiftl 1 (Y_STEP_BIT cfg)))
                else if x then u8 (Z.lor (u8 (DIRECTION_MASK cfg))
                                     (Z.shiftl 1 (X_STEP_BIT cfg)))
                     else u8 (DIRECTION_MASK cfg)) i = true).
  { destruct x, y, z; rewrite ?Hs by lia; now rewrite u8_testbit by lia. }
  destruct reverse_direction.
  - rewrite u8_testbit, Z.lxor_spec, Hbase, Hd by lia. reflexivity.
  - exact Hbase.
Qed.

(** X12.  A homing cycle changes nothing of the driver but the stepping
    port, the pulse log and the position: the block in progress, the tracer
    counters, the timers, the stop flags and the queue are as before.  On
    the port, pins outside the stepping and direction masks keep their
    level, and every direction pin is left high in the approach phase and
    low in the reverse phase (before the invert mask). *)
Theorem homing_cycle_footprint (cfg : config) (x y z reverse_direction : bool)
    (mpp : Z) (pins : list Z) (st : state) :
  let st' :=
    snd (fst (homing_cycle cfg x y z reverse_direction mpp pins st)) in
  (exists port log pos,
     st' = set_stepper_position pos
             (upd_regs (set_STEPPING_PORT port)
                (upd_ext (set_emitted log) st))) /\
  (forall i, 0 <= i < 8 ->
     Z.testbit (STEPPING_MASK cfg) i = false ->
     Z.testbit (DIRECTION_MASK cfg) i = false ->
     Z.testbit (STEPPING_PORT (regs st')) i
     = Z.testbit (STEPPING_PORT (regs st)) i) /\
  (forall i, 0 <= i < 8 ->
     0 <= X_STEP_BIT cfg -> 0 <= Y_STEP_BIT cfg -> 0 <= Z_STEP_BIT cfg ->
     i <> X_STEP_BIT cfg -> i <> Y_STEP_BIT cfg -> i <> Z_STEP_BIT cfg ->
     Z.testbit (STEPPING_MASK cfg) i = false ->
     Z.testbit (DIRECTION_MASK cfg) i = true ->
     Z.testbit (STEPPING_PORT (regs st')) i
     = xorb (negb reverse_direction) (Z.testbit (INVERT_MASK cfg) i)).
Proof.
  cbv zeta. unfold homing_cycle. cbv zeta.
  set (f := homing_entry cfg x y z reverse_direction).
  set (s1 := upd_regs _ st).
  assert (P1 : forall i, 0 <= i < 8 ->
            Z.testbit (STEPPING_PORT (regs s1)) i
            = if Z.testbit (DIRECTION_MASK cfg) i
              then Z.testbit (h_out_bits f) i
              else Z.testbit (STEPPING_PORT (regs st)) i).
  { intros i Hi. unfold s1. fields.
    rewrite u8_testbit, Z.lor_spec, !Z.land_spec, Z.lnot_spec by lia.
    destruct (Z.testbit (DIRECTION_MASK cfg) i); cbn [negb];
      now rewrite ?andb_false_r, ?andb_true_r, ?orb_false_r. }
  assert (E1 : s1 = upd_regs (set_STEPPING_PORT (STEPPING_PORT (regs s1)))
                      (upd_ext (set_emitted (emitted (ext st))) st)).
  { unfold s1. destruct st as [? ? ? ? ? ? ? ? ? ? ? ? ? ? r e].
    now destruct r, e. }
  destruct (homing_loop_footprint cfg reverse_direction
              (u32 (mpp - CONFIG_PULSE_MICROSECONDS cfg)) pins f s1)
    as [(port & log & E) Hp].
  cbv zeta in E, Hp.
  destruct (homing_loop cfg reverse_direction _ pins f s1)
    as [[[done f'] st'] rest].
  cbn [fst snd] in E, Hp.
  assert (Hport : STEPPING_PORT (regs (if done
            then set_stepper_position (clear_vector (stepper_position st')) st'
            else st')) = STEPPING_PORT (regs st'))
    by now destruct done.
  assert (Hst : snd (fst (if done
            then (true, set_stepper_position
                          (clear_vector (stepper_position st')) st', rest)
            else (false, st', rest)))
          = (if done
             then set_stepper_position (clear_vector (stepper_position st')) st'
             else st'))
    by now destruct done.
  rewrite Hst. clear Hst. splits.
  - rewrite E, E1. destruct done.
    + eexists port, log, _. reflexivity.
    + exists port, log, (stepper_position st). reflexivity.
  - intros i Hi Hs Hd. rewrite Hport, (Hp i Hi Hs), (P1 i Hi), Hd. reflexivity.
  - intros i Hi Hx Hy Hz Nx Ny Nz Hs Hd.
    rewrite Hport, (Hp i Hi Hs), (P1 i Hi), Hd.
    now apply homing_entry_direction.
Qed.


Lemma homing_cycle_footprint_witness :
  Z.testbit
    (STEPPING_PORT
       (regs (snd (fst (homing_cycle sample_config true true false true 10000
                          bouncing_pins power_on_state))))) 4
  = false.
Proof.
  destruct (homing_cycle_footprint sample_config true true false true 10000
              bouncing_pins power_on_state) as (_ & _ & H).
  cbv zeta in H.
  rewrite (H 4); [reflexivity|cbn; lia|cbn; lia|cbn; lia|cbn; lia| | | | | ];
    try (cbn; lia); reflexivity.
Defined.

(** ** Staying awake while there is work *)

(** The driver keeps processing: the flag [stepper_synchronize] waits on
    and the Timer1 interrupt enable are as before. *)
Definition stays_awake (st st' : state) : Prop :=
  processing_flag st' = processing_flag st /\
  TIMSK1 (regs st') = TIMSK1 (regs st).

Lemma stays_awake_trans (a b c : state) :
  stays_awake a b -> stays_awake b c -> stays_awake a c.
Proof.
  unfold stays_awake. intros (A1 & A2) (B1 & B2).
  split; [now rewrite B1|now rewrite B2].
Qed.

Lemma trace_axis_awake (cfg : config) (b : block) (st : state) :
  stays_awake st (trace_x cfg b st) /\
  stays_awake st (trace_y cfg b st) /\
  stays_awake st (trace_z cfg b st).
Proof.
  unfold stays_awake, trace_x, trace_y, trace_z. cbv zeta.
  splits; split_ifs; reflexivity.
Qed.

Lemma trace_line_awake (cfg : config) (b : block) (st : state) :
  stays_awake st (trace_line cfg b st).
Proof.
  rewrite trace_line_parts.
  set (s0 := trace_begin b st).
  assert (F0 : stays_awake st s0) by (split; reflexivity).
  clearbody s0.
  destruct (trace_axis_awake cfg b s0) as (F1 & _).
  set (s1 := trace_x cfg b s0) in *. clearbody s1.
  destruct (trace_axis_awake cfg b s1) as (_ & F2 & _).
  set (s2 := trace_y cfg b s1) in *. clearbody s2.
  destruct (trace_axis_awake cfg b s2) as (_ & _ & F3).
  set (s3 := trace_z cfg b s2) in *. clearbody s3.
  assert (F4 : stays_awake s3 (trace_end cfg s3)) by (split; reflexivity).
  apply (stays_awake_trans st s0 _ F0).
  apply (stays_awake_trans s0 s1 _ F1).
  apply (stays_awake_trans s1 s2 _ F2).
  apply (stays_awake_trans s2 s3 _ F3). exact F4.
Qed.

Lemma adjust_speed_awake (cfg : config) (rate : Z) (st st' : state) :
  adjust_speed cfg rate st = Ok st' -> stays_awake st st'.
Proof.
  unfold adjust_speed.
  destruct (_ =? 0); [discriminate|].
  unfold config_step_timer. cbv zeta. fields.
  destruct (current_block st); [|discriminate].
  intros H. inversion H. split; reflexivity.
Qed.

Lemma speed_adjustment_awake (cfg : config) (b : block) (st st' : state) :
  speed_adjustment cfg b st = Ok st' -> stays_awake st st'.
Proof.
  unfold speed_adjustment, acceleration_tick. cbv zeta.
  repeat match goal with
  | |- context [if ?c then _ else _] =>
      lazymatch c with
      | context [if _ then _ else _] => fail
      | _ => destruct c
      end
  end;
  intros H;
  first [ apply adjust_speed_awake in H; exact H
        | inversion H; split; reflexivity ].
Qed.

Lemma start_line_block_awake (cfg : config) (b : block) (st st' : state) :
  start_line_block cfg b st = Ok st' -> stays_awake st st'.
Proof.
  unfold start_line_block. cbv zeta.
  destruct (adjust_speed cfg _ _) as [s1|f] eqn:E; cbn [bind];
    [|discriminate].
  apply adjust_speed_awake in E.
  intros H. inversion H.
  destruct E as [E1 E2]. split; [exact E1|exact E2].
Qed.

Lemma process_block_awake (cfg : config) (b : block) (st st' : state) :
  process_block cfg b st = Ok st' -> stays_awake st st'.
Proof.
  unfold process_block. destruct (type b).
  - intros H. apply speed_adjustment_awake in H.
    apply (stays_awake_trans st (trace_line cfg b st) st');
      [apply trace_line_awake|exact H].
  - intros H. inversion H. split; reflexivity.
  - intros H. inversion H. split; reflexivity.
  - intros H. inversion H. split; reflexivity.
Qed.

(** There is a block in progress or queued, and nothing holds the
    interrupt back. *)
Definition has_work (st : state) : Prop :=
  busy st = false /\
  stop_requested st = false /\
  (current_block st <> None \/ block_buffer (ext st) <> []).

(** A run that has work to do does not put the driver to sleep. *)
Lemma ISR_awake (cfg : config) (st st' : state) :
  has_work st ->
  ISR cfg all_clear st = Ok st' ->
  stays_awake st st'.
Proof.
  intros (Hb & Hs & Hw). unfold ISR. rewrite Hb.
  cbn [stop_requested set_busy]. rewrite Hs.
  change (SENSE_ANY all_clear) with false. cbv iota.
  set (p := pulse_steppers cfg (set_busy true st)).
  assert (Pa : stays_awake st p) by (split; reflexivity).
  assert (Pc : current_block p = current_block st) by reflexivity.
  assert (Pq : block_buffer (ext p) = block_buffer (ext st)) by reflexivity.
  clearbody p.
  destruct (current_block p) as [b|] eqn:Hc.
  - destruct (process_block cfg b p) as [s2|f] eqn:E; cbn [bind];
      [|discriminate].
    apply process_block_awake in E. intros H. inversion H.
    apply (stays_awake_trans st p _ Pa).
    apply (stays_awake_trans p s2 _ E). split; reflexivity.
  - unfold planner_get_current_block. rewrite Pq.
    destruct (block_buffer (ext st)) as [|b q] eqn:Hq.
    { destruct Hw as [Hw|Hw]; [rewrite <- Pc in Hw|]; congruence. }
    cbn [hd_error].
    set (p1 := set_current_block (Some b) p).
    assert (P1 : stays_awake p p1) by (split; reflexivity).
    clearbody p1.
    assert (Hstart : forall p2,
              match type b with
              | TYPE_LINE => start_line_block cfg b p1
              | _ => Ok p1
              end = Ok p2 -> stays_awake p1 p2).
    { intros p2. destruct (type b); intros H;
        first [ now apply start_line_block_awake in H
              | inversion H; split; reflexivity ]. }
    destruct (match type b with
              | TYPE_LINE => start_line_block cfg b p1
              | _ => Ok p1
              end) as [p2|f]; cbn [bind]; [|discriminate].
    specialize (Hstart p2 eq_refl).
    destruct (process_block cfg b p2) as [s2|f] eqn:E; cbn [bind];
      [|discriminate].
    apply process_block_awake in E. intros H. inversion H.
    apply (stays_awake_trans st p _ Pa).
    apply (stays_awake_trans p p1 _ P1).
    apply (stays_awake_trans p1 p2 _ Hstart).
    apply (stays_awake_trans p2 s2 _ E). split; reflexivity.
Qed.

(** Runs of the interrupt are related step by step when the states they
    start from all satisfy [Q]. *)
Lemma ISR_trace_chained (cfg : config) (Q : state -> Prop)
    (R : state -> state -> Prop) :
  (forall st st', Q st -> ISR cfg all_clear st = Ok st' -> R st st') ->
  forall n st tr,
    ISR_trace cfg (repeat all_clear n) st = Ok tr ->
    Q st -> Forall Q (removelast tr) ->
    chained R (st :: tr).
Proof.
  intros HR. induction n as [|n IH]; intros st tr HT HQ HF.
  - cbn in HT. inversion HT. constructor.
  - cbn [repeat ISR_trace] in HT.
    destruct (ISR cfg all_clear st) as [st'|f] eqn:HI; cbn [bind] in HT;
      [|discriminate].
    destruct (ISR_trace cfg (repeat all_clear n) st') as [tr'|f] eqn:HT';
      cbn [bind] in HT; [|discriminate].
    inversion HT; subst tr. clear HT.
    constructor; [now apply HR|].
    destruct tr' as [|s tr'].
    + constructor.
    + change (removelast (st' :: s :: tr'))
        with (st' :: removelast (s :: tr')) in HF.
      inversion HF; subst. now apply (IH st').
Qed.

Lemma ISR_trace_app (cfg : config) (ss1 ss2 : list sense) :
  forall st tr1 tr2,
    ISR_trace cfg ss1 st = Ok tr1 ->
    ISR_trace cfg ss2 (last tr1 st) = Ok tr2 ->
    ISR_trace cfg (ss1 ++ ss2) st = Ok (tr1 ++ tr2).
Proof.
  induction ss1 as [|s ss1 IH]; intros st tr1 tr2 H1 H2.
  - cbn in H1. inversion H1; subst. exact H2.
  - cbn [app ISR_trace] in *.
    destruct (ISR cfg s st) as [st'|f]; cbn [bind] in *; [|discriminate].
    destruct (ISR_trace cfg ss1 st') as [tr|f] eqn:HT; cbn [bind] in *;
      [|discriminate].
    inversion H1; subst tr1. rewrite last_cons in H2.
    rewrite (IH st' tr tr2 HT H2). reflexivity.
Qed.

Lemma last_app_default {A : Type} (l1 l2 : list A) (d : A) :
  last (l1 ++ l2) d = last l2 (last l1 d).
Proof.
  revert d. induction l1 as [|a l1 IH]; intros d; [reflexivity|].
  change ((a :: l1) ++ l2) with (a :: (l1 ++ l2)).
  now rewrite !last_cons, IH.
Qed.

(** ** A queue of blocks, run to the end *)

Definition in_range32 (p : vec3) : Prop :=
  - 2 ^ 31 <= X_AXIS p < 2 ^ 31 /\
  - 2 ^ 31 <= Y_AXIS p < 2 ^ 31 /\
  - 2 ^ 31 <= Z_AXIS p < 2 ^ 31.

(** The position a block leaves behind: a LINE block moves each axis by
    its step count, against the axis when its direction bit is set; the
    other blocks do not move. *)
Definition displaced (cfg : config) (b : block) (p : vec3) : vec3 :=
  let signed (d : Z) (n : Z) :=
    if Z.testbit (direction_bits b) d then - n else n in
  match type b with
  | TYPE_LINE =>
      {| X_AXIS := s32 (X_AXIS p + signed (X_DIRECTION_BIT cfg) (steps_x b));
         Y_AXIS := s32 (Y_AXIS p + signed (Y_DIRECTION_BIT cfg) (steps_y b));
         Z_AXIS := s32 (Z_AXIS p + signed (Z_DIRECTION_BIT cfg) (steps_z b)) |}
  | _ => p
  end.

(** The runs of the interrupt a block takes. *)
Definition runs_of (b : block) : nat :=
  match type b with
  | TYPE_LINE => Nat.max 1 (Z.to_nat (step_event_count b))
  | _ => 1
  end.

Definition program_runs (bs : list block) : nat := list_sum (map runs_of bs).

Definition block_wellformed (cfg : config) (b : block) : Prop :=
  type b = TYPE_LINE -> line_block_ok cfg b.

Lemma displaced_in_range (cfg : config) (b : block) (p : vec3) :
  in_range32 p -> in_range32 (displaced cfg b p).
Proof.
  intros H. unfold displaced. cbv zeta.
  destruct (type b); try exact H.
  repeat split; apply s32_range.
Qed.

Lemma running_has_work (b : block) (q : list block) (st : state) :
  running b q st -> has_work st.
Proof.
  intros (Hb & Hs & Hc & _). repeat split; try assumption.
  left. congruence.
Qed.

Lemma queued_has_work (b : block) (q : list block) (st : state) :
  block_queued b q st -> has_work st.
Proof.
  intros (Hb & Hs & _ & Hq). repeat split; try assumption.
  right. congruence.
Qed.

Section Program.

Variable cfg : config.
Hypothesis step_pins : step_pins_ok cfg.
Hypothesis dir_pins : direction_pins_ok cfg.
Hypothesis min_rate_pos : 0 < MINIMUM_STEPS_PER_MINUTE cfg.

(** One block of the queue, from the run that fetches it to the run that
    releases it. *)
Lemma block_run (b : block) (q : list block) (st : state) :
  block_wellformed cfg b ->
  block_queued b q st ->
  in_range32 (stepper_position st) ->
  exists tr,
    ISR_trace cfg (repeat all_clear (runs_of b)) st = Ok tr /\
    length tr = runs_of b /\
    finished q (last tr st) /\
    stepper_position (last tr st) = displaced cfg b (stepper_position st) /\
    Forall (stays_awake st) tr.
Proof.
  intros Hwf Hq (Rx & Ry & Rz).
  assert (Hchain : forall tr, chained stays_awake (st :: tr) ->
                   Forall (stays_awake st) tr).
  { intros tr Hch.
    apply (chained_Forall stays_awake (stays_awake st)) with (x := st).
    - intros a c Hac Ha. now apply (stays_awake_trans st a c).
    - exact Hch.
    - split; reflexivity. }
  unfold runs_of, displaced. cbv zeta.
  destruct (type b) eqn:Hty.
  - specialize (Hwf Hty).
    destruct (line_block_displacement cfg b q st step_pins dir_pins Hwf
                min_rate_pos Hq Rx Ry Rz)
      as (tr & HT & Hfin & Px & Py & Pz & _).
    destruct (ISR_trace_block cfg b step_pins Hwf min_rate_pos q st Hq)
      as (s0 & tr0 & HT0 & _ & _ & _ & Hlen & _ & _ & _ & _ & _ & _ & _ & Hrun).
    cbv zeta in HT0, Hlen, Hrun. rewrite HT in HT0.
    inversion HT0; subst tr0. clear HT0.
    exists tr. splits; try assumption.
    + destruct (stepper_position (last tr st)) as [px py pz].
      cbn [X_AXIS Y_AXIS Z_AXIS] in Px, Py, Pz. now rewrite Px, Py, Pz.
    + apply Hchain.
      apply (ISR_trace_chained cfg has_work stays_awake (ISR_awake cfg)
               _ st tr HT).
      * now apply (queued_has_work b q).
      * eapply Forall_impl; [|exact Hrun].
        intros s. apply running_has_work.
  - destruct (ISR_actuator_block cfg b q st ltac:(congruence) Hq)
      as (st' & HI & Hfin & _ & _ & _ & Hp & _).
    exists [st']. cbn [repeat ISR_trace last length]. rewrite HI. cbn [bind].
    splits; try reflexivity; try assumption.
    apply Hchain.
    apply (ISR_trace_chained cfg has_work stays_awake (ISR_awake cfg)
             1%nat st [st']).
    + cbn [repeat ISR_trace]. rewrite HI. reflexivity.
    + now apply (queued_has_work b q).
    + constructor.
  - destruct (ISR_actuator_block cfg b q st ltac:(congruence) Hq)
      as (st' & HI & Hfin & _ & _ & _ & Hp & _).
    exists [st']. cbn [repeat ISR_trace last length]. rewrite HI. cbn [bind].
    splits; try reflexivity; try assumption.
    apply Hchain.
    apply (ISR_trace_chained cfg has_work stays_awake (ISR_awake cfg)
             1%nat st [st']).
    + cbn [repeat ISR_trace]. rewrite HI. reflexivity.
    + now apply (queued_has_work b q).
    + constructor.
  - destruct (ISR_actuator_block cfg b q st ltac:(congruence) Hq)
      as (st' & HI & Hfin & _ & _ & _ & Hp & _).
    exists [st']. cbn [repeat ISR_trace last length]. rewrite HI. cbn [bind].
    splits; try reflexivity; try assumption.
    apply Hchain.
    apply (ISR_trace_chained cfg has_work stays_awake (ISR_awake cfg)
             1%nat st [st']).
    + cbn [repeat ISR_trace]. rewrite HI. reflexivity.
    + now apply (queued_has_work b q).
    + constructor.
Qed.

(** The whole queue, block after block. *)
Lemma program_run (bs : list block) :
  forall st,
    Forall (block_wellformed cfg) bs ->
    busy st = false ->
    stop_requested st = false ->
    current_block st = None ->
    block_buffer (ext st) = bs ->
    in_range32 (stepper_position st) ->
    exists tr,
      ISR_trace cfg (repeat all_clear (program_runs bs)) st = Ok tr /\
      length tr = program_runs bs /\
      finished [] (last tr st) /\
      stepper_position (last tr st)
      = fold_left (fun p b => displaced cfg b p) bs (stepper_position st) /\
      Forall (stays_awake st) tr.
Proof.
  induction bs as [|b q IH]; intros st Hwf Hb Hs Hc Hq Hr.
  - exists []. cbn. splits; try reflexivity;
      [repeat split; assumption|constructor].
  - inversion Hwf as [|? ? Hwb Hwq]; subst.
    destruct (block_run b q st Hwb) as (tr1 & HT1 & L1 & Hfin & Hp1 & Ha1).
    { repeat split; assumption. }
    { exact Hr. }
    pose proof Hfin as (Hb1 & Hs1 & Hc1 & Hq1).
    destruct (IH (last tr1 st) Hwq Hb1 Hs1 Hc1 Hq1)
      as (tr2 & HT2 & L2 & Hfin2 & Hp2 & Ha2).
    { rewrite Hp1. now apply displaced_in_range. }
    exists (tr1 ++ tr2).
    change (program_runs (b :: q)) with (runs_of b + program_runs q)%nat.
    rewrite repeat_app, last_app_default, length_app, L1, L2.
    splits.
    + now apply ISR_trace_app.
    + reflexivity.
    + exact Hfin2.
    + rewrite Hp2, Hp1. reflexivity.
    + apply Forall_app. split; [exact Ha1|].
      assert (Hst : stays_awake st (last tr1 st)).
      { destruct tr1 as [|s tr1]; [split; reflexivity|].
        rewrite Forall_forall in Ha1. apply Ha1.
        rewrite last_cons. clear. revert s.
        induction tr1 as [|a tr1 IH1]; intros s; [now left|].
        rewrite last_cons. right. apply IH1. }
      eapply Forall_impl; [|exact Ha2].
      intros s. now apply stays_awake_trans.
Qed.

End Program.

(** X13.  A queue of well-formed blocks is run to its end.  Every LINE
    block takes [step_event_count] runs of the interrupt (one if it has no
    events), every other block one run; while they last the driver stays
    awake, so [stepper_synchronize] keeps waiting; the position ends at the
    start plus the signed step counts of all LINE blocks; and the run after
    the last block finds the queue empty, goes idle and lets
    [stepper_synchronize] return, without moving. *)
Theorem queue_runs_to_completion (cfg : config) (bs : list block) (st : state) :
  step_pins_ok cfg ->
  direction_pins_ok cfg ->
  0 < MINIMUM_STEPS_PER_MINUTE cfg ->
  Forall (block_wellformed cfg) bs ->
  busy st = false ->
  stop_requested st = false ->
  current_block st = None ->
  block_buffer (ext st) = bs ->
  processing_flag st = true ->
  in_range32 (stepper_position st) ->
  exists tr st',
    ISR_trace cfg (repeat all_clear (program_runs bs)) st = Ok tr /\
    length tr = program_runs bs /\
    Forall (fun s => stepper_synchronize s = None) tr /\
    current_block (last tr st) = None /\
    block_buffer (ext (last tr st)) = [] /\
    stepper_position (last tr st)
    = fold_left (fun p b => displaced cfg b p) bs (stepper_position st) /\
    ISR cfg all_clear (last tr st) = Ok st' /\
    stepper_synchronize st' = Some st' /\
    stepper_position st' = stepper_position (last tr st).
Proof.
  intros Hpins Hdir Hmin Hwf Hb Hs Hc Hq Hpf Hr.
  destruct (program_run cfg Hpins Hdir Hmin bs st Hwf Hb Hs Hc Hq Hr)
    as (tr & HT & Hlen & (Hb' & Hs' & Hc' & Hq') & Hp & Ha).
  destruct (ISR_nothing_queued cfg (last tr st) Hb' Hs' Hc' Hq')
    as (st' & HI & Hidle & _ & Hp' & _).
  exists tr, st'. splits; try assumption.
  - eapply Forall_impl; [|exact Ha].
    intros s (Hf & _). unfold stepper_synchronize. now rewrite Hf, Hpf.
  - unfold stepper_synchronize. now rewrite Hidle.
Qed.

Lemma queue_runs_to_completion_witness :
  exists tr st',
    ISR_trace sample_config (repeat all_clear 7)
      (stepper_wake_up sample_config (queued_state [air_on; example_line]))
    = Ok tr /\
    X_AXIS (stepper_position st') = 4 /\
    stepper_synchronize st' = Some st'.
Proof.
  assert (Hwf : Forall (block_wellformed sample_config) [air_on; example_line]).
  { constructor; [|constructor; [|constructor]].
    - intros Hty. discriminate Hty.
    - intros _. exact example_line_ok. }
  destruct (queue_runs_to_completion sample_config [air_on; example_line]
              (stepper_wake_up sample_config
                 (queued_state [air_on; example_line]))
              sample_config_step_pins_ok sample_config_direction_pins_ok
              eq_refl Hwf eq_refl eq_refl eq_refl eq_refl eq_refl)
    as (tr & st' & HT & _ & _ & _ & _ & Hp & _ & Hs & Hp').
  - repeat split; cbn; lia.
  - exists tr, st'. split; [exact HT|]. split; [|exact Hs].
    rewrite Hp', Hp. reflexivity.
Defined.

(** ** The direction pins during a LINE block *)

Lemma trace_line_direction_bits (cfg : config) (b : block) (st : state)
    (i : Z) :
  step_pins_ok cfg ->
  0 <= i < 8 ->
  i <> X_STEP_BIT cfg -> i <> Y_STEP_BIT cfg -> i <> Z_STEP_BIT cfg ->
  Z.testbit (out_bits (trace_line cfg b st)) i
  = xorb (Z.testbit (direction_bits b) i) (Z.testbit (INVERT_MASK cfg) i).
Proof.
  intros [Rx Ry Rz _ _ _] Hi Nx Ny Nz.
  rewrite trace_line_parts.
  destruct (trace_begin_fields b st) as (B0 & _).
  set (s0 := trace_begin b st) in *. clearbody s0.
  destruct (trace_x_fields cfg b s0) as (_ & X0 & _).
  set (s1 := trace_x cfg b s0) in *. clearbody s1.
  destruct (trace_y_fields cfg b s1) as (_ & Y0 & _).
  set (s2 := trace_y cfg b s1) in *. clearbody s2.
  destruct (trace_z_fields cfg b s2) as (_ & Z0 & _).
  set (s3 := trace_z cfg b s2) in *. clearbody s3.
  destruct (trace_end_fields cfg s3) as (F0 & _).
  cbv zeta in *.
  rewrite F0, u8_testbit, Z.lxor_spec by lia. f_equal.
  rewrite Z0, Y0, X0, B0.
  destruct (fst (bres_step _ (steps_x b) _));
  destruct (fst (bres_step _ (steps_y b) _));
  destruct (fst (bres_step _ (steps_z b) _));
  rewrite ?set_bit_testbit, ?u8_testbit by lia;
  repeat match goal with
  | |- context [?a =? ?c] => destruct (Z.eqb_spec a c); [lia|]
  end;
  rewrite ?orb_false_r; reflexivity.
Qed.

Lemma adjust_speed_out_bits (cfg : config) (rate : Z) (st st' : state) :
  adjust_speed cfg rate st = Ok st' -> out_bits st' = out_bits st.
Proof.
  unfold adjust_speed.
  destruct (_ =? 0); [discriminate|].
  unfold config_step_timer. cbv zeta. fields.
  destruct (current_block st); [|discriminate].
  intros H. inversion H. reflexivity.
Qed.

Lemma speed_adjustment_out_bits (cfg : config) (b : block) (st st' : state) :
  speed_adjustment cfg b st = Ok st' -> out_bits st' = out_bits st.
Proof.
  unfold speed_adjustment, acceleration_tick. cbv zeta.
  repeat match goal with
  | |- context [if ?c then _ else _] =>
      lazymatch c with
      | context [if _ then _ else _] => fail
      | _ => destruct c
      end
  end;
  intros H;
  first [ apply adjust_speed_out_bits in H; exact H
        | inversion H; reflexivity ].
Qed.

(** A run on a LINE block, in progress or just fetched, ends with the
    tracer and the speed adjustment of that block. *)
Lemma ISR_line_factor (cfg : config) (b : block) (q : list block)
    (st st' : state) :
  type b = TYPE_LINE ->
  busy st = false ->
  stop_requested st = false ->
  (current_block st = Some b
   \/ (current_block st = None /\ block_buffer (ext st) = b :: q)) ->
  ISR cfg all_clear st = Ok st' ->
  exists p st2,
    speed_adjustment cfg b (trace_line cfg b p) = Ok st2 /\
    st' = set_busy false st2.
Proof.
  intros Hty Hb Hs Hw. unfold ISR. rewrite Hb.
  cbn [stop_requested set_busy]. rewrite Hs.
  change (SENSE_ANY all_clear) with false. cbv iota.
  set (p := pulse_steppers cfg (set_busy true st)).
  assert (Pc : current_block p = current_block st) by reflexivity.
  assert (Pq : block_buffer (ext p) = block_buffer (ext st)) by reflexivity.
  clearbody p. rewrite Pc.
  destruct Hw as [Hc|[Hc Hq]]; rewrite Hc.
  - unfold process_block. rewrite Hty.
    destruct (speed_adjustment cfg b (trace_line cfg b p)) as [s2|f] eqn:E;
      cbn [bind]; [|discriminate].
    intros H. inversion H. now exists p, s2.
  - unfold planner_get_current_block. rewrite Pq, Hq. cbn [hd_error].
    rewrite Hty.
    destruct (start_line_block cfg b (set_current_block (Some b) p))
      as [p2|f]; cbn [bind]; [|discriminate].
    unfold process_block. rewrite Hty.
    destruct (speed_adjustment cfg b (trace_line cfg b p2)) as [s2|f] eqn:E;
      cbn [bind]; [|discriminate].
    intros H. inversion H. now exists p2, s2.
Qed.

(** X14.  Every run of the interrupt on a LINE block, the run that fetches
    it included, leaves the block's direction bits (through the invert
    mask) in [out_bits] at every bit that is not a step bit, and the next
    pulse puts them on the pins of the stepping and direction masks. *)
Theorem line_block_direction_pins (cfg : config) (b : block) (q : list block)
    (st : state) :
  step_pins_ok cfg ->
  0 < MINIMUM_STEPS_PER_MINUTE cfg ->
  type b = TYPE_LINE ->
  busy st = false ->
  stop_requested st = false ->
  (current_block st = Some b
   \/ (current_block st = None /\ block_buffer (ext st) = b :: q)) ->
  exists st',
    ISR cfg all_clear st = Ok st' /\
    forall i,
      0 <= i < 8 ->
      i <> X_STEP_BIT cfg -> i <> Y_STEP_BIT cfg -> i <> Z_STEP_BIT cfg ->
      Z.testbit (out_bits st') i
      = xorb (Z.testbit (direction_bits b) i) (Z.testbit (INVERT_MASK cfg) i)
      /\ (Z.testbit (Z.lor (STEPPING_MASK cfg) (DIRECTION_MASK cfg)) i = true ->
          Z.testbit (STEPPING_PORT (regs (pulse_steppers cfg st'))) i
          = xorb (Z.testbit (direction_bits b) i)
                 (Z.testbit (INVERT_MASK cfg) i)).
Proof.
  intros Hpins Hmin Hty Hb Hs Hw.
  destruct (ISR_run_summary cfg all_clear st Hmin) as (st' & HI & _).
  exists st'. split; [exact HI|].
  destruct (ISR_line_factor cfg b q st st' Hty Hb Hs Hw HI)
    as (p & s2 & E & ->).
  apply speed_adjustment_out_bits in E.
  intros i Hi Nx Ny Nz.
  assert (Ho : Z.testbit (out_bits (set_busy false s2)) i
               = xorb (Z.testbit (direction_bits b) i)
                      (Z.testbit (INVERT_MASK cfg) i)).
  { change (out_bits (set_busy false s2)) with (out_bits s2). rewrite E.
    now apply trace_line_direction_bits. }
  split; [exact Ho|].
  intros Hm. now rewrite pulse_steppers_pins.
Qed.

(** A LINE block of [sample_config] that runs X backwards: direction bit 3
    is the X direction. *)
Definition example_back : block :=
  {| type := TYPE_LINE;
     steps_x := 3; steps_y := 0; steps_z := 0;
     direction_bits := 8;
     step_event_count := 3;
     nominal_rate := 30000; initial_rate := 20000; final_rate := 20000;
     rate_delta := 1000;
     accelerate_until := 1; decelerate_after := 2;
     nominal_laser_intensity := 0 |}.

Lemma line_block_direction_pins_witness :
  exists st',
    ISR sample_config all_clear (queued_state [example_back]) = Ok st' /\
    Z.testbit (out_bits st') 3 = true.
Proof.
  destruct (line_block_direction_pins sample_config example_back []
              (queued_state [example_back])
              sample_config_step_pins_ok eq_refl eq_refl eq_refl eq_refl)
    as (st' & HI & H).
  - right. split; reflexivity.
  - exists st'. split; [exact HI|].
    destruct (H 3) as [Ho _]; try (cbn; lia). exact Ho.
Defined.

(** ** What initialisation sets up *)

Lemma clear_low_bits (t p i : Z) :
  0 <= p < 8 -> 3 <= i < 8 ->
  Z.testbit
    (u8 (Z.lor (Z.land t (Z.lnot (Z.shiftl 7 AVR.CS10)))
               (Z.shiftl p AVR.CS10))) i
  = Z.testbit t i.
Proof.
  intros Hp Hi. unfold AVR.CS10. rewrite !Z.shiftl_0_r.
  rewrite u8_testbit, Z.lor_spec, Z.land_spec, Z.lnot_spec by lia.
  rewrite (small_testbit_high 7 i), (small_testbit_high p i) by lia.
  now rewrite andb_true_r, orb_false_r.
Qed.

(** X15.  Run with a block in progress (the only way its [adjust_speed]
    call does not read through a null block), [stepper_init] returns with
    the driver idle at the origin: no block, no stop request, status OK,
    laser off, the step timer programmed for the minimum rate, Timer1 in
    CTC mode with its outputs disconnected and its interrupt off, Timer2
    stopped with its overflow interrupt on, and the step and direction pins
    set as outputs at the level of the invert mask.  The queue is left as
    it was. *)
Theorem stepper_init_sets_up (cfg : config) (b : block) (st : state) :
  0 < MINIMUM_STEPS_PER_MINUTE cfg ->
  current_block st = Some b ->
  exists st',
    stepper_init cfg st = Ok st' /\
    stepper_position st' = {| X_AXIS := 0; Y_AXIS := 0; Z_AXIS := 0 |} /\
    current_block st' = None /\
    processing_flag st' = false /\
    busy st' = false /\
    stop_requested st' = false /\
    stop_status st' = u8 (STATUS_OK cfg) /\
    acceleration_tick_counter st' = 0 /\
    laser_intensity (ext st') = 0 /\
    block_buffer (ext st') = block_buffer (ext st) /\
    emitted (ext st') = emitted (ext st) /\
    stepper_synchronize st' = Some st' /\
    (let t := step_timer_setting
                (u32 (CYCLES_PER_MICROSECOND cfg * 1000000 * 60)
                 / MINIMUM_STEPS_PER_MINUTE cfg) in
     cycles_per_step_event st' = actual_cycles t /\
     OCR1A (regs st') = ceiling t) /\
    Z.testbit (TIMSK1 (regs st')) AVR.OCIE1A = false /\
    Z.testbit (TIMSK2 (regs st')) AVR.TOIE2 = true /\
    TCCR2A (regs st') = 0 /\
    TCCR2B (regs st') = 0 /\
    Z.testbit (TCCR1B (regs st')) AVR.WGM12 = true /\
    Z.testbit (TCCR1B (regs st')) AVR.WGM13 = false /\
    Z.testbit (TCCR1A (regs st')) AVR.WGM10 = false /\
    Z.testbit (TCCR1A (regs st')) AVR.WGM11 = false /\
    (forall i, 4 <= i < 8 -> Z.testbit (TCCR1A (regs st')) i = false) /\
    (forall i, 0 <= i < 8 ->
       Z.testbit (Z.lor (STEPPING_MASK cfg) (DIRECTION_MASK cfg)) i = true ->
       Z.testbit (STEPPING_DDR (regs st')) i = true /\
       Z.testbit (STEPPING_PORT (regs st')) i
       = Z.testbit (INVERT_MASK cfg) i).
Proof.
  intros Hmin Hcur. unfold stepper_init, adjust_speed.
  destruct (Z.ltb_spec (MINIMUM_STEPS_PER_MINUTE cfg)
              (MINIMUM_STEPS_PER_MINUTE cfg)) as [Hlt|_]; [lia|].
  destruct (Z.eqb_spec (MINIMUM_STEPS_PER_MINUTE cfg) 0) as [E0|_]; [lia|].
  unfold config_step_timer. cbv zeta. fields. rewrite Hcur. cbn [bind].
  eexists. split; [reflexivity|].
  set (t := step_timer_setting _).
  pose proof (prescaler_range
                (u32 (CYCLES_PER_MICROSECOND cfg * 1000000 * 60)
                 / MINIMUM_STEPS_PER_MINUTE cfg)) as Hp.
  fold t in Hp.
  driver_ops. driver_ops. unfold stepper_synchronize. fields.
  unfold AVR.OCIE1A, AVR.TOIE2, AVR.WGM10, AVR.WGM11, AVR.WGM12, AVR.WGM13,
    AVR.COM1A0, AVR.COM1B0.
  splits; try reflexivity.
  - rewrite u8_testbit, Z.land_spec, Z.lnot_spec by lia.
    rewrite shiftl_1_testbit by lia. apply andb_false_r.
  - rewrite u8_testbit, Z.lor_spec by lia.
    rewrite shiftl_1_testbit by lia. apply orb_true_r.
  - rewrite clear_low_bits by lia.
    rewrite u8_testbit, Z.lor_spec, shiftl_1_testbit by lia.
    apply orb_true_r.
  - rewrite clear_low_bits by lia.
    rewrite u8_testbit, Z.lor_spec, shiftl_1_testbit by lia.
    rewrite u8_testbit, Z.land_spec, Z.lnot_spec, shiftl_1_testbit by lia.
    rewrite Z.eqb_refl. cbn [negb]. rewrite andb_false_r. reflexivity.
  - rewrite !u8_testbit, !Z.land_spec, !Z.lnot_spec by lia.
    rewrite !u8_testbit, !Z.land_spec, !Z.lnot_spec by lia.
    rewrite !u8_testbit, !Z.land_spec, !Z.lnot_spec by lia.
    rewrite !u8_testbit, !Z.land_spec, !Z.lnot_spec by lia.
    rewrite (shiftl_1_testbit 0 0) by lia. cbn [Z.eqb negb].
    now rewrite !andb_false_r.
  - rewrite !u8_testbit, !Z.land_spec, !Z.lnot_spec by lia.
    rewrite !u8_testbit, !Z.land_spec, !Z.lnot_spec by lia.
    rewrite !u8_testbit, !Z.land_spec, !Z.lnot_spec by lia.
    rewrite !u8_testbit, !Z.land_spec, !Z.lnot_spec by lia.
    rewrite (shiftl_1_testbit 1 1) by lia. cbn [Z.eqb Pos.eqb negb].
    now rewrite !andb_false_r.
  - intros i Hi.
    rewrite !u8_testbit, !Z.land_spec, !Z.lnot_spec by lia.
    rewrite !u8_testbit, !Z.land_spec, !Z.lnot_spec by lia.
    rewrite !u8_testbit, !Z.land_spec, !Z.lnot_spec by lia.
    rewrite !u8_testbit, !Z.land_spec, !Z.lnot_spec by lia.
    assert (Hb : Z.testbit (Z.shiftl 3 6) i = true
                 \/ Z.testbit (Z.shiftl 3 4) i = true).
    { assert (Hc : i = 4 \/ i = 5 \/ i = 6 \/ i = 7) by lia.
      destruct Hc as [-> | [-> | [-> | ->]]]; cbn; auto. }
    destruct Hb as [Hb|Hb]; rewrite Hb; cbn [negb];
      now rewrite ?andb_false_r, ?andb_false_l.
  - intros i Hi Hm.
    rewrite !u8_testbit, !Z.lor_spec by lia.
    rewrite Z.land_spec, Z.lnot_spec, Hm by lia.
    rewrite Z.lor_spec in Hm. rewrite Hm, orb_true_r. cbn [negb].
    rewrite andb_false_r. split; reflexivity.
Qed.

Lemma stepper_init_sets_up_witness :
  exists st',
    stepper_init sample_config tracing_example = Ok st' /\
    current_block st' = None /\
    Z.testbit (TCCR1B (regs st')) AVR.WGM12 = true.
Proof.
  destruct (stepper_init_sets_up sample_config example_line tracing_example
              eq_refl eq_refl) as (st' & H).
  exists st'. repeat split; apply H.
Defined.

(** ** Waking the driver up *)

(** X16.  [stepper_wake_up] on an idle driver sets the processing flag
    (so [stepper_synchronize] waits), enables the Timer1 compare interrupt
    and nothing else of [TIMSK1], and resets [out_bits] to the invert mask:
    the first run of the interrupt after it pulses no step pin, every pin of
    the step and direction masks is at its invert-mask level.  On a driver
    that is already processing it changes nothing, so it is idempotent. *)
Theorem wake_up_first_pulse_is_idle (cfg : config) (st : state) :
  (processing_flag st = true -> stepper_wake_up cfg st = st) /\
  stepper_wake_up cfg (stepper_wake_up cfg st) = stepper_wake_up cfg st /\
  stepper_synchronize (stepper_wake_up cfg st) = None /\
  (processing_flag st = false ->
   let w := stepper_wake_up cfg st in
   Z.testbit (TIMSK1 (regs w)) AVR.OCIE1A = true /\
   (forall i, 0 <= i < 8 -> i <> AVR.OCIE1A ->
      Z.testbit (TIMSK1 (regs w)) i = Z.testbit (TIMSK1 (regs st)) i) /\
   (0 < MINIMUM_STEPS_PER_MINUTE cfg ->
    busy st = false -> stop_requested st = false ->
    exists st',
      ISR cfg all_clear w = Ok st' /\
      emitted (ext st')
      = StepPulse (STEPPING_PORT (regs (pulse_steppers cfg w)))
          :: emitted (ext st) /\
      forall i, 0 <= i < 8 ->
        Z.testbit (Z.lor (STEPPING_MASK cfg) (DIRECTION_MASK cfg)) i = true ->
        Z.testbit (STEPPING_PORT (regs (pulse_steppers cfg w))) i
        = Z.testbit (INVERT_MASK cfg) i)).
Proof.
  assert (Hon : processing_flag st = true -> stepper_wake_up cfg st = st).
  { intros H. unfold stepper_wake_up. now rewrite H. }
  splits.
  - exact Hon.
  - destruct (processing_flag st) eqn:Hpf.
    + now rewrite !Hon.
    + unfold stepper_wake_up at 1.
      assert (E : processing_flag (stepper_wake_up cfg st) = true)
        by (unfold stepper_wake_up; rewrite Hpf; reflexivity).
      now rewrite E.
  - unfold stepper_synchronize, stepper_wake_up.
    destruct (processing_flag st) eqn:Hpf; cbn [negb]; fields;
      [now rewrite Hpf|reflexivity].
  - intros Hpf. cbv zeta. unfold stepper_wake_up. rewrite Hpf. cbn [negb].
    fields. unfold AVR.OCIE1A. splits.
    + rewrite u8_testbit, Z.lor_spec, shiftl_1_testbit by lia.
      apply orb_true_r.
    + intros i Hi Hne.
      rewrite u8_testbit, Z.lor_spec, shiftl_1_testbit by lia.
      destruct (Z.eqb_spec 1 i); [lia|]. apply orb_false_r.
    + intros Hmin Hb Hs.
      match goal with
      | |- context [ISR cfg all_clear ?w] =>
          destruct (ISR_run_summary cfg all_clear w Hmin)
            as (st' & HI & _ & _ & _ & _ & He);
          assert (Hbw : busy w = false) by exact Hb;
          assert (Hsw : stop_requested w = false) by exact Hs;
          assert (How : out_bits w = u8 (INVERT_MASK cfg)) by reflexivity;
          assert (Hew : emitted (ext w) = emitted (ext st)) by reflexivity;
          set (w0 := w) in *; clearbody w0
      end.
      rewrite Hbw, Hsw in He. cbn [negb andb SENSE_ANY] in He.
      change (SENSE_ANY all_clear) with false in He. cbn [negb andb] in He.
      exists st'. split; [exact HI|]. split; [now rewrite He, Hew|].
      intros i Hi Hm.
      rewrite pulse_steppers_pins, How, u8_testbit by (assumption || lia).
      reflexivity.
Qed.

Lemma wake_up_first_pulse_is_idle_witness :
  Z.testbit
    (TIMSK1 (regs (stepper_wake_up sample_config (queued_state [example_line]))))
    AVR.OCIE1A = true.
Proof.
  destruct (wake_up_first_pulse_is_idle sample_config
              (queued_state [example_line])) as (_ & _ & _ & H).
  destruct (H eq_refl) as (Hbit & _). exact Hbit.
Defined.

(** ** Overshoot, phase by phase *)

(** The limit inputs are active low: the approach phase stops an axis on
    [!(limit_bits & (1<<X1_LIMIT_BIT))], its limit bit reading 0. *)
Definition x_switch_asserted (cfg : config) (pin : Z) : bool :=
  negb (Z.testbit pin (X1_LIMIT_BIT cfg)).

Definition y_switch_asserted (cfg : config) (pin : Z) : bool :=
  negb (Z.testbit pin (Y1_LIMIT_BIT cfg)).

(** The stop condition of an axis in a phase, on the reading of the limit
    pins: the switch asserted in the approach phase, de-asserted in the
    leave phase. *)
Definition x_stop_condition (cfg : config) (reverse_direction : bool)
    (pin : Z) : bool :=
  if reverse_direction
  then negb (x_switch_asserted cfg pin)
  else x_switch_asserted cfg pin.

Definition y_stop_condition (cfg : config) (reverse_direction : bool)
    (pin : Z) : bool :=
  if reverse_direction
  then negb (y_switch_asserted cfg pin)
  else y_switch_asserted cfg pin.

(** The limit bits of X and Y are bits of the 8-bit limit port and belong
    to [LIMIT_MASK]. *)
Record limit_pins_ok (cfg : config) : Prop := {
  xl_range : 0 <= X1_LIMIT_BIT cfg < 8;
  yl_range : 0 <= Y1_LIMIT_BIT cfg < 8;
  xl_in_mask : Z.testbit (LIMIT_MASK cfg) (X1_LIMIT_BIT cfg) = true;
  yl_in_mask : Z.testbit (LIMIT_MASK cfg) (Y1_LIMIT_BIT cfg) = true
}.

Lemma sample_config_limit_pins_ok : limit_pins_ok sample_config.
Proof. constructor; cbn; try lia; reflexivity. Qed.

(** The pulses of a call, newest first, are six pulses of the axis and,
    after them, pulses without it. *)
Definition six_then_none (pulsed : output_event -> bool) (st st' : state)
    : Prop :=
  exists early late,
    emitted (ext st') = late ++ early ++ emitted (ext st) /\
    length early = 6%nat /\
    Forall (fun e => pulsed e = true) early /\
    Forall (fun e => pulsed e = false) late.

(** The claim of C7 as it reads, for the X axis: with the X switch
    asserted when the phase begins, whatever the phase and the build, X is
    pulsed exactly six more times and then no more. *)
Definition overshoot_when_asserted (cfg : config) (reverse_direction : bool)
    (mpp : Z) (pins : list Z) (st : state) : Prop :=
  Forall (fun pin => x_switch_asserted cfg pin = true) (firstn 7 pins) ->
  forall y z,
    six_then_none (x_pulsed cfg) st
      (snd (fst (homing_cycle cfg true y z reverse_direction mpp pins st))).

(** [sample_config] with the X step pin inverted. *)
Definition inverted_config : config :=
  {| F_CPU := 16000000;
     ACCELERATION_TICKS_PER_SECOND := 100;
     MINIMUM_STEPS_PER_MINUTE := 1200;
     CONFIG_PULSE_MICROSECONDS := 5;
     X_STEP_BIT := 0; Y_STEP_BIT := 1; Z_STEP_BIT := 2;
     X_DIRECTION_BIT := 3; Y_DIRECTION_BIT := 4; Z_DIRECTION_BIT := 5;
     STEPPING_MASK := 7; DIRECTION_MASK := 56; INVERT_MASK := 1;
     X1_LIMIT_BIT := 0; Y1_LIMIT_BIT := 2; LIMIT_MASK := 15;
     STATUS_OK := 0;
     STATUS_STOP_LIMIT_HIT := 1;
     STATUS_STOP_CHILLER_OFF := 2;
     STATUS_STOP_POWER_OFF := 3 |}.

(** Readings with the X switch (bit 0) held asserted and the Y switch
    (bit 2) open. *)
Definition held_pins : list Z := [14; 14; 14; 14; 14; 14; 14; 14; 14].

Lemma app_tail_split {A : Type} (late early l : list A) :
  late ++ early = l ->
  early = skipn (length l - length early) l /\
  late = firstn (length l - length early) l.
Proof.
  intros <-. rewrite length_app.
  replace (length late + length early - length early)%nat
    with (length late + 0)%nat by lia.
  split.
  - rewrite skipn_app. rewrite (skipn_all2 (n := length late + 0) late) by lia.
    replace (length late + 0 - length late)%nat with 0%nat by lia.
    reflexivity.
  - rewrite firstn_app_2. cbn. now rewrite app_nil_r.
Qed.

Lemma limit_bit_test (a i : Z) :
  0 <= i ->
  (Z.land a (Z.shiftl 1 i) =? 0) = negb (Z.testbit a i).
Proof.
  intros Hi.
  assert (E : Z.land a (Z.shiftl 1 i)
              = if Z.testbit a i then Z.shiftl 1 i else 0).
  { apply Z.bits_inj'. intros n Hn.
    rewrite Z.land_spec, shiftl_1_testbit by lia.
    destruct (Z.eqb_spec i n) as [->|Hne].
    - destruct (Z.testbit a n) eqn:Ha.
      + rewrite shiftl_1_testbit, Z.eqb_refl by lia. reflexivity.
      + now rewrite Z.testbit_0_l.
    - rewrite andb_false_r.
      destruct (Z.testbit a i).
      + rewrite shiftl_1_testbit by lia.
        destruct (Z.eqb_spec i n); [lia|reflexivity].
      + now rewrite Z.testbit_0_l. }
  rewrite E. destruct (Z.testbit a i); cbn [negb]; [|reflexivity].
  rewrite Z.shiftl_1_l.
  destruct (Z.eqb_spec (2 ^ i) 0) as [E0|]; [|reflexivity].
  pose proof (Z.pow_pos_nonneg 2 i ltac:(lia) Hi). lia.
Qed.

Section OvershootByPhase.

Variable cfg : config.
Hypothesis pins_ok : homing_pins_ok cfg.
Hypothesis limits_ok : limit_pins_ok cfg.

(** The test the loop makes on [limit_bits] is the stop condition of the
    phase on the pins. *)
Lemma x_limit_reached_stop (reverse_direction : bool) (pin : Z) :
  x_limit_reached cfg reverse_direction pin
  = x_stop_condition cfg reverse_direction pin.
Proof.
  destruct limits_ok as [Rx _ Mx _].
  unfold x_limit_reached, x_stop_condition, x_switch_asserted, read_limit_bits.
  cbv zeta. rewrite limit_bit_test by lia.
  destruct reverse_direction.
  - rewrite u8_testbit, Z.lxor_spec, Mx, u8_testbit by lia.
    now destruct (Z.testbit pin (X1_LIMIT_BIT cfg)).
  - now rewrite u8_testbit by lia.
Qed.

Lemma y_limit_reached_stop (reverse_direction : bool) (pin : Z) :
  y_limit_reached cfg reverse_direction pin
  = y_stop_condition cfg reverse_direction pin.
Proof.
  destruct limits_ok as [_ Ry _ My].
  unfold y_limit_reached, y_stop_condition, y_switch_asserted, read_limit_bits.
  cbv zeta. rewrite limit_bit_test by lia.
  destruct reverse_direction.
  - rewrite u8_testbit, Z.lxor_spec, My, u8_testbit by lia.
    now destruct (Z.testbit pin (Y1_LIMIT_BIT cfg)).
  - now rewrite u8_testbit by lia.
Qed.

Lemma hits_stop_x (reverse_direction : bool) (pins : list Z) :
  hits (x_limit_reached cfg reverse_direction) pins
  = hits (x_stop_condition cfg reverse_direction) pins.
Proof.
  unfold hits. f_equal. apply filter_ext. intros pin.
  apply x_limit_reached_stop.
Qed.

Lemma hits_stop_y (reverse_direction : bool) (pins : list Z) :
  hits (y_limit_reached cfg reverse_direction) pins
  = hits (y_stop_condition cfg reverse_direction) pins.
Proof.
  unfold hits. f_equal. apply filter_ext. intros pin.
  apply y_limit_reached_stop.
Qed.

(** The axis flag in the frame of turn [k+1]: on while the stop condition
    has been read at most [x_overshoot_count] times so far. *)
Lemma loop_frames_x_axis (reverse_direction : bool) (pins : list Z) :
  forall f k f',
    0 <= x_overshoot_count f < 256 ->
    nth_error (loop_frames cfg reverse_direction pins f) k = Some f' ->
    x_axis f'
    = x_axis f
      && (hits (x_limit_reached cfg reverse_direction) (firstn (S k) pins)
          <=? Z.to_nat (x_overshoot_count f))%nat.
Proof.
  induction pins as [|pin pins IH]; intros f k f' Hc Hn.
  - destruct k; discriminate Hn.
  - cbn [loop_frames] in Hn. cbv zeta in Hn.
    destruct (check_limits_flags cfg
                (read_limit_bits cfg reverse_direction pin) f)
      as (_ & Fx & _ & Cx & _).
    cbv zeta in Fx, Cx.
    fold (x_limit_reached cfg reverse_direction pin) in Fx, Cx.
    set (f1 := check_limits cfg _ f) in *.
    destruct (x_axis f1 || y_axis f1 || z_axis f1); [|destruct k; discriminate Hn].
    change (firstn (S k) (pin :: pins)) with (pin :: firstn k pins).
    rewrite hits_cons.
    destruct k as [|k].
    + cbn [nth_error] in Hn. inversion Hn; subst f'. rewrite Fx.
      change (hits _ (firstn 0 pins)) with 0%nat.
      destruct (x_axis f), (x_limit_reached cfg reverse_direction pin);
        destruct (Z.eqb_spec (x_overshoot_count f) 0) as [E0|Hne];
        cbn [andb negb]; try reflexivity;
        symmetry;
        first [ apply Nat.leb_le; lia | apply Nat.leb_gt; lia ].
    + cbn [nth_error] in Hn.
      assert (Hc1 : 0 <= x_overshoot_count f1 < 256).
      { rewrite Cx.
        destruct (x_axis f && x_limit_reached cfg reverse_direction pin
                  && negb (x_overshoot_count f =? 0)) eqn:E; [|exact Hc].
        apply andb_prop in E. destruct E as [_ E].
        apply negb_true_iff, Z.eqb_neq in E.
        rewrite u8_small by lia. lia. }
      rewrite (IH f1 k f' Hc1 Hn), Fx, Cx.
      set (h := hits (x_limit_reached cfg reverse_direction)
                     (firstn (S k) pins)).
      destruct (x_axis f), (x_limit_reached cfg reverse_direction pin);
        destruct (Z.eqb_spec (x_overshoot_count f) 0) as [E0|Hne];
        cbn [andb negb]; try reflexivity;
        rewrite ?u8_small by lia;
        try (symmetry; apply Nat.leb_gt; lia);
        destruct (Nat.leb_spec h (Z.to_nat (x_overshoot_count f - 1)));
        symmetry;
        first [ apply Nat.leb_le; lia | apply Nat.leb_gt; lia ].
Qed.

Lemma loop_frames_y_axis (reverse_direction : bool) (pins : list Z) :
  forall f k f',
    0 <= y_overshoot_count f < 256 ->
    nth_error (loop_frames cfg reverse_direction pins f) k = Some f' ->
    y_axis f'
    = y_axis f
      && (hits (y_limit_reached cfg reverse_direction) (firstn (S k) pins)
          <=? Z.to_nat (y_overshoot_count f))%nat.
Proof.
  induction pins as [|pin pins IH]; intros f k f' Hc Hn.
  - destruct k; discriminate Hn.
  - cbn [loop_frames] in Hn. cbv zeta in Hn.
    destruct (check_limits_flags cfg
                (read_limit_bits cfg reverse_direction pin) f)
      as (_ & _ & Fy & _ & Cy).
    cbv zeta in Fy, Cy.
    fold (y_limit_reached cfg reverse_direction pin) in Fy, Cy.
    set (f1 := check_limits cfg _ f) in *.
    destruct (x_axis f1 || y_axis f1 || z_axis f1); [|destruct k; discriminate Hn].
    change (firstn (S k) (pin :: pins)) with (pin :: firstn k pins).
    rewrite hits_cons.
    destruct k as [|k].
    + cbn [nth_error] in Hn. inversion Hn; subst f'. rewrite Fy.
      change (hits _ (firstn 0 pins)) with 0%nat.
      destruct (y_axis f), (y_limit_reached cfg reverse_direction pin);
        destruct (Z.eqb_spec (y_overshoot_count f) 0) as [E0|Hne];
        cbn [andb negb]; try reflexivity;
        symmetry;
        first [ apply Nat.leb_le; lia | apply Nat.leb_gt; lia ].
    + cbn [nth_error] in Hn.
      assert (Hc1 : 0 <= y_overshoot_count f1 < 256).
      { rewrite Cy.
        destruct (y_axis f && y_limit_reached cfg reverse_direction pin
                  && negb (y_overshoot_count f =? 0)) eqn:E; [|exact Hc].
        apply andb_prop in E. destruct E as [_ E].
        apply negb_true_iff, Z.eqb_neq in E.
        rewrite u8_small by lia. lia. }
      rewrite (IH f1 k f' Hc1 Hn), Fy, Cy.
      set (h := hits (y_limit_reached cfg reverse_direction)
                     (firstn (S k) pins)).
      destruct (y_axis f), (y_limit_reached cfg reverse_direction pin);
        destruct (Z.eqb_spec (y_overshoot_count f) 0) as [E0|Hne];
        cbn [andb negb]; try reflexivity;
        rewrite ?u8_small by lia;
        try (symmetry; apply Nat.leb_gt; lia);
        destruct (Nat.leb_spec h (Z.to_nat (y_overshoot_count f - 1)));
        symmetry;
        first [ apply Nat.leb_le; lia | apply Nat.leb_gt; lia ].
Qed.

(** The loop is still turning at turn [k+1] while an axis has not read its
    stop condition often enough. *)
Lemma loop_frames_x_alive (reverse_direction : bool) (pins : list Z) :
  forall f k,
    x_axis f = true ->
    0 <= x_overshoot_count f < 256 ->
    (k < length pins)%nat ->
    (hits (x_limit_reached cfg reverse_direction) (firstn (S k) pins)
     <= Z.to_nat (x_overshoot_count f))%nat ->
    exists f', nth_error (loop_frames cfg reverse_direction pins f) k = Some f'.
Proof.
  induction pins as [|pin pins IH]; intros f k Hx Hc Hk Hh.
  - cbn in Hk. lia.
  - cbn [loop_frames]. cbv zeta.
    destruct (check_limits_flags cfg
                (read_limit_bits cfg reverse_direction pin) f)
      as (_ & Fx & _ & Cx & _).
    cbv zeta in Fx, Cx.
    fold (x_limit_reached cfg reverse_direction pin) in Fx, Cx.
    set (f1 := check_limits cfg _ f) in *.
    change (firstn (S k) (pin :: pins)) with (pin :: firstn k pins) in Hh.
    rewrite hits_cons in Hh. rewrite Hx in Fx, Cx. cbn [andb] in Fx, Cx.
    assert (Hon : x_axis f1 = true /\
                  0 <= x_overshoot_count f1 < 256 /\
                  (Z.to_nat (x_overshoot_count f)
                   = (if x_limit_reached cfg reverse_direction pin
                      then 1 else 0)
                     + Z.to_nat (x_overshoot_count f1))%nat).
    { rewrite Fx, Cx.
      destruct (x_limit_reached cfg reverse_direction pin);
        destruct (Z.eqb_spec (x_overshoot_count f) 0) as [E0|Hne];
        cbn [andb negb]; rewrite ?u8_small by lia;
        repeat split; try reflexivity; lia. }
    destruct Hon as (Hx1 & Hc1 & Hsum).
    rewrite Hx1. cbn [orb].
    destruct k as [|k]; [now exists f1|].
    cbn [nth_error]. apply IH; try assumption.
    + cbn [length] in Hk. lia.
    + lia.
Qed.

Lemma loop_frames_y_alive (reverse_direction : bool) (pins : list Z) :
  forall f k,
    y_axis f = true ->
    0 <= y_overshoot_count f < 256 ->
    (k < length pins)%nat ->
    (hits (y_limit_reached cfg reverse_direction) (firstn (S k) pins)
     <= Z.to_nat (y_overshoot_count f))%nat ->
    exists f', nth_error (loop_frames cfg reverse_direction pins f) k = Some f'.
Proof.
  induction pins as [|pin pins IH]; intros f k Hy Hc Hk Hh.
  - cbn in Hk. lia.
  - cbn [loop_frames]. cbv zeta.
    destruct (check_limits_flags cfg
                (read_limit_bits cfg reverse_direction pin) f)
      as (_ & _ & Fy & _ & Cy).
    cbv zeta in Fy, Cy.
    fold (y_limit_reached cfg reverse_direction pin) in Fy, Cy.
    set (f1 := check_limits cfg _ f) in *.
    change (firstn (S k) (pin :: pins)) with (pin :: firstn k pins) in Hh.
    rewrite hits_cons in Hh. rewrite Hy in Fy, Cy. cbn [andb] in Fy, Cy.
    assert (Hon : y_axis f1 = true /\
                  0 <= y_overshoot_count f1 < 256 /\
                  (Z.to_nat (y_overshoot_count f)
                   = (if y_limit_reached cfg reverse_direction pin
                      then 1 else 0)
                     + Z.to_nat (y_overshoot_count f1))%nat).
    { rewrite Fy, Cy.
      destruct (y_limit_reached cfg reverse_direction pin);
        destruct (Z.eqb_spec (y_overshoot_count f) 0) as [E0|Hne];
        cbn [andb negb]; rewrite ?u8_small by lia;
        repeat split; try reflexivity; lia. }
    destruct Hon as (Hy1 & Hc1 & Hsum).
    rewrite Hy1, orb_true_r. cbn [orb].
    destruct k as [|k]; [now exists f1|].
    cbn [nth_error]. apply IH; try assumption.
    + cbn [length] in Hk. lia.
    + lia.
Qed.

(** Every frame of the loop keeps the step bits of X and Y in step with
    the axis flags. *)
Lemma loop_frames_sync (reverse_direction : bool) (pins : list Z) :
  forall f,
    x_sync cfg f -> y_sync cfg f ->
    0 <= x_overshoot_count f < 256 ->
    0 <= y_overshoot_count f < 256 ->
    Forall (fun f' => x_sync cfg f' /\ y_sync cfg f')
           (loop_frames cfg reverse_direction pins f).
Proof.
  induction pins as [|pin pins IH]; intros f Sx Sy Hcx Hcy;
    cbn [loop_frames]; [constructor|]. cbv zeta.
  destruct (check_limits_x cfg pins_ok
              (read_limit_bits cfg reverse_direction pin) f Sx Hcx)
    as (Sx' & _).
  destruct (check_limits_y cfg pins_ok
              (read_limit_bits cfg reverse_direction pin) f Sy Hcy)
    as (Sy' & _).
  pose proof (check_limits_x_count cfg
                (read_limit_bits cfg reverse_direction pin) f Hcx) as Cx.
  pose proof (check_limits_y_count cfg
                (read_limit_bits cfg reverse_direction pin) f Hcy) as Cy.
  cbv zeta in Sx', Sy'.
  destruct (x_axis _ || y_axis _ || z_axis _); constructor.
  - split; assumption.
  - apply IH; try assumption; lia.
Qed.

End OvershootByPhase.

(** Asserted throughout the leave phase, the X switch never stops X: all
    nine turns pulse it.  And with the X step pin inverted the approach
    phase raises no X pulse while X is homed and three after it was
    switched off. *)
Lemma overshoot_not_in_every_phase :
  ~ overshoot_when_asserted sample_config true 10000 held_pins power_on_state
  /\ ~ overshoot_when_asserted inverted_config false 1000 staggered_pins
         power_on_state.
Proof.
  split; intros H.
  - specialize (H ltac:(repeat constructor) true false).
    destruct H as (early & late & He & Hl & H1 & H2).
    remember (emitted (ext (snd (fst (homing_cycle sample_config true true
                false true 10000 held_pins power_on_state))))) as L eqn:EL.
    vm_compute in EL. subst L.
    change (emitted (ext power_on_state)) with (@nil output_event) in He.
    rewrite app_nil_r in He. symmetry in He.
    apply app_tail_split in He. rewrite Hl in He. destruct He as [_ El].
    cbn in El. subst late.
    inversion H2 as [|? ? Hp _]. vm_compute in Hp. discriminate Hp.
  - specialize (H ltac:(repeat constructor) true false).
    destruct H as (early & late & He & Hl & H1 & H2).
    remember (emitted (ext (snd (fst (homing_cycle inverted_config true true
                false false 1000 staggered_pins power_on_state))))) as L
      eqn:EL.
    vm_compute in EL. subst L.
    change (emitted (ext power_on_state)) with (@nil output_event) in He.
    rewrite app_nil_r in He. symmetry in He.
    apply app_tail_split in He. rewrite Hl in He. destruct He as [Ee _].
    cbn in Ee. subst early.
    inversion H1 as [|? ? Hp _]. vm_compute in Hp. discriminate Hp.
Qed.

(** C7 (amended).  On a build whose X and Y step pins are not inverted, an
    axis (X or Y) whose stop condition already holds when a homing phase
    begins, and through the overshoot, is pulsed exactly six more times,
    in the first six turns of the loop, and never after.  The stop condition
    is the axis's own limit switch asserted in the approach phase and
    de-asserted in the leave phase.  Each axis stops on its own switch,
    whatever the other axes are asked to do and whatever their switches
    read: it is pulsed at every turn of the loop until its stop condition
    has been read seven times, and at no turn after that.  [pulses] are the
    pulses of the call, oldest first; [seen k] counts the readings with the
    stop condition among the first [k+1]. *)
Theorem homing_overshoot_by_phase (cfg : config) (reverse_direction : bool)
    (mpp : Z) (pins : list Z) (st : state) :
  homing_pins_ok cfg ->
  limit_pins_ok cfg ->
  (forall y z,
     let st' :=
       snd (fst (homing_cycle cfg true y z reverse_direction mpp pins st)) in
     let pulses := rev (new_events st st') in
     let seen k :=
       hits (x_stop_condition cfg reverse_direction) (firstn (S k) pins) in
     (forall k e, nth_error pulses k = Some e ->
        x_pulsed cfg e = (seen k <=? 6)%nat) /\
     (forall k, (k < length pins)%nat -> (seen k <= 6)%nat ->
        exists e, nth_error pulses k = Some e /\ x_pulsed cfg e = true) /\
     ((7 <= length pins)%nat ->
      Forall (fun pin => x_stop_condition cfg reverse_direction pin = true)
             (firstn 7 pins) ->
      six_then_none (x_pulsed cfg) st st')) /\
  (forall x z,
     let st' :=
       snd (fst (homing_cycle cfg x true z reverse_direction mpp pins st)) in
     let pulses := rev (new_events st st') in
     let seen k :=
       hits (y_stop_condition cfg reverse_direction) (firstn (S k) pins) in
     (forall k e, nth_error pulses k = Some e ->
        y_pulsed cfg e = (seen k <=? 6)%nat) /\
     (forall k, (k < length pins)%nat -> (seen k <= 6)%nat ->
        exists e, nth_error pulses k = Some e /\ y_pulsed cfg e = true) /\
     ((7 <= length pins)%nat ->
      Forall (fun pin => y_stop_condition cfg reverse_direction pin = true)
             (firstn 7 pins) ->
      six_then_none (y_pulsed cfg) st st')).
Proof.
  intros Hok Hlim. split.
  - intros y z. cbv zeta.
    destruct (homing_cycle cfg true y z reverse_direction mpp pins st)
      as [[done st'] rest] eqn:H.
    cbn [fst snd].
    pose proof (homing_cycle_spec cfg _ _ _ _ _ _ _ _ _ _ H) as [Hlog _].
    cbv zeta in Hlog.
    rewrite (new_events_app _ _ _ Hlog), rev_involutive.
    destruct (homing_entry_sync cfg Hok true y z reverse_direction)
      as (Sx & Sy & Hx & _ & Cx & Cy).
    cbv zeta in Sx, Sy, Hx, Cx, Cy.
    set (f0 := homing_entry cfg true y z reverse_direction) in *.
    set (d := u32 (mpp - CONFIG_PULSE_MICROSECONDS cfg)) in *.
    pose proof (loop_frames_sync cfg Hok reverse_direction pins f0 Sx Sy
                  ltac:(lia) ltac:(lia)) as Hsync.
    rewrite Forall_forall in Hsync.
    assert (Hchar : forall k f',
              nth_error (loop_frames cfg reverse_direction pins f0) k = Some f' ->
              x_pulsed cfg (frame_pulse cfg d f')
              = (hits (x_stop_condition cfg reverse_direction)
                      (firstn (S k) pins) <=? 6)%nat).
    { intros k f' Hf.
      rewrite (frame_pulse_x cfg Hok).
      destruct (Hsync f' (nth_error_In _ _ Hf)) as [Sf _].
      unfold x_sync in Sf. rewrite Sf.
      rewrite (loop_frames_x_axis cfg reverse_direction pins f0 k f'
                 ltac:(lia) Hf).
      rewrite Hx, Cx, (hits_stop_x cfg Hlim). reflexivity. }
    splits.
    + intros k e Hn. rewrite nth_error_map in Hn.
      destruct (nth_error (loop_frames cfg reverse_direction pins f0) k)
        as [f'|] eqn:Hf; [|discriminate Hn].
      cbn [option_map] in Hn. inversion Hn; subst e. now apply Hchar.
    + intros k Hk Hs.
      destruct (loop_frames_x_alive cfg reverse_direction pins f0 k Hx
                  ltac:(lia) Hk) as (f' & Hf).
      { rewrite Cx, (hits_stop_x cfg Hlim). exact Hs. }
      exists (frame_pulse cfg d f'). split.
      * rewrite nth_error_map, Hf. reflexivity.
      * rewrite (Hchar k f' Hf). now apply Nat.leb_le.
    + intros Hlen Hhit.
      apply (homing_cycle_x_overshoot cfg y z reverse_direction mpp pins st
               done st' rest Hok Hlen); [|exact H].
      eapply Forall_impl; [|exact Hhit].
      intros pin Hp. now rewrite (x_limit_reached_stop cfg Hlim).
  - intros x z. cbv zeta.
    destruct (homing_cycle cfg x true z reverse_direction mpp pins st)
      as [[done st'] rest] eqn:H.
    cbn [fst snd].
    pose proof (homing_cycle_spec cfg _ _ _ _ _ _ _ _ _ _ H) as [Hlog _].
    cbv zeta in Hlog.
    rewrite (new_events_app _ _ _ Hlog), rev_involutive.
    destruct (homing_entry_sync cfg Hok x true z reverse_direction)
      as (Sx & Sy & _ & Hy & Cx & Cy).
    cbv zeta in Sx, Sy, Hy, Cx, Cy.
    set (f0 := homing_entry cfg x true z reverse_direction) in *.
    set (d := u32 (mpp - CONFIG_PULSE_MICROSECONDS cfg)) in *.
    pose proof (loop_frames_sync cfg Hok reverse_direction pins f0 Sx Sy
                  ltac:(lia) ltac:(lia)) as Hsync.
    rewrite Forall_forall in Hsync.
    assert (Hchar : forall k f',
              nth_error (loop_frames cfg reverse_direction pins f0) k = Some f' ->
              y_pulsed cfg (frame_pulse cfg d f')
              = (hits (y_stop_condition cfg reverse_direction)
                      (firstn (S k) pins) <=? 6)%nat).
    { intros k f' Hf.
      rewrite (frame_pulse_y cfg Hok).
      destruct (Hsync f' (nth_error_In _ _ Hf)) as [_ Sf].
      unfold y_sync in Sf. rewrite Sf.
      rewrite (loop_frames_y_axis cfg reverse_direction pins f0 k f'
                 ltac:(lia) Hf).
      rewrite Hy, Cy, (hits_stop_y cfg Hlim). reflexivity. }
    splits.
    + intros k e Hn. rewrite nth_error_map in Hn.
      destruct (nth_error (loop_frames cfg reverse_direction pins f0) k)
        as [f'|] eqn:Hf; [|discriminate Hn].
      cbn [option_map] in Hn. inversion Hn; subst e. now apply Hchar.
    + intros k Hk Hs.
      destruct (loop_frames_y_alive cfg reverse_direction pins f0 k Hy
                  ltac:(lia) Hk) as (f' & Hf).
      { rewrite Cy, (hits_stop_y cfg Hlim). exact Hs. }
      exists (frame_pulse cfg d f'). split.
      * rewrite nth_error_map, Hf. reflexivity.
      * rewrite (Hchar k f' Hf). now apply Nat.leb_le.
    + intros Hlen Hhit.
      apply (homing_cycle_y_overshoot cfg x z reverse_direction mpp pins st
               done st' rest Hok Hlen); [|exact H].
      eapply Forall_impl; [|exact Hhit].
      intros pin Hp. now rewrite (y_limit_reached_stop cfg Hlim).
Qed.

Lemma homing_overshoot_by_phase_witness :
  six_then_none (x_pulsed sample_config) power_on_state
    (snd (fst (homing_cycle sample_config true true false false 1000
                 staggered_pins power_on_state))).
Proof.
  destruct (homing_overshoot_by_phase sample_config false 1000 staggered_pins
              power_on_state sample_config_homing_pins_ok
              sample_config_limit_pins_ok) as [Hx _].
  destruct (Hx true false) as (_ & _ & H).
  apply H; [cbn; lia|repeat constructor].
Defined.
